(** * OTA update server: fleet registry, identity resolver, manifest builder
      and record query filter of [ota-server/server.js], embedded in Rocq.

    The JavaScript is embedded shallowly.  The clock ([Date.now()],
    [new Date()]), the file system ([fs]) and the digest ([crypto]) are
    explicit arguments of the functions that read them; exceptions are the
    [inl] side of a sum; the two module-level [Map]s are insertion-ordered
    association lists that are threaded through the operations. *)

From Stdlib Require Import ZArith List String Ascii Bool Lia Sorted Permutation.
Import ListNotations.
Local Open Scope string_scope.
Local Open Scope Z_scope.

Set Implicit Arguments.

(** ** JavaScript values used by the server *)

(** A header or property that may be [undefined]. *)
Definition truthy (v : option string) : bool :=
  match v with
  | Some s => negb (String.eqb s "")
  | None => false
  end.

(** [a || b] where [b] is a string: [a] when it is truthy, else [b]. *)
Definition or_else (a : option string) (b : string) : string :=
  match a with
  | Some s => if String.eqb s "" then b else s
  | None => b
  end.

(** [a || b] where [b] may itself be [undefined]. *)
Definition or_opt (a b : option string) : option string :=
  if truthy a then a else b.

(** A JavaScript number as far as the sweep needs it: a time value or NaN. *)
Inductive JsNumber : Type :=
| Num (z : Z)
| NaN.

(** [a < b] on numbers; every comparison with NaN is false. *)
Definition js_lt (a b : JsNumber) : bool :=
  match a, b with
  | Num x, Num y => x <? y
  | _, _ => false
  end.

(** The string stored in [lastSeen], kept together with what [new Date(s)]
    makes of it.  [toISOString ms] is the text [new Date(ms).toISOString()],
    which [new Date(..).getTime()] reads back as [ms]; it is the only kind
    of text the server stores.  [NotADate text] is a text that the date
    parser of the engine rejects, for which [getTime()] answers NaN.  What
    a sweep makes of any other value put there by other hands (a text some
    engine reads as a date, a number, a symbol) is modelled apart, in
    [AnyRecord] below, where the date parser is a parameter. *)
Inductive DateString : Type :=
| toISOString (ms : Z)
| NotADate (text : string).

(** [new Date(s).getTime()] *)
Definition getTime (s : DateString) : JsNumber :=
  match s with
  | toISOString ms => Num ms
  | NotADate _ => NaN
  end.

(** ** The built-in [Map]: insertion-ordered, one entry per key *)

Module JsMap.
Section Ops.
Variable V : Type.

Definition t : Type := list (string * V).

Definition empty : t := [].

Fixpoint get (m : t) (k : string) : option V :=
  match m with
  | [] => None
  | (k', v) :: m' => if String.eqb k k' then Some v else get m' k
  end.

Definition has (m : t) (k : string) : bool :=
  match get m k with Some _ => true | None => false end.

(** [m.set(k, v)]: an existing key keeps its position, a new one is
    appended. *)
Fixpoint set (m : t) (k : string) (v : V) : t :=
  match m with
  | [] => [(k, v)]
  | (k', v') :: m' =>
      if String.eqb k k' then (k, v) :: m' else (k', v') :: set m' k v
  end.

(** [m.delete(k)] *)
Definition delete (m : t) (k : string) : t :=
  filter (fun e => negb (String.eqb k (fst e))) m.

Definition size (m : t) : Z := Z.of_nat (List.length m).

Definition entries (m : t) : list (string * V) := m.

Definition keys (m : t) : list string := map fst m.

Definition values (m : t) : list V := map snd m.

(** What the built-in type guarantees of every [Map]. *)
Definition wf (m : t) : Prop := NoDup (keys m).

(** How many entries [m] holds under [k]. *)
Definition count (m : t) (k : string) : nat :=
  List.length (filter (fun e => String.eqb k (fst e)) m).
End Ops.
End JsMap.

(** ** Client identity resolver *)

(** What the handlers read of an incoming request. *)
Record Request : Type := mkRequest {
  x_forwarded_for : option string;
  x_real_ip : option string;
  x_agent_id : option string;
  x_local_version : option string;
  user_agent : option string;
  connection_remoteAddress : option string;
  socket_remoteAddress : option string
}.

(** White space removed by [String.prototype.trim].  A text is a sequence
    of code units below 256, which is what Node delivers for a header
    value (it decodes headers as Latin-1).  Among those code units the
    white space and line terminators of ECMAScript are: space, tab, line
    feed, vertical tab, form feed, carriage return and the no-break space
    U+00A0. *)
Definition isWhiteSpace (c : ascii) : bool :=
  let n := nat_of_ascii c in
  (Nat.eqb n 32 || Nat.eqb n 9 || Nat.eqb n 10 || Nat.eqb n 11
   || Nat.eqb n 12 || Nat.eqb n 13 || Nat.eqb n 160)%bool.

Fixpoint trimStart (s : string) : string :=
  match s with
  | String c s' => if isWhiteSpace c then trimStart s' else s
  | EmptyString => EmptyString
  end.

Fixpoint trimEnd (s : string) : string :=
  match s with
  | String c s' =>
      match trimEnd s' with
      | EmptyString => if isWhiteSpace c then EmptyString else String c EmptyString
      | r => String c r
      end
  | EmptyString => EmptyString
  end.

Definition trim (s : string) : string := trimEnd (trimStart s).

(** [s.split(sep)[0]]: the text before the first [sep]. *)
Fixpoint splitFirst (sep : ascii) (s : string) : string :=
  match s with
  | String c s' => if Ascii.eqb c sep then EmptyString else String c (splitFirst sep s')
  | EmptyString => EmptyString
  end.

(** The value a truthiness test lets through: [undefined] and the empty
    string are both falsy. *)
Definition asTruthy (v : option string) : option string :=
  if truthy v then v else None.

Definition getClientIP (req : Request) : string :=
  match asTruthy (x_forwarded_for req) with
  | Some forwarded => trim (splitFirst "," forwarded)
  | None =>
      match asTruthy (x_real_ip req) with
      | Some realIP => realIP
      | None =>
          or_else (or_opt (connection_remoteAddress req) (socket_remoteAddress req))
                  "unknown"
      end
  end.

(** [req.headers['x-agent-id'] || ip] *)
Definition resolveAgentId (req : Request) : string :=
  or_else (x_agent_id req) (getClientIP req).

(** ** Fleet registry *)

Record AgentState : Type := mkAgent {
  id : string;
  localVersion : string;
  ip : string;
  lastSeen : DateString;
  requestCount : Z;
  currentVersion : option string;
  lastAction : string;
  userAgent : string
}.

(** [agentStatus]: application name -> (agent id -> state). *)
Definition Registry : Type := JsMap.t (JsMap.t AgentState).

(** The object literal stored for an agent seen for the first time. *)
Definition newAgent (agentId localVersion ip : string) (now : DateString)
    (action userAgent : string) : AgentState :=
  {| id := agentId;
     localVersion := localVersion;
     ip := ip;
     lastSeen := now;
     requestCount := 0;
     currentVersion := None;
     lastAction := action;
     userAgent := userAgent |}.

(** The assignments made to the stored object on every request. *)
Definition touchAgent (req : Request) (clientIp reported : string)
    (now : DateString) (action : string) (version : option string)
    (agent : AgentState) : AgentState :=
  {| id := id agent;
     localVersion :=
       if negb (String.eqb reported "") then reported else localVersion agent;
     ip := if truthy (x_agent_id req) then clientIp else ip agent;
     lastSeen := now;
     requestCount := requestCount agent + 1;
     currentVersion :=
       if truthy version then version else currentVersion agent;
     lastAction := action;
     userAgent := userAgent agent |}.

(** [recordAgentStatus(appName, req, action, version)], with the clock
    reading [nowMs] of [new Date()] and the registry made explicit.
    [requestCount] is a mathematical integer: the double that holds it is
    exact below 2^53 requests. *)
Definition recordAgentStatus (nowMs : Z) (appName : string) (req : Request)
    (action : string) (version : option string) (agentStatus : Registry)
    : Registry :=
  let ip := getClientIP req in
  let userAgent := or_else (user_agent req) "unknown" in
  let agentId := or_else (x_agent_id req) ip in
  let localVersion := or_else (x_local_version req) "" in
  let now := toISOString nowMs in
  let agentStatus :=
    if negb (JsMap.has agentStatus appName)
    then JsMap.set agentStatus appName (JsMap.empty AgentState)
    else agentStatus in
  match JsMap.get agentStatus appName with
  | None => agentStatus
  | Some appAgents =>
      let appAgents :=
        if negb (JsMap.has appAgents agentId)
        then JsMap.set appAgents agentId
               (newAgent agentId localVersion ip now action userAgent)
        else appAgents in
      match JsMap.get appAgents agentId with
      | None => JsMap.set agentStatus appName appAgents
      | Some agent =>
          JsMap.set agentStatus appName
            (JsMap.set appAgents agentId
               (touchAgent req ip localVersion now action version agent))
      end
  end.

(** The inner loop of the sweep: walk the entries of one application's map
    and delete the stale ones from that same map. *)
Definition sweepAgents (oneHourAgo : Z) (appAgents : JsMap.t AgentState)
    : JsMap.t AgentState :=
  fold_left
    (fun (live : JsMap.t AgentState) (entry : string * AgentState) =>
       let (agentId, agent) := entry in
       let lastSeenTime := getTime (lastSeen agent) in
       if js_lt lastSeenTime (Num oneHourAgo)
       then JsMap.delete live agentId
       else live)
    (JsMap.entries appAgents) appAgents.

(** [cleanupInactiveAgents()], with the clock reading [nowMs] of
    [Date.now()] and the registry made explicit.  The inner map is the
    object held by the registry, so what the inner loop deletes is seen
    through the registry. *)
Definition cleanupInactiveAgents (nowMs : Z) (agentStatus : Registry) : Registry :=
  let oneHourAgo := nowMs - 60 * 60 * 1000 in
  fold_left
    (fun (reg : Registry) (entry : string * JsMap.t AgentState) =>
       let (appName, appAgents) := entry in
       let appAgents := sweepAgents oneHourAgo appAgents in
       let reg := JsMap.set reg appName appAgents in
       if JsMap.size appAgents =? 0
       then JsMap.delete reg appName
       else reg)
    (JsMap.entries agentStatus) agentStatus.

(** The agent list served by [/ota/<app>/agents]. *)
Definition listAgents (agentStatus : Registry) (appName : string) : list AgentState :=
  match JsMap.get agentStatus appName with
  | Some appAgents => JsMap.values appAgents
  | None => []
  end.

(** The record stored for one (application, agent) pair, if any. *)
Definition findAgent (agentStatus : Registry) (appName agentId : string)
    : option AgentState :=
  match JsMap.get agentStatus appName with
  | Some appAgents => JsMap.get appAgents agentId
  | None => None
  end.

(** How many records the registry holds for one pair. *)
Definition countAgent (agentStatus : Registry) (appName agentId : string) : nat :=
  match JsMap.get agentStatus appName with
  | Some appAgents => JsMap.count appAgents agentId
  | None => 0%nat
  end.

(** Both levels of the registry are [Map]s. *)
Definition wfRegistry (agentStatus : Registry) : Prop :=
  JsMap.wf agentStatus /\
  forall appName appAgents, In (appName, appAgents) agentStatus -> JsMap.wf appAgents.

(** One call of [recordAgentStatus]. *)
Record Activity : Type := mkActivity {
  act_now : Z;
  act_app : string;
  act_req : Request;
  act_action : string;
  act_version : option string
}.

Definition applyActivity (reg : Registry) (a : Activity) : Registry :=
  recordAgentStatus (act_now a) (act_app a) (act_req a) (act_action a)
    (act_version a) reg.

(** The states the process can be in: the registry starts empty and is only
    changed by request handling and by the periodic sweep. *)
Inductive reachable : Registry -> Prop :=
| reach_init : reachable (JsMap.empty (JsMap.t AgentState))
| reach_record : forall reg a, reachable reg -> reachable (applyActivity reg a)
| reach_cleanup : forall reg nowMs,
    reachable reg -> reachable (cleanupInactiveAgents nowMs reg).

(** ** The sweep on records the server did not write

    [recordAgentStatus] stores in [lastSeen] only texts written by
    [toISOString].  A record written by other hands can hold any value
    there.  The sweep has no [try]: what [new Date(agent.lastSeen)] throws
    leaves [cleanupInactiveAgents] at once, with the deletions made so far
    in place and the rest of the registry as it was. *)


Inductive Thrown : Type :=
| TypeError (message : string).

(** How a statement ends. *)
Inductive Completion : Type :=
| Normal
| Throw (e : Thrown).



Module AnyRecord.
Section Sweep.
Variable A : Type.

(** [new Date(agent.lastSeen).getTime()] *)
Variable lastSeenTime : A -> Thrown + JsNumber.

(** The inner loop of the sweep over the entries still to visit; a throw
    ends it with the map as it is. *)
Fixpoint sweepAgents (oneHourAgo : Z) (entries : list (string * A))
    (appAgents : JsMap.t A) : Completion * JsMap.t A :=
  match entries with
  | [] => (Normal, appAgents)
  | (agentId, agent) :: rest =>
      match lastSeenTime agent with
      | inl e => (Throw e, appAgents)
      | inr t =>
          sweepAgents oneHourAgo rest
            (if js_lt t (Num oneHourAgo)
             then JsMap.delete appAgents agentId
             else appAgents)
      end
  end.

(** The outer loop.  The inner map is the object held by the registry, so
    what the inner loop has deleted before a throw is seen through the
    registry. *)
Fixpoint sweepApps (oneHourAgo : Z) (entries : list (string * JsMap.t A))
    (agentStatus : JsMap.t (JsMap.t A)) : Completion * JsMap.t (JsMap.t A) :=
  match entries with
  | [] => (Normal, agentStatus)
  | (appName, appAgents) :: rest =>
      match sweepAgents oneHourAgo (JsMap.entries appAgents) appAgents with
      | (Throw e, appAgents) => (Throw e, JsMap.set agentStatus appName appAgents)
      | (Normal, appAgents) =>
          let agentStatus := JsMap.set agentStatus appName appAgents in
          sweepApps oneHourAgo rest
            (if JsMap.size appAgents =? 0
             then JsMap.delete agentStatus appName
             else agentStatus)
      end
  end.

(** [cleanupInactiveAgents()]: how it ends, and the registry it leaves. *)
Definition cleanupInactiveAgents (nowMs : Z) (agentStatus : JsMap.t (JsMap.t A))
    : Completion * JsMap.t (JsMap.t A) :=
  let oneHourAgo := nowMs - 60 * 60 * 1000 in
  sweepApps oneHourAgo (JsMap.entries agentStatus) agentStatus.

Definition findAgent (agentStatus : JsMap.t (JsMap.t A)) (appName agentId : string)
    : option A :=
  match JsMap.get agentStatus appName with
  | Some appAgents => JsMap.get appAgents agentId
  | None => None
  end.

(** Both levels of the registry are [Map]s. *)
Definition wfRegistry (agentStatus : JsMap.t (JsMap.t A)) : Prop :=
  JsMap.wf agentStatus /\
  forall appName appAgents, In (appName, appAgents) agentStatus -> JsMap.wf appAgents.
End Sweep.
End AnyRecord.

(** ** Manifest builder *)

(** What the builder reads of its host: two [fs] calls, the digest of
    [crypto], and the two settings taken from the process environment.
    [readFileSync] answers [None] where the call throws. *)
Record Host : Type := mkHost {
  existsSync : string -> bool;
  readFileSync : string -> option string;
  sha256_hex : string -> string;
  BASE_URL : string;
  RESTART_CMD : string
}.

(** File-system calls, in the order they are made. *)
Inductive FsCall : Type :=
| CallExists (path : string)
| CallRead (path : string).

(** What is thrown: [new Error(message)], or the error of a failed read. *)
Inductive Exception : Type :=
| Error (message : string)
| ReadError (path : string).

(** Computations that may throw and that log their file-system calls. *)
Definition Fs (A : Type) : Type := list FsCall -> (Exception + A) * list FsCall.

Definition ret {A : Type} (a : A) : Fs A := fun log => (inr a, log).

Definition throw {A : Type} (e : Exception) : Fs A := fun log => (inl e, log).

Definition bind {A B : Type} (c : Fs A) (k : A -> Fs B) : Fs B :=
  fun log =>
    match c log with
    | (inl e, log') => (inl e, log')
    | (inr a, log') => k a log'
    end.

Notation "x <- c ;; k" := (bind c (fun x => k))
  (at level 61, c at next level, right associativity).

Definition fsExists (h : Host) (path : string) : Fs bool :=
  fun log => (inr (existsSync h path), (log ++ [CallExists path])%list).

Definition fsRead (h : Host) (path : string) : Fs string :=
  fun log =>
    match readFileSync h path with
    | Some content => (inr content, (log ++ [CallRead path])%list)
    | None => (inl (ReadError path), (log ++ [CallRead path])%list)
    end.

(** [calculateSHA256(filePath)]: a failed read is thrown again after a line
    is written to the server log, which is not part of this model. *)
Definition calculateSHA256 (h : Host) (filePath : string) : Fs string :=
  fileBuffer <- fsRead h filePath ;;
  ret (sha256_hex h fileBuffer).

(** The pieces of a path between slashes. *)
Fixpoint splitPath (s : string) : list string :=
  match s with
  | EmptyString => [EmptyString]
  | String c s' =>
      if Ascii.eqb c "/" then EmptyString :: splitPath s'
      else
        match splitPath s' with
        | seg :: segs => String c seg :: segs
        | [] => [String c EmptyString]
        end
  end.

(** [path.basename(p)] on POSIX: the last piece that is not empty. *)
Definition basename (p : string) : string :=
  last (filter (fun seg => negb (String.eqb seg "")) (splitPath p)) "".

(** One element of the [files] argument. *)
Record FileSpec : Type := mkFile {
  f_path : option string;
  f_name : option string;
  f_target : option string;
  f_version : option string;
  f_restart : bool
}.

Record Options : Type := mkOptions {
  baseUrl : option string;
  restartCmd : option string
}.

(** One element of [fileList]. *)
Record ManifestEntry : Type := mkEntry {
  e_name : string;
  e_url : string;
  e_sha256 : string;
  e_target : option string;
  e_version : string;
  e_restart : bool
}.

Record Config : Type := mkConfig {
  c_version : string;
  c_files : list ManifestEntry;
  c_restart_cmd : option string
}.

(** [${v}] inside a template literal. *)
Definition interpolate (v : option string) : string :=
  match v with Some s => s | None => "undefined" end.

Definition nl : string := String (ascii_of_nat 10) EmptyString.
Definition dq : string := String (ascii_of_nat 34) EmptyString.

(** The body of the loop over [files]. *)
Definition buildEntry (h : Host) (base version appName : string) (file : FileSpec)
    : Fs ManifestEntry :=
  match asTruthy (f_path file) with
  | None => throw (Error ("Binary file not found: " ++ or_else (f_path file) "unknown"))
  | Some p =>
      found <- fsExists h p ;;
      if negb found
      then throw (Error ("Binary file not found: " ++ or_else (f_path file) "unknown"))
      else
        sha256 <- calculateSHA256 h p ;;
        let fileName := basename p in
        ret {| e_name := or_else (f_name file) fileName;
               e_url := base ++ "/ota/" ++ appName ++ "/files/" ++ fileName;
               e_sha256 := sha256;
               e_target := f_target file;
               e_version := or_else (f_version file) version;
               e_restart := f_restart file |}
  end.

Fixpoint buildFileList (h : Host) (base version appName : string)
    (files : list FileSpec) : Fs (list ManifestEntry) :=
  match files with
  | [] => ret []
  | file :: rest =>
      entry <- buildEntry h base version appName file ;;
      entries <- buildFileList h base version appName rest ;;
      ret (entry :: entries)
  end.

(** What one round of the rendering loop appends to [yaml]. *)
Definition appendEntry (version : string) (yaml : string) (file : ManifestEntry)
    : string :=
  let yaml :=
    yaml ++ "  - name: " ++ dq ++ e_name file ++ dq ++ nl
         ++ "    url: " ++ dq ++ e_url file ++ dq ++ nl
         ++ "    sha256: " ++ dq ++ e_sha256 file ++ dq ++ nl
         ++ "    target: " ++ dq ++ interpolate (e_target file) ++ dq ++ nl in
  let yaml :=
    if (negb (String.eqb (e_version file) "")
        && negb (String.eqb (e_version file) version))%bool
    then yaml ++ "    version: " ++ dq ++ e_version file ++ dq ++ nl
    else yaml in
  if e_restart file
  then yaml ++ "    restart: true" ++ nl
  else yaml.

(** [generateConfig(files, version, appName, options)].  [files] is a list,
    so the [Array.isArray] guard that opens the function always passes. *)
Definition generateConfig (h : Host) (files : list FileSpec)
    (version appName : string) (options : Options) : Fs (string * Config) :=
  let base := or_else (baseUrl options) (BASE_URL h) in
  let restart :=
    match restartCmd options with
    | Some cmd => cmd
    | None => RESTART_CMD h
    end in
  if (List.length files =? 0)%nat
  then throw (Error "Files array cannot be empty")
  else if String.eqb appName ""
  then throw (Error "App name is required")
  else
    fileList <- buildFileList h base version appName files ;;
    let config :=
      {| c_version := version;
         c_files := fileList;
         c_restart_cmd := asTruthy (Some restart) |} in
    let yaml := "version: " ++ dq ++ c_version config ++ dq ++ nl ++ "files:" ++ nl in
    let yaml := fold_left (appendEntry version) fileList yaml in
    let yaml :=
      match c_restart_cmd config with
      | Some cmd => yaml ++ "restart_cmd: '" ++ cmd ++ "'" ++ nl
      | None => yaml
      end in
    ret (yaml, config).

(** Running a computation from an empty call log. *)
Definition run {A : Type} (c : Fs A) : (Exception + A) * list FsCall := c [].

(** ** Record query filter *)

(** *** Dates

    [new Date(text).getTime()] is the work of the engine's date parser:
    which texts it reads, and as what instant, depends on the engine and on
    the time zone of the host.  The query takes it as the function
    [parseDate], from a text to milliseconds, NaN for an invalid date. *)

(** [Math.floor(x / 1000)] *)
Definition floorSeconds (x : JsNumber) : JsNumber :=
  match x with
  | Num ms => Num (ms / 1000)
  | NaN => NaN
  end.

(** [x + n] for an integer [n] *)
Definition js_add (x : JsNumber) (n : Z) : JsNumber :=
  match x with
  | Num z => Num (z + n)
  | NaN => NaN
  end.

(** *** Rows and the SQL that filters them *)

(** A row of [game_records], with the value SQLite computes for
    [CAST(timestamp AS INTEGER)]; [NULL] columns are [None]. *)
Record GameRecord : Type := mkRecord {
  rec_id : Z;
  rec_timestamp : Z;
  rec_type : option string;
  rec_duration : option Z
}.

(** A bound parameter of the statement. *)
Inductive SqlParam : Type :=
| PNumber (x : JsNumber)
| PText (s : string).

(** One [AND ...] clause appended to the [WHERE]. *)
Inductive Clause : Type :=
| TimestampRange
| TypeEquals
| DurationEquals.

(** [column >= ?] and friends: a NaN is bound as [NULL], and a comparison
    with [NULL] selects nothing. *)
Definition sql_ge (x : Z) (p : JsNumber) : bool :=
  match p with Num z => z <=? x | NaN => false end.

Definition sql_lt (x : Z) (p : JsNumber) : bool :=
  match p with Num z => x <? z | NaN => false end.

Definition sql_eq_num (x : option Z) (p : JsNumber) : bool :=
  match x, p with
  | Some a, Num z => a =? z
  | _, _ => false
  end.

Definition sql_eq_text (x : option string) (p : string) : bool :=
  match x with
  | Some a => String.eqb a p
  | None => false
  end.

(** The query assembled by [queryGameRecords]: its clauses and its
    parameters, in the order they are pushed. *)
Definition buildQuery (parseDate parseInt : string -> JsNumber)
    (date type duration : option string) : list Clause * list SqlParam :=
  let q : list Clause * list SqlParam := ([], []) in
  let q :=
    match asTruthy date with
    | Some d =>
        let startTimestamp := floorSeconds (parseDate (d ++ "T00:00:00")) in
        let endTimestamp := js_add startTimestamp 86400 in
        ((fst q ++ [TimestampRange])%list,
         (snd q ++ [PNumber startTimestamp; PNumber endTimestamp])%list)
    | None => q
    end in
  let q :=
    match asTruthy type with
    | Some t => ((fst q ++ [TypeEquals])%list, (snd q ++ [PText t])%list)
    | None => q
    end in
  match asTruthy duration with
  | Some d =>
      ((fst q ++ [DurationEquals])%list, (snd q ++ [PNumber (parseInt d)])%list)
  | None => q
  end.

(** Whether a row satisfies the clauses, each taking its parameters from
    the front of the list. *)
Fixpoint rowMatches (clauses : list Clause) (params : list SqlParam)
    (row : GameRecord) : bool :=
  match clauses, params with
  | [], _ => true
  | TimestampRange :: cs, PNumber lo :: PNumber hi :: ps =>
      (sql_ge (rec_timestamp row) lo && sql_lt (rec_timestamp row) hi
       && rowMatches cs ps row)%bool
  | TypeEquals :: cs, PText t :: ps =>
      (sql_eq_text (rec_type row) t && rowMatches cs ps row)%bool
  | DurationEquals :: cs, PNumber d :: ps =>
      (sql_eq_num (rec_duration row) d && rowMatches cs ps row)%bool
  | _, _ => false
  end.

(** [ORDER BY CAST(timestamp AS INTEGER) DESC] *)
Fixpoint insertDesc (row : GameRecord) (sorted : list GameRecord) : list GameRecord :=
  match sorted with
  | [] => [row]
  | r :: rest =>
      if rec_timestamp r <? rec_timestamp row
      then row :: sorted
      else r :: insertDesc row rest
  end.

Definition orderDesc (rows : list GameRecord) : list GameRecord :=
  fold_right insertDesc [] rows.

(** [queryGameRecords(date, type, duration)] over the stored rows, when the
    database answers.  The three arguments are query-string values, so the
    guard on [duration] (not null, not undefined, not empty) is the
    truthiness test applied to the other two. *)
Definition queryGameRecords (parseDate parseInt : string -> JsNumber)
    (table : list GameRecord) (date type duration : option string)
    : list GameRecord :=
  let (clauses, params) := buildQuery parseDate parseInt date type duration in
  orderDesc (filter (rowMatches clauses params) table).

(** ** Vocabulary of the properties *)

(** The inactivity window of the sweep, in milliseconds. *)
Definition INACTIVITY_WINDOW : Z := 60 * 60 * 1000.

(** The test the sweep applies to one record. *)
Definition isStale (oneHourAgo : Z) (agent : AgentState) : bool :=
  js_lt (getTime (lastSeen agent)) (Num oneHourAgo).

(** What a sweep leaves of one application's map, and of the registry. *)
Definition liveAgents (oneHourAgo : Z) (appAgents : JsMap.t AgentState)
    : JsMap.t AgentState :=
  filter (fun e => negb (isStale oneHourAgo (snd e))) appAgents.

Definition sweptRegistry (oneHourAgo : Z) (agentStatus : Registry) : Registry :=
  filter (fun e => negb (JsMap.size (snd e) =? 0))
    (map (fun e => (fst e, sweepAgents oneHourAgo (snd e))) agentStatus).

(** Every record is stored under its own [id]. *)
Definition idMatchesKey (agentStatus : Registry) : Prop :=
  forall appName appAgents agentId agent,
    In (appName, appAgents) agentStatus -> In (agentId, agent) appAgents ->
    id agent = agentId.

(** A call that lands on the record of one (application, agent) pair. *)
Definition targets (appName agentId : string) (a : Activity) : Prop :=
  act_app a = appName /\ resolveAgentId (act_req a) = agentId.

(** The registry after a sequence of calls. *)
Definition runActivities (reg : Registry) (calls : list Activity) : Registry :=
  fold_left applyActivity calls reg.

(** ** Sample requests and registries *)

(** An agent that names itself, and one known only by its peer address. *)
Definition namedRequest : Request :=
  {| x_forwarded_for := None;
     x_real_ip := None;
     x_agent_id := Some "agent-1";
     x_local_version := Some "1.9.0";
     user_agent := Some "ota-agent/1.0";
     connection_remoteAddress := Some "10.0.0.1";
     socket_remoteAddress := Some "10.0.0.1" |}.

Definition anonymousRequest : Request :=
  {| x_forwarded_for := None;
     x_real_ip := None;
     x_agent_id := None;
     x_local_version := None;
     user_agent := None;
     connection_remoteAddress := Some "10.0.0.2";
     socket_remoteAddress := Some "10.0.0.2" |}.

(** At clock reading 10 000 000 ms, [agent-1] was last seen two hours ago
    and [10.0.0.2] half an hour ago. *)
Definition sampleNow : Z := 10000000.

Definition sampleRegistry : Registry :=
  recordAgentStatus (sampleNow - 1800000) "robo" anonymousRequest "file_download" None
    (recordAgentStatus (sampleNow - 7200000) "robo" namedRequest "config_check"
       (Some "2.0.0") (JsMap.empty (JsMap.t AgentState))).

Definition sampleCalls : list Activity :=
  [ mkActivity 100 "robo" namedRequest "config_check" (Some "2.0.0");
    mkActivity 100 "robo" namedRequest "file_download" None;
    mkActivity 250 "robo" namedRequest "config_check" (Some "2.0.1") ].

(** ** Vocabulary of the sweep over records the server did not write *)










(** ** The identity rules as worded, with "present" read as "sent" *)

(** The address rule that falls through on absent headers only. *)
Definition addressWhenPresent (req : Request) : string :=
  match x_forwarded_for req with
  | Some forwarded => trim (splitFirst "," forwarded)
  | None =>
      match x_real_ip req with
      | Some realIP => realIP
      | None =>
          match connection_remoteAddress req, socket_remoteAddress req with
          | Some peer, _ => peer
          | None, Some peer => peer
          | None, None => "unknown"
          end
      end
  end.

(** The identifier rule that falls back on an absent header only. *)
Definition identityWhenPresent (req : Request) : string :=
  match x_agent_id req with
  | Some agentId => agentId
  | None => addressWhenPresent req
  end.

(** A request behind a proxy that sends the forwarding header empty. *)
Definition emptyForwardedRequest : Request :=
  {| x_forwarded_for := Some "";
     x_real_ip := Some "203.0.113.7";
     x_agent_id := None;
     x_local_version := None;
     user_agent := None;
     connection_remoteAddress := Some "10.0.0.1";
     socket_remoteAddress := Some "10.0.0.1" |}.

Definition proxiedRequest : Request :=
  {| x_forwarded_for := Some " 198.51.100.4 , 10.0.0.1";
     x_real_ip := Some "203.0.113.7";
     x_agent_id := Some "agent-1";
     x_local_version := None;
     user_agent := None;
     connection_remoteAddress := Some "10.0.0.1";
     socket_remoteAddress := Some "10.0.0.1" |}.

(** A header that was sent and is not empty. *)
Definition sent (header : option string) (value : string) : Prop :=
  header = Some value /\ value <> "".

(** A header that was not sent, or was sent empty. *)
Definition unsent (header : option string) : Prop :=
  header = None \/ header = Some "".

(** A second agent-identified request, from another address. *)
Definition movedRequest : Request :=
  {| x_forwarded_for := None;
     x_real_ip := None;
     x_agent_id := Some "agent-1";
     x_local_version := None;
     user_agent := None;
     connection_remoteAddress := Some "10.0.0.5";
     socket_remoteAddress := Some "10.0.0.5" |}.

(** ** Vocabulary of the manifest properties *)

(** A file the builder can take: it has a path, the path exists, and its
    content can be read. *)
Definition available (h : Host) (file : FileSpec) : Prop :=
  exists p content,
    sent (f_path file) p /\ existsSync h p = true /\ readFileSync h p = Some content.

(** The file-system calls made for a file that is taken. *)
Definition callsFor (file : FileSpec) : list FsCall :=
  match f_path file with
  | Some p => [CallExists p; CallRead p]
  | None => []
  end.

(** The effective version of a file: its own when it has one, else the
    manifest's. *)
Definition effectiveVersion (version : string) (file : FileSpec) : string :=
  match f_version file with
  | Some v => if String.eqb v "" then version else v
  | None => version
  end.

(** The pieces of the rendered text. *)
Definition manifestHeader (version : string) : string :=
  "version: " ++ dq ++ version ++ dq ++ nl ++ "files:" ++ nl.

Definition fileLines (e : ManifestEntry) : string :=
  "  - name: " ++ dq ++ e_name e ++ dq ++ nl
  ++ "    url: " ++ dq ++ e_url e ++ dq ++ nl
  ++ "    sha256: " ++ dq ++ e_sha256 e ++ dq ++ nl
  ++ "    target: " ++ dq ++ interpolate (e_target e) ++ dq ++ nl.

Definition versionLine (v : string) : string :=
  "    version: " ++ dq ++ v ++ dq ++ nl.

Definition restartLine : string := "    restart: true" ++ nl.

(** The pieces emitted for one file, with the version line written when
    the file's version differs from the manifest's. *)
Definition entryLines (version : string) (e : ManifestEntry) : list string :=
  ([fileLines e]
   ++ (if String.eqb (e_version e) version then [] else [versionLine (e_version e)])
   ++ (if e_restart e then [restartLine] else []))%list.

Definition trailerLines (config : Config) : list string :=
  match c_restart_cmd config with
  | Some cmd => ["restart_cmd: '" ++ cmd ++ "'" ++ nl]
  | None => []
  end.

Definition concatAll (pieces : list string) : string :=
  fold_right append EmptyString pieces.

(** A host with one binary on disk. *)
Definition sampleHost : Host :=
  {| existsSync := fun p => String.eqb p "/srv/apps/robo/files/robo.bin";
     readFileSync := fun p =>
       if String.eqb p "/srv/apps/robo/files/robo.bin" then Some "0123456789" else None;
     sha256_hex := fun content => "sha256(" ++ content ++ ")";
     BASE_URL := "http://localhost:3000";
     RESTART_CMD := "" |}.

Definition roboBinary : FileSpec :=
  {| f_path := Some "/srv/apps/robo/files/robo.bin";
     f_name := None;
     f_target := Some "/usr/local/bin/robo";
     f_version := Some "2.0.1";
     f_restart := true |}.

Definition missingBinary : FileSpec :=
  {| f_path := Some "/srv/apps/robo/files/arm.bin";
     f_name := None;
     f_target := Some "/usr/local/bin/arm";
     f_version := None;
     f_restart := false |}.

Definition noOptions : Options := {| baseUrl := None; restartCmd := None |}.

Definition plainBinary : FileSpec :=
  {| f_path := Some "/srv/apps/robo/files/robo.bin";
     f_name := Some "robo-tools";
     f_target := Some "/usr/local/bin/robo-tools";
     f_version := None;
     f_restart := false |}.

(** ** Vocabulary of the query properties *)

(** Local midnight of a calendar date, in epoch seconds, as the engine's
    date parser gives it. *)
Definition startOfDayLocal (parseDate : string -> JsNumber) (date : string) : JsNumber :=
  floorSeconds (parseDate (date ++ "T00:00:00")).

(** *** A date parser for the sample hosts

    The date-time form [YYYY-MM-DDTHH:mm:ss] carries no offset, and
    ECMAScript reads it as local time.  The host's time zone is the
    function giving, for a wall-clock reading in seconds, the offset from
    UTC in force (seconds east of UTC). *)
Definition TimeZone : Type := Z -> Z.

Definition digitValue (c : ascii) : option Z :=
  let n := Z.of_nat (nat_of_ascii c) in
  if ((48 <=? n) && (n <=? 57))%bool then Some (n - 48) else None.

Fixpoint digitsFrom (acc : Z) (s : string) : option Z :=
  match s with
  | EmptyString => Some acc
  | String c s' =>
      match digitValue c with
      | Some d => digitsFrom (10 * acc + d) s'
      | None => None
      end
  end.

(** An unsigned decimal field of the string: [len] digits from [start]. *)
Definition field (s : string) (start len : nat) : option Z :=
  let part := substring start len s in
  if (String.length part =? len)%nat then digitsFrom 0 part else None.

Definition charAt (s : string) (i : nat) (c : ascii) : bool :=
  match String.get i s with
  | Some c' => Ascii.eqb c c'
  | None => false
  end.

(** Days from 1970-01-01 to the given civil date (proleptic Gregorian). *)
Definition daysFromCivil (y m d : Z) : Z :=
  let y' := if m <=? 2 then y - 1 else y in
  let era := y' / 400 in
  let yoe := y' - era * 400 in
  let doy := (153 * (if m <=? 2 then m + 9 else m - 3) + 2) / 5 + d - 1 in
  let doe := yoe * 365 + yoe / 4 - yoe / 100 + doy in
  era * 146097 + doe - 719468.

Definition inRange (lo x hi : Z) : bool := ((lo <=? x) && (x <=? hi))%bool.

(** [new Date(text).getTime()] on a host in time zone [tz], for a text of
    that form.  Engines read other texts too, each in its own way; the
    samples use none, and they are given NaN here. *)
Definition dateGetTime (tz : TimeZone) (text : string) : JsNumber :=
  if ((String.length text =? 19)%nat
      && charAt text 4 "-" && charAt text 7 "-" && charAt text 10 "T"
      && charAt text 13 ":" && charAt text 16 ":")%bool
  then
    match field text 0 4, field text 5 2, field text 8 2,
          field text 11 2, field text 14 2, field text 17 2 with
    | Some y, Some mo, Some d, Some hh, Some mi, Some ss =>
        if (inRange 1 mo 12 && inRange 1 d 31 && inRange 0 hh 23
            && inRange 0 mi 59 && inRange 0 ss 59)%bool
        then
          let wall := daysFromCivil y mo d * 86400 + hh * 3600 + mi * 60 + ss in
          Num ((wall - tz wall) * 1000)
        else NaN
    | _, _, _, _, _, _ => NaN
    end
  else NaN.


(** A host on UTC, and a host on US Eastern time around the start of
    daylight saving time on 2024-03-10: five hours behind UTC until 02:00
    on the wall clock of that day, four hours behind from then on. *)
Definition utc : TimeZone := fun _ => 0.

Definition usEastern2024 : TimeZone :=
  fun wall => if wall <? 1710036000 then -18000 else -14400.

(** [parseInt] on a plain run of digits. *)
Definition parseDigits (s : string) : JsNumber :=
  match s with
  | EmptyString => NaN
  | _ => match digitsFrom 0 s with Some z => Num z | None => NaN end
  end.

(** A row stamped at local midnight of 2024-03-11 on the US Eastern host. *)
Definition midnightRow : GameRecord :=
  {| rec_id := 1; rec_timestamp := 1710129600;
     rec_type := Some "arcade"; rec_duration := Some 90 |}.

(** Rows stamped at UTC midnight of 2024-03-10 and of 2024-03-11. *)
Definition utcTable : list GameRecord :=
  [ {| rec_id := 1; rec_timestamp := 1710028800;
       rec_type := Some "arcade"; rec_duration := Some 90 |};
    {| rec_id := 2; rec_timestamp := 1710115200;
       rec_type := Some "arcade"; rec_duration := Some 30 |} ].

(** ** Further vocabulary of the registry properties *)

(** What every stored record looks like: it has been counted at least
    once, its [lastSeen] was written by [toISOString], and its
    [currentVersion] is null or a non-empty text. *)
Definition recordSound (agent : AgentState) : Prop :=
  1 <= requestCount agent
  /\ (exists t, lastSeen agent = toISOString t)
  /\ currentVersion agent <> Some "".

(** The registry with the stale records filtered out of every application
    and the applications left empty dropped. *)
Definition liveRegistry (oneHourAgo : Z) (agentStatus : Registry) : Registry :=
  filter (fun e => match snd e with [] => false | _ :: _ => true end)
    (map (fun e => (fst e, liveAgents oneHourAgo (snd e))) agentStatus).

(** The agent identifiers of an application, in listing order. *)
Definition agentIds (agentStatus : Registry) (appName : string) : list string :=
  match JsMap.get agentStatus appName with
  | Some appAgents => JsMap.keys appAgents
  | None => []
  end.

(** ** Further vocabulary of the manifest properties *)

(** The path of a file of the [files] argument, empty when it has none. *)
Definition pathOf (file : FileSpec) : string :=
  match f_path file with Some p => p | None => "" end.

(** The entry a file yields once it has been checked and read. *)
Definition entryFor (h : Host) (base version appName : string) (file : FileSpec)
    : ManifestEntry :=
  {| e_name := or_else (f_name file) (basename (pathOf file));
     e_url := base ++ "/ota/" ++ appName ++ "/files/" ++ basename (pathOf file);
     e_sha256 :=
       match readFileSync h (pathOf file) with
       | Some content => sha256_hex h content
       | None => ""
       end;
     e_target := f_target file;
     e_version := effectiveVersion version file;
     e_restart := f_restart file |}.

(** A file that exists but cannot be read (a directory, say). *)
Definition unreadable (h : Host) (file : FileSpec) (p : string) : Prop :=
  sent (f_path file) p /\ existsSync h p = true /\ readFileSync h p = None.

(** A host whose applications directory holds a sub-directory next to the
    binary. *)
Definition hostWithDirectory : Host :=
  {| existsSync := fun p =>
       (String.eqb p "/srv/apps/robo/files/robo.bin"
        || String.eqb p "/srv/apps/robo/files/old")%bool;
     readFileSync := fun p =>
       if String.eqb p "/srv/apps/robo/files/robo.bin" then Some "0123456789" else None;
     sha256_hex := fun content => "sha256(" ++ content ++ ")";
     BASE_URL := "http://localhost:3000";
     RESTART_CMD := "systemctl restart robo" |}.

Definition directoryEntry : FileSpec :=
  {| f_path := Some "/srv/apps/robo/files/old";
     f_name := None;
     f_target := Some "/usr/local/bin/old";
     f_version := None;
     f_restart := false |}.

Definition quietOptions : Options := {| baseUrl := Some ""; restartCmd := Some "" |}.

(** ** Further vocabulary of the identity and path properties *)

(** Whether a character occurs in a text. *)
Fixpoint occurs (c : ascii) (s : string) : bool :=
  match s with
  | EmptyString => false
  | String c' s' => (Ascii.eqb c c' || occurs c s')%bool
  end.

Definition firstChar (s : string) : option ascii :=
  match s with
  | EmptyString => None
  | String c _ => Some c
  end.

Fixpoint lastChar (s : string) : option ascii :=
  match s with
  | EmptyString => None
  | String c EmptyString => Some c
  | String _ s' => lastChar s'
  end.

(** A text of white space only. *)
Fixpoint blank (s : string) : bool :=
  match s with
  | EmptyString => true
  | String c s' => (isWhiteSpace c && blank s')%bool
  end.

(** Neither the first nor the last character is white space. *)
Definition trimmed (s : string) : Prop :=
  (forall c, firstChar s = Some c -> isWhiteSpace c = false)
  /\ (forall c, lastChar s = Some c -> isWhiteSpace c = false).

(** A forwarding header whose first entry is padded with no-break spaces. *)
Definition nbsp : string := String (ascii_of_nat 160) EmptyString.

Definition paddedRequest : Request :=
  {| x_forwarded_for := Some (nbsp ++ "1.2.3.4" ++ nbsp ++ ", 10.0.0.1");
     x_real_ip := None;
     x_agent_id := None;
     x_local_version := None;
     user_agent := None;
     connection_remoteAddress := Some "10.0.0.1";
     socket_remoteAddress := Some "10.0.0.1" |}.

(** ** Further vocabulary of the query properties *)

(** The three filters, each on its own. *)
Definition dateAdmits (parseDate : string -> JsNumber) (date : option string)
    (r : GameRecord) : Prop :=
  unsent date
  \/ exists d start,
       sent date d /\ startOfDayLocal parseDate d = Num start
       /\ start <= rec_timestamp r < start + 86400.

Definition typeAdmits (type : option string) (r : GameRecord) : Prop :=
  unsent type \/ exists t, sent type t /\ rec_type r = Some t.

Definition durationAdmits (parseInt : string -> JsNumber) (duration : option string)
    (r : GameRecord) : Prop :=
  unsent duration
  \/ exists d n, sent duration d /\ parseInt d = Num n /\ rec_duration r = Some n.

(** Newest first. *)
Definition newestFirst (rows : list GameRecord) : Prop :=
  StronglySorted (fun a b => rec_timestamp b <= rec_timestamp a) rows.

Definition arcadeTable : list GameRecord :=
  [ {| rec_id := 1; rec_timestamp := 1710028800;
       rec_type := Some "arcade"; rec_duration := Some 90 |};
    {| rec_id := 2; rec_timestamp := 1710030000;
       rec_type := None; rec_duration := Some 90 |};
    {| rec_id := 3; rec_timestamp := 1710040000;
       rec_type := Some "arcade"; rec_duration := None |};
    {| rec_id := 4; rec_timestamp := 1710050000;
       rec_type := Some "arcade"; rec_duration := Some 90 |};
    {| rec_id := 5; rec_timestamp := 1710115200;
       rec_type := Some "arcade"; rec_duration := Some 90 |} ].

(** ** Regular expressions of the server

    The patterns the server matches texts against are sequences of
    character classes, each taken once, optionally, or repeated greedily,
    some of them captured.  [matchItems] is the backtracking matcher for
    such a sequence at the start of a text: a repeated class first takes
    as many characters as it can and gives them back one by one while the
    rest of the pattern fails.  Texts are sequences of code units below
    256, as everywhere in this development: a class is the part of the
    class of the source below 256, and a line starts at the start of the
    text, after a line feed and after a carriage return. *)

Inductive Quant : Type :=
| Once
| Optional
| ZeroOrMore
| OneOrMore.

Record Item : Type := mkItem {
  itemClass : ascii -> bool;
  itemQuant : Quant;
  itemGroup : option nat
}.

Definition Captures : Type := list (nat * string).

(** How many characters at the start of the text are in the class. *)
Fixpoint span (cls : ascii -> bool) (s : string) : nat :=
  match s with
  | String c s' => if cls c then S (span cls s') else O
  | EmptyString => O
  end.

Fixpoint takeChars (n : nat) (s : string) : string :=
  match n, s with
  | S n', String c s' => String c (takeChars n' s')
  | _, _ => EmptyString
  end.

Fixpoint dropChars (n : nat) (s : string) : string :=
  match n, s with
  | S n', String _ s' => dropChars n' s'
  | _, _ => s
  end.

(** The fewest and the most characters an item may take when [n] are
    available. *)
Definition bounds (q : Quant) (n : nat) : nat * nat :=
  match q with
  | Once => (1, Nat.min 1 n)
  | Optional => (0, Nat.min 1 n)
  | ZeroOrMore => (0, n)
  | OneOrMore => (1, n)
  end%nat.

(** Try [k] characters, then [k - 1], down to [lo]. *)
Fixpoint backtrack {R : Type} (k lo : nat) (attempt : nat -> option R) : option R :=
  match attempt k with
  | Some r => Some r
  | None =>
      match k with
      | O => None
      | S k' => if (lo <=? k')%nat then backtrack k' lo attempt else None
      end
  end.

Definition capture (group : option nat) (text : string) (caps : Captures) : Captures :=
  match group with
  | Some g => (caps ++ [(g, text)])%list
  | None => caps
  end.

(** Match the items at the start of [s]; [atEnd] is the anchor [$].  The
    answer is the captures and the text left after the match. *)
Fixpoint matchItems (atEnd : bool) (items : list Item) (s : string) (caps : Captures)
    : option (Captures * string) :=
  match items with
  | [] =>
      if atEnd
      then match s with EmptyString => Some (caps, s) | String _ _ => None end
      else Some (caps, s)
  | it :: rest =>
      let (lo, hi) := bounds (itemQuant it) (span (itemClass it) s) in
      if (hi <? lo)%nat then None
      else
        backtrack hi lo
          (fun k =>
             matchItems atEnd rest (dropChars k s)
               (capture (itemGroup it) (takeChars k s) caps))
  end.

Fixpoint group (g : nat) (caps : Captures) : option string :=
  match caps with
  | [] => None
  | (g', text) :: caps' => if Nat.eqb g g' then Some text else group g caps'
  end.

(** The items of a literal text. *)
Fixpoint literal (s : string) : list Item :=
  match s with
  | EmptyString => []
  | String c s' => mkItem (Ascii.eqb c) Once None :: literal s'
  end.

Definition isQuote (c : ascii) : bool :=
  (Ascii.eqb c (ascii_of_nat 34) || Ascii.eqb c "'")%bool.

Definition isLineBreak (c : ascii) : bool :=
  (Ascii.eqb c (ascii_of_nat 10) || Ascii.eqb c (ascii_of_nat 13))%bool.

(** [\w] *)
Definition isWordChar (c : ascii) : bool :=
  let n := nat_of_ascii c in
  ((48 <=? n) && (n <=? 57) || (65 <=? n) && (n <=? 90)
   || (97 <=? n) && (n <=? 122) || (n =? 95))%bool%nat.

(** The pattern the [version.yaml] route reads a version with, without its
    anchor: the text [version:], any white space, an optional quote (single
    or double), one or more characters that are neither a quote nor a line
    feed (group 1), an optional quote. *)
Definition versionPattern : list Item :=
  (literal "version:"
   ++ [ mkItem isWhiteSpace ZeroOrMore None;
        mkItem isQuote Optional None;
        mkItem (fun c => negb (isQuote c || Ascii.eqb c (ascii_of_nat 10))) OneOrMore (Some 1%nat);
        mkItem isQuote Optional None ])%list.

(** [content.match(..)] with that pattern under the flag [m]: the first
    match at the start of the text or after a line break; group 1 of it. *)
Fixpoint searchVersion (atLineStart : bool) (content : string) : option string :=
  match
    (if atLineStart then matchItems false versionPattern content [] else None)
  with
  | Some (caps, _) => group 1 caps
  | None =>
      match content with
      | EmptyString => None
      | String c rest => searchVersion (isLineBreak c) rest
      end
  end.

Definition extractVersion (content : string) : option string :=
  searchVersion true content.

(** Every character of a text is in a class. *)
Fixpoint allChars (cls : ascii -> bool) (s : string) : bool :=
  match s with
  | EmptyString => true
  | String c s' => (cls c && allChars cls s')%bool
  end.

(** A version text the pattern reads back whole: not empty, and free of
    quotes and line feeds. *)
Definition plainVersion (version : string) : Prop :=
  version <> ""
  /\ allChars (fun c => negb (isQuote c || Ascii.eqb c (ascii_of_nat 10))) version = true.

(** ** The two agent-facing routes *)

(** Where the files of an application are, and what [fs.statSync] says of
    a binary: [getAppConfigFile(appName)], [path.join(getAppBinaryDir(
    appName), fileName)], and the size of a file ([None] where the call
    throws).  Paths depend on the [APPS_DIR] setting. *)
Record Site : Type := mkSite {
  host : Host;
  getAppConfigFile : string -> string;
  binaryPath : string -> string -> string;
  statSize : string -> option Z
}.

Inductive Body : Type :=
| Text (content : string)
| FileStream (path : string) (size : Z).

Record Response : Type := mkResponse {
  status : Z;
  body : Body
}.

(** The handler of [GET /ota/<appName>/version.yaml], with the clock
    reading and the registry made explicit. *)
Definition serveConfig (site : Site) (nowMs : Z) (appName : string) (req : Request)
    (agentStatus : Registry) : Response * Registry :=
  let configFile := getAppConfigFile site appName in
  if negb (existsSync (host site) configFile)
  then (mkResponse 404 (Text ("Config file not found for app: " ++ appName)), agentStatus)
  else
    match readFileSync (host site) configFile with
    | None => (mkResponse 500 (Text "Internal Server Error"), agentStatus)
    | Some content =>
        let version := extractVersion content in
        let agentStatus :=
          recordAgentStatus nowMs appName req "config_check" version agentStatus in
        (mkResponse 200 (Text content), agentStatus)
    end.

(** The handler of [GET /ota/<appName>/files/<fileName>]. *)
Definition serveFile (site : Site) (nowMs : Z) (appName fileName : string)
    (req : Request) (agentStatus : Registry) : Response * Registry :=
  let binaryPath := binaryPath site appName fileName in
  if negb (existsSync (host site) binaryPath)
  then (mkResponse 404 (Text ("Binary file not found: " ++ appName ++ "/" ++ fileName)),
        agentStatus)
  else
    let agentStatus :=
      recordAgentStatus nowMs appName req "file_download" None agentStatus in
    match statSize site binaryPath with
    | None => (mkResponse 500 (Text "Internal Server Error"), agentStatus)
    | Some fileSize => (mkResponse 200 (FileStream binaryPath fileSize), agentStatus)
    end.

(** A site that serves, for [robo], the manifest the builder renders for
    [roboBinary] at version 2.0.0. *)
Definition roboManifest : string :=
  match run (generateConfig sampleHost [roboBinary] "2.0.0" "robo" noOptions) with
  | (inr (yaml, _), _) => yaml
  | (inl _, _) => ""
  end.

Definition sampleSite : Site :=
  {| host :=
       {| existsSync := fun p =>
            (String.eqb p "/srv/apps/robo/version.yaml"
             || String.eqb p "/srv/apps/robo/files/robo.bin")%bool;
          readFileSync := fun p =>
            if String.eqb p "/srv/apps/robo/version.yaml" then Some roboManifest
            else if String.eqb p "/srv/apps/robo/files/robo.bin" then Some "0123456789"
            else None;
          sha256_hex := fun content => "sha256(" ++ content ++ ")";
          BASE_URL := "http://localhost:3000";
          RESTART_CMD := "" |};
     getAppConfigFile := fun appName => "/srv/apps/" ++ appName ++ "/version.yaml";
     binaryPath := fun appName fileName => "/srv/apps/" ++ appName ++ "/files/" ++ fileName;
     statSize := fun p =>
       if String.eqb p "/srv/apps/robo/files/robo.bin" then Some 10%Z else None |}.

(** ** The log formatter *)

(** How an argument of a log call is turned into text: [String(a)],
    [JSON.stringify(a)], [Number(a)] as inserted into the message, and
    [typeof a === 'object']. *)
Record Printer (A : Type) : Type := mkPrinter {
  asString : A -> string;
  asJson : A -> string;
  asNumber : A -> string;
  isObject : A -> bool
}.

(** The replacement of one placeholder by one argument. *)
Definition render {A : Type} (P : Printer A) (c : ascii) (a : A) : string :=
  if Ascii.eqb c "j" then asJson P a
  else if Ascii.eqb c "d" then asNumber P a
  else asString P a.

Definition isPlaceholder (c : ascii) : bool :=
  (Ascii.eqb c "s" || Ascii.eqb c "d" || Ascii.eqb c "j")%bool.

(** [message.replace(/%[sdj%]/g, ...)] with the callback of [log]: the
    text after replacement and the arguments not consumed.  A doubled
    percent sign becomes one; a placeholder takes the next argument, and
    stays as written when none is left. *)
Fixpoint formatArgs {A : Type} (P : Printer A) (message : string) (args : list A)
    : string * list A :=
  match message with
  | EmptyString => (EmptyString, args)
  | String x tail =>
      let copy :=
        let (out, left) := formatArgs P tail args in (String x out, left) in
      if Ascii.eqb x "%" then
        match tail with
        | String c rest =>
            if Ascii.eqb c "%" then
              let (out, left) := formatArgs P rest args in (String "%" out, left)
            else if isPlaceholder c then
              match args with
              | [] =>
                  let (out, left) := formatArgs P rest args in
                  (String "%" (String c out), left)
              | a :: args' =>
                  let (out, left) := formatArgs P rest args' in
                  (render P c a ++ out, left)
              end
            else copy
        | EmptyString => copy
        end
      else copy
  end.

(** The text an argument without a placeholder is appended as. *)
Definition appended {A : Type} (P : Printer A) (a : A) : string :=
  if isObject P a then asJson P a else asString P a.

(** [formattedMessage] of [log(level, message, ...args)] *)
Definition formatMessage {A : Type} (P : Printer A) (message : string) (args : list A)
    : string :=
  match args with
  | [] => message
  | _ :: _ =>
      let (out, left) := formatArgs P message args in
      match left with
      | [] => out
      | _ :: _ => out ++ " " ++ String.concat " " (map (appended P) left)
      end
  end.

(** The line appended to the log file, for a clock reading whose ISO text
    is [timestamp]. *)
Definition logMessage {A : Type} (P : Printer A) (timestamp level message : string)
    (args : list A) : string :=
  "[" ++ timestamp ++ "] [" ++ level ++ "] " ++ formatMessage P message args ++ nl.

(** The arguments of a log call appended one after the other, each after a
    space. *)
Definition appendedAll {A : Type} (P : Printer A) (args : list A) : string :=
  concatAll (map (fun a => " " ++ appended P a) args).


(** ** The newest binary of an application *)

(** What [getLatestAppBinary] sees of the binaries directory: whether it
    exists, the names [readdirSync] lists ([None] where it throws), and
    for a name what [statSync] says of it ([None] where it throws): whether
    it is a regular file, and its modification time. *)
Record BinaryDir : Type := mkBinaryDir {
  dirExists : bool;
  dirNames : option (list string);
  dirStat : string -> option (bool * Z)
}.

(** [f.startsWith('.')] *)
Definition isHidden (name : string) : bool :=
  match name with
  | String c _ => Ascii.eqb c "."
  | EmptyString => false
  end.

(** [.map(f => ({ name, path, stat }))]: throws when a [statSync] throws. *)
Fixpoint statAll (dir : BinaryDir) (names : list string)
    : option (list (string * (bool * Z))) :=
  match names with
  | [] => Some []
  | name :: rest =>
      match dirStat dir name with
      | None => None
      | Some st =>
          match statAll dir rest with
          | None => None
          | Some sts => Some ((name, st) :: sts)
          end
      end
  end.

(** [.sort((a, b) => b.mtime - a.mtime)]: newest first, files of one age in
    the order they had. *)
Fixpoint insertNewest (f : string * (bool * Z)) (sorted : list (string * (bool * Z)))
    : list (string * (bool * Z)) :=
  match sorted with
  | [] => [f]
  | g :: rest =>
      if snd (snd f) <? snd (snd g)
      then g :: insertNewest f rest
      else f :: sorted
  end.

Definition sortNewest (l : list (string * (bool * Z))) : list (string * (bool * Z)) :=
  fold_right insertNewest [] l.

(** [getLatestAppBinary(appName)], for the directory of the application and
    the function [path.join(appBinaryDir, f)]. *)
Definition getLatestAppBinary (dir : BinaryDir) (pathIn : string -> string)
    : option string :=
  if negb (dirExists dir) then None
  else
    match dirNames dir with
    | None => None
    | Some names =>
        match statAll dir (filter (fun f => negb (isHidden f)) names) with
        | None => None
        | Some stats =>
            match sortNewest (filter (fun f => fst (snd f)) stats) with
            | f :: _ => Some (pathIn (fst f))
            | [] => None
            end
        end
    end.

(** A visible regular file of the directory, with its modification time. *)
Definition visibleFile (dir : BinaryDir) (name : string) (mtime : Z) : Prop :=
  exists names,
    dirNames dir = Some names
    /\ In name names /\ isHidden name = false /\ dirStat dir name = Some (true, mtime).

Definition sampleDir : BinaryDir :=
  {| dirExists := true;
     dirNames := Some [".keep"; "robo-1.bin"; "old"; "robo-2.bin"];
     dirStat := fun name =>
       if String.eqb name "robo-1.bin" then Some (true, 1000)
       else if String.eqb name "robo-2.bin" then Some (true, 2000)
       else if String.eqb name "old" then Some (false, 3000)
       else if String.eqb name ".keep" then Some (true, 4000)
       else None |}.

(** ** The password gate of the records page *)

(** [process.env.RECORDS_PASSWORD || 'admin123456'] *)
Definition RECORDS_PASSWORD (env : option string) : string :=
  or_else env "admin123456".

(** The test of [/game/auth] on the [password] of the request body, when
    that is a text: [password && password === RECORDS_PASSWORD]. *)
Definition passwordAccepted (env : option string) (password : option string) : bool :=
  match asTruthy password with
  | Some p => String.eqb p (RECORDS_PASSWORD env)
  | None => false
  end.

(** How many placeholders ([%s], [%d], [%j]) the pattern of [log] finds in
    a message, a doubled percent sign being none. *)
Fixpoint placeholderCount (message : string) : nat :=
  match message with
  | EmptyString => O
  | String x tail =>
      if Ascii.eqb x "%" then
        match tail with
        | String c rest =>
            if Ascii.eqb c "%" then placeholderCount rest
            else if isPlaceholder c then S (placeholderCount rest)
            else placeholderCount tail
        | EmptyString => O
        end
      else placeholderCount tail
  end.

(** ** Reading a manifest for the summary of an application *)

(** [s.split(sep)] for a separator of one character. *)
Fixpoint splitOn (sep : ascii) (s : string) : list string :=
  match s with
  | EmptyString => [EmptyString]
  | String c s' =>
      if Ascii.eqb c sep then EmptyString :: splitOn sep s'
      else
        match splitOn sep s' with
        | seg :: segs => String c seg :: segs
        | [] => [String c EmptyString]
        end
  end.

(** The pattern [readAppConfig] matches each line against, between the
    anchors of start and end: one or more word characters (group 1), a
    colon, any white space, an optional quote, one or more characters that
    are not quotes (group 2), an optional quote. *)
Definition linePattern : list Item :=
  [ mkItem isWordChar OneOrMore (Some 1%nat);
    mkItem (Ascii.eqb ":") Once None;
    mkItem isWhiteSpace ZeroOrMore None;
    mkItem isQuote Optional None;
    mkItem (fun c => negb (isQuote c)) OneOrMore (Some 2%nat);
    mkItem isQuote Optional None ].

(** [line.match(..)]: the key and the value of a line that matches. *)
Definition parseLine (line : string) : option (string * string) :=
  match matchItems true linePattern line [] with
  | Some (caps, _) =>
      match group 1 caps, group 2 caps with
      | Some key, Some value => Some (key, value)
      | _, _ => None
      end
  | None => None
  end.

(** [config[key] = value] on a plain object: a text assigned to
    [__proto__] is dropped, any other key is an own property. *)
Definition assign (config : JsMap.t string) (key value : string) : JsMap.t string :=
  if String.eqb key "__proto__" then config else JsMap.set config key value.

Definition parseConfig (content : string) : JsMap.t string :=
  fold_left
    (fun config line =>
       match parseLine line with
       | Some (key, value) => assign config key value
       | None => config
       end)
    (splitOn (ascii_of_nat 10) content) (JsMap.empty string).

(** [readAppConfig(appName)]: null when the manifest is missing or cannot
    be read. *)
Definition readAppConfig (site : Site) (appName : string) : option (JsMap.t string) :=
  let configFile := getAppConfigFile site appName in
  if negb (existsSync (host site) configFile) then None
  else
    match readFileSync (host site) configFile with
    | None => None
    | Some content => Some (parseConfig content)
    end.

(** A text without a line feed. *)
Definition oneLine (s : string) : Prop := occurs (ascii_of_nat 10) s = false.

(** An entry whose rendered fields each stay on their line. *)
Definition entryOneLine (e : ManifestEntry) : Prop :=
  oneLine (e_name e) /\ oneLine (e_url e) /\ oneLine (e_sha256 e)
  /\ oneLine (interpolate (e_target e)) /\ oneLine (e_version e).

(** A field of the rendered manifest on its line: the label, then the
    value between double quotes. *)
Definition fieldLine (label value : string) : string :=
  label ++ dq ++ value ++ dq.

(** The lines of the pieces of a rendered manifest. *)
Definition headerTextLines (version : string) : list string :=
  [fieldLine "version: " version; "files:"].

Definition entryTextLines (version : string) (e : ManifestEntry) : list string :=
  ([ fieldLine "  - name: " (e_name e);
     fieldLine "    url: " (e_url e);
     fieldLine "    sha256: " (e_sha256 e);
     fieldLine "    target: " (interpolate (e_target e)) ]
   ++ (if String.eqb (e_version e) version then []
       else [fieldLine "    version: " (e_version e)])
   ++ (if e_restart e then ["    restart: true"] else []))%list.

Definition trailerTextLines (config : Config) : list string :=
  match c_restart_cmd config with
  | Some cmd => [("restart_cmd: '" ++ cmd ++ "'")%string]
  | None => []
  end.

(** Lines put one after the other, each closed by a line feed. *)
Definition unlines (lines : list string) : string :=
  concatAll (map (fun l => l ++ nl) lines).

(** * Properties *)

(** ** The [Map] operations *)

Module JsMapFacts.
Section Facts.
Variable V : Type.
Implicit Types (m : JsMap.t V) (k : string) (v : V).

Lemma get_none_keys m k : JsMap.get m k = None <-> ~ In k (JsMap.keys m).
Proof.
  induction m as [|[k' v'] m IH]; simpl.
  - tauto.
  - destruct (String.eqb_spec k k') as [->|Hne].
    + split; [discriminate | intros H; exfalso; apply H; now left].
    + rewrite IH. split.
      * intros H [E|I]; [congruence | tauto].
      * intros H I; apply H; now right.
Qed.

Lemma get_in m k v : JsMap.get m k = Some v -> In (k, v) m.
Proof.
  induction m as [|[k' v'] m IH]; simpl; [discriminate|].
  destruct (String.eqb_spec k k') as [->|Hne].
  - intros [= ->]. now left.
  - intros H. right. auto.
Qed.

Lemma in_get m k v : JsMap.wf m -> In (k, v) m -> JsMap.get m k = Some v.
Proof.
  unfold JsMap.wf, JsMap.keys.
  induction m as [|[k' v'] m IH]; simpl; [tauto|].
  intros Hnd [E|I].
  - injection E as -> ->. now rewrite String.eqb_refl.
  - inversion Hnd as [|? ? Hnot Hnd']; subst.
    destruct (String.eqb_spec k k') as [->|Hne].
    + exfalso. apply Hnot. change k' with (fst (k', v)). now apply in_map.
    + auto.
Qed.

Lemma get_set_eq m k v : JsMap.get (JsMap.set m k v) k = Some v.
Proof.
  induction m as [|[k' v'] m IH]; simpl.
  - now rewrite String.eqb_refl.
  - destruct (String.eqb_spec k k') as [->|Hne]; simpl.
    + now rewrite String.eqb_refl.
    + destruct (String.eqb_spec k k'); [contradiction | exact IH].
Qed.

Lemma get_set_ne m k k' v : k <> k' -> JsMap.get (JsMap.set m k v) k' = JsMap.get m k'.
Proof.
  intros Hne.
  induction m as [|[k0 v0] m IH]; simpl.
  - destruct (String.eqb_spec k' k); [congruence | reflexivity].
  - destruct (String.eqb_spec k k0) as [->|Hk]; simpl.
    + destruct (String.eqb_spec k' k0); [congruence | reflexivity].
    + destruct (String.eqb_spec k' k0); [reflexivity | exact IH].
Qed.

Lemma get_delete_eq m k : JsMap.get (JsMap.delete m k) k = None.
Proof.
  apply get_none_keys. unfold JsMap.keys, JsMap.delete.
  intros H. apply in_map_iff in H as [[k' v'] [E H]]. simpl in E. subst k'.
  apply filter_In in H as [_ H]. simpl in H. now rewrite String.eqb_refl in H.
Qed.

Lemma get_delete_ne m k k' : k <> k' -> JsMap.get (JsMap.delete m k) k' = JsMap.get m k'.
Proof.
  intros Hne. unfold JsMap.delete.
  induction m as [|[k0 v0] m IH]; simpl; [reflexivity|].
  destruct (String.eqb_spec k k0) as [->|Hk]; simpl.
  - destruct (String.eqb_spec k' k0); [congruence | exact IH].
  - destruct (String.eqb_spec k' k0); [reflexivity | exact IH].
Qed.

Lemma in_set m k v k' v' :
  In (k', v') (JsMap.set m k v) -> (k', v') = (k, v) \/ In (k', v') m.
Proof.
  induction m as [|[k0 v0] m IH]; simpl.
  - intros [E|[]]. left. now symmetry.
  - destruct (String.eqb_spec k k0) as [->|Hk]; simpl.
    + intros [E|I]; [left; now symmetry | right; now right].
    + intros [E|I]; [right; now left |].
      destruct (IH I) as [E|I']; [now left | right; now right].
Qed.

Lemma keys_set_present m k v :
  In k (JsMap.keys m) -> JsMap.keys (JsMap.set m k v) = JsMap.keys m.
Proof.
  unfold JsMap.keys.
  induction m as [|[k0 v0] m IH]; simpl; [tauto|].
  destruct (String.eqb_spec k k0) as [->|Hk]; simpl; [reflexivity|].
  intros [E|I]; [congruence|]. now rewrite IH.
Qed.

Lemma keys_set_absent m k v :
  ~ In k (JsMap.keys m) -> JsMap.keys (JsMap.set m k v) = (JsMap.keys m ++ [k])%list.
Proof.
  unfold JsMap.keys.
  induction m as [|[k0 v0] m IH]; simpl; [reflexivity|].
  destruct (String.eqb_spec k k0) as [->|Hk]; simpl.
  - intros H. exfalso. apply H. now left.
  - intros H. rewrite IH; [reflexivity | tauto].
Qed.

Lemma wf_set m k v : JsMap.wf m -> JsMap.wf (JsMap.set m k v).
Proof.
  unfold JsMap.wf. intros Hnd.
  destruct (in_dec string_dec k (JsMap.keys m)) as [I|N].
  - now rewrite keys_set_present.
  - rewrite keys_set_absent by assumption.
    apply NoDup_app; [assumption | repeat constructor; simpl; tauto |].
    intros x Hx [E|[]]. subst. contradiction.
Qed.

(** Dropping entries keeps the keys distinct. *)
Lemma wf_filter (keep : string * V -> bool) m : JsMap.wf m -> JsMap.wf (filter keep m).
Proof.
  unfold JsMap.wf, JsMap.keys.
  induction m as [|[k v] m IH]; simpl; intros Hnd; [exact Hnd|].
  apply NoDup_cons_iff in Hnd as [Hfresh Hnd].
  destruct (keep (k, v)); simpl; [|now apply IH].
  apply NoDup_cons_iff. split; [|now apply IH].
  rewrite in_map_iff. intros ([k' v'] & Ek & Hin). simpl in Ek. subst k'.
  apply filter_In in Hin as [Hin _].
  apply Hfresh. apply in_map_iff. now exists (k, v').
Qed.

Lemma wf_delete m k : JsMap.wf m -> JsMap.wf (JsMap.delete m k).
Proof. apply wf_filter. Qed.

Lemma count_zero m k : JsMap.get m k = None -> JsMap.count m k = 0%nat.
Proof.
  unfold JsMap.count.
  induction m as [|[k0 v0] m IH]; simpl; [reflexivity|].
  destruct (String.eqb_spec k k0); [discriminate | exact IH].
Qed.

Lemma count_set m k v :
  (JsMap.count m k <= 1)%nat -> JsMap.count (JsMap.set m k v) k = 1%nat.
Proof.
  unfold JsMap.count.
  induction m as [|[k0 v0] m IH]; simpl.
  - now rewrite String.eqb_refl.
  - destruct (String.eqb_spec k k0) as [->|Hk]; simpl.
    + rewrite String.eqb_refl. simpl. lia.
    + destruct (String.eqb_spec k k0); [contradiction | exact IH].
Qed.

Lemma count_wf m k : JsMap.wf m -> (JsMap.count m k <= 1)%nat.
Proof.
  unfold JsMap.wf, JsMap.keys, JsMap.count.
  induction m as [|[k0 v0] m IH]; simpl; [lia|].
  intros Hnd. inversion Hnd as [|? ? Hnot Hnd']; subst.
  destruct (String.eqb_spec k k0) as [->|Hk]; simpl; [|auto].
  assert (E : filter (fun e : string * V => String.eqb k0 (fst e)) m = []).
  { destruct (filter _ m) as [|[k1 v1] l] eqn:F; [reflexivity|].
    exfalso. apply Hnot.
    assert (I : In (k1, v1) (filter (fun e : string * V => String.eqb k0 (fst e)) m))
      by (rewrite F; now left).
    apply filter_In in I as [I E]. simpl in E. apply String.eqb_eq in E. subst k1.
    change k0 with (fst (k0, v1)). now apply in_map. }
  rewrite E. simpl. lia.
Qed.

(** Membership is decided by the first entry found, which under [wf] is
    the only one; a filter then keeps or drops exactly that entry. *)
Lemma get_filter m k (p : V -> bool) :
  JsMap.wf m ->
  JsMap.get (filter (fun e => p (snd e)) m) k =
  match JsMap.get m k with
  | Some v => if p v then Some v else None
  | None => None
  end.
Proof.
  unfold JsMap.wf, JsMap.keys.
  induction m as [|[k0 v0] m IH]; simpl; [reflexivity|].
  intros Hnd. inversion Hnd as [|? ? Hnot Hnd']; subst.
  destruct (String.eqb_spec k k0) as [->|Hk].
  - destruct (p v0) eqn:P; simpl.
    + now rewrite String.eqb_refl.
    + apply get_none_keys. intros H. apply Hnot.
      unfold JsMap.keys in H. apply in_map_iff in H as [x [E H]].
      apply filter_In in H as [H _]. rewrite <- E. now apply in_map.
  - destruct (p v0); simpl.
    + destruct (String.eqb_spec k k0); [contradiction | auto].
    + auto.
Qed.

(** Writing to, or deleting, the entry under a key that occurs once. *)
Lemma set_middle (pre post : JsMap.t V) k v v' :
  ~ In k (JsMap.keys pre) ->
  JsMap.set (pre ++ (k, v) :: post)%list k v' = (pre ++ (k, v') :: post)%list.
Proof.
  unfold JsMap.keys.
  induction pre as [|[k0 v0] pre IH]; simpl.
  - now rewrite String.eqb_refl.
  - intros H. destruct (String.eqb_spec k k0) as [->|Hk]; [tauto|].
    rewrite IH; [reflexivity | tauto].
Qed.

Lemma delete_absent m k : ~ In k (JsMap.keys m) -> JsMap.delete m k = m.
Proof.
  unfold JsMap.keys, JsMap.delete.
  induction m as [|[k0 v0] m IH]; simpl; [reflexivity|].
  intros H. destruct (String.eqb_spec k k0) as [->|Hk]; [tauto|].
  simpl. rewrite IH; [reflexivity | tauto].
Qed.

Lemma delete_middle (pre post : JsMap.t V) k v :
  ~ In k (JsMap.keys pre) -> ~ In k (JsMap.keys post) ->
  JsMap.delete (pre ++ (k, v) :: post)%list k = (pre ++ post)%list.
Proof.
  intros Hpre Hpost. unfold JsMap.delete.
  rewrite filter_app. simpl. rewrite String.eqb_refl. simpl.
  fold (JsMap.delete pre k). fold (JsMap.delete post k).
  now rewrite !delete_absent.
Qed.

Lemma NoDup_keys_middle (pre post : JsMap.t V) k v :
  NoDup (JsMap.keys (pre ++ (k, v) :: post)%list) ->
  ~ In k (JsMap.keys pre) /\ ~ In k (JsMap.keys post)
  /\ NoDup (JsMap.keys (pre ++ post)%list).
Proof.
  unfold JsMap.keys. rewrite !map_app. simpl. intros H.
  pose proof (NoDup_remove_1 _ _ _ H) as H1.
  pose proof (NoDup_remove_2 _ _ _ H) as H2.
  rewrite in_app_iff in H2. tauto.
Qed.
End Facts.
End JsMapFacts.

(** ** The sweep *)

Lemma sweepAgents_from (oneHourAgo : Z) (rest pre : JsMap.t AgentState) :
  NoDup (JsMap.keys (pre ++ rest)%list) ->
  fold_left
    (fun (live : JsMap.t AgentState) (entry : string * AgentState) =>
       let (agentId, agent) := entry in
       let lastSeenTime := getTime (lastSeen agent) in
       if js_lt lastSeenTime (Num oneHourAgo)
       then JsMap.delete live agentId
       else live)
    rest (pre ++ rest)%list
  = (pre ++ liveAgents oneHourAgo rest)%list.
Proof.
  revert pre. induction rest as [|[k r] rest IH]; intros pre Hnd; simpl.
  - reflexivity.
  - destruct (JsMapFacts.NoDup_keys_middle _ _ _ _ Hnd) as (Hpre & Hpost & Hnd').
    unfold isStale at 1. simpl.
    destruct (js_lt (getTime (lastSeen r)) (Num oneHourAgo)); simpl.
    + rewrite JsMapFacts.delete_middle by assumption. now apply IH.
    + specialize (IH (pre ++ [(k, r)])%list).
      rewrite <- !app_assoc in IH. simpl in IH. now apply IH.
Qed.

Lemma sweepAgents_live (oneHourAgo : Z) (appAgents : JsMap.t AgentState) :
  JsMap.wf appAgents -> sweepAgents oneHourAgo appAgents = liveAgents oneHourAgo appAgents.
Proof.
  intros Hwf. unfold sweepAgents, JsMap.entries.
  exact (sweepAgents_from oneHourAgo appAgents [] Hwf).
Qed.

Lemma cleanup_from (oneHourAgo : Z) (rest pre : Registry) :
  NoDup (JsMap.keys (pre ++ rest)%list) ->
  fold_left
    (fun (reg : Registry) (entry : string * JsMap.t AgentState) =>
       let (appName, appAgents) := entry in
       let appAgents := sweepAgents oneHourAgo appAgents in
       let reg := JsMap.set reg appName appAgents in
       if JsMap.size appAgents =? 0
       then JsMap.delete reg appName
       else reg)
    rest (pre ++ rest)%list
  = (pre ++ sweptRegistry oneHourAgo rest)%list.
Proof.
  revert pre. induction rest as [|[a m] rest IH]; intros pre Hnd; simpl.
  - reflexivity.
  - destruct (JsMapFacts.NoDup_keys_middle _ _ _ _ Hnd) as (Hpre & Hpost & Hnd').
    rewrite JsMapFacts.set_middle by assumption.
    unfold sweptRegistry. simpl.
    destruct (JsMap.size (sweepAgents oneHourAgo m) =? 0); simpl.
    + rewrite JsMapFacts.delete_middle by assumption. now apply IH.
    + specialize (IH (pre ++ [(a, sweepAgents oneHourAgo m)])%list).
      rewrite <- !app_assoc in IH. simpl in IH. apply IH.
      unfold JsMap.keys in *. rewrite !map_app in *. simpl in *. exact Hnd.
Qed.

Lemma cleanup_swept (nowMs : Z) (agentStatus : Registry) :
  JsMap.wf agentStatus ->
  cleanupInactiveAgents nowMs agentStatus
  = sweptRegistry (nowMs - INACTIVITY_WINDOW) agentStatus.
Proof.
  intros Hwf. unfold cleanupInactiveAgents, JsMap.entries.
  exact (cleanup_from (nowMs - 60 * 60 * 1000) agentStatus [] Hwf).
Qed.

Lemma keys_swept (oneHourAgo : Z) (reg : Registry) (a : string) :
  In a (JsMap.keys (sweptRegistry oneHourAgo reg)) -> In a (JsMap.keys reg).
Proof.
  unfold JsMap.keys, sweptRegistry. intros H.
  apply in_map_iff in H as [[a' m'] [E H]]. simpl in E. subst a'.
  apply filter_In in H as [H _].
  apply in_map_iff in H as [[a0 m0] [E H]]. injection E as -> _.
  change a with (fst (a, m0)). now apply in_map.
Qed.

(** The application map found after a sweep. *)
Lemma get_swept (oneHourAgo : Z) (reg : Registry) (a : string) :
  JsMap.wf reg ->
  JsMap.get (sweptRegistry oneHourAgo reg) a =
  match JsMap.get reg a with
  | Some m =>
      if JsMap.size (sweepAgents oneHourAgo m) =? 0 then None
      else Some (sweepAgents oneHourAgo m)
  | None => None
  end.
Proof.
  unfold JsMap.wf.
  induction reg as [|[a0 m0] reg IH]; intros Hnd; [reflexivity|].
  inversion Hnd as [|? ? Hnot Hnd']; subst.
  change (sweptRegistry oneHourAgo ((a0, m0) :: reg))
    with (if negb (JsMap.size (sweepAgents oneHourAgo m0) =? 0)
          then (a0, sweepAgents oneHourAgo m0) :: sweptRegistry oneHourAgo reg
          else sweptRegistry oneHourAgo reg).
  simpl JsMap.get at 2.
  destruct (String.eqb_spec a a0) as [->|Hne].
  - destruct (JsMap.size (sweepAgents oneHourAgo m0) =? 0); simpl.
    + apply JsMapFacts.get_none_keys. intros H. apply Hnot.
      exact (keys_swept _ _ _ H).
    + now rewrite String.eqb_refl.
  - destruct (JsMap.size (sweepAgents oneHourAgo m0) =? 0); simpl.
    + now apply IH.
    + destruct (String.eqb_spec a a0); [contradiction | now apply IH].
Qed.

Lemma size_zero_nil (V : Type) (m : JsMap.t V) : (JsMap.size m =? 0) = true <-> m = [].
Proof.
  unfold JsMap.size. destruct m; simpl; split; intros H;
    try reflexivity; try discriminate.
Qed.

Lemma wfRegistry_inner (reg : Registry) (a : string) (m : JsMap.t AgentState) :
  wfRegistry reg -> JsMap.get reg a = Some m -> JsMap.wf m.
Proof.
  intros [_ Hin] Hget. apply (Hin a). now apply JsMapFacts.get_in.
Qed.

(** The fate of every record in one sweep. *)
Lemma findAgent_cleanup (nowMs : Z) (reg : Registry) (a k : string) :
  wfRegistry reg ->
  findAgent (cleanupInactiveAgents nowMs reg) a k =
  match findAgent reg a k with
  | Some r => if isStale (nowMs - INACTIVITY_WINDOW) r then None else Some r
  | None => None
  end.
Proof.
  intros Hwf. pose proof Hwf as [Hout _].
  rewrite cleanup_swept by assumption.
  unfold findAgent. rewrite get_swept by assumption.
  destruct (JsMap.get reg a) as [m|] eqn:G; [|reflexivity].
  pose proof (wfRegistry_inner _ Hwf G) as Hm.
  rewrite sweepAgents_live by assumption.
  assert (F : JsMap.get (liveAgents (nowMs - INACTIVITY_WINDOW) m) k =
              match JsMap.get m k with
              | Some r => if negb (isStale (nowMs - INACTIVITY_WINDOW) r) then Some r else None
              | None => None
              end)
    by exact (JsMapFacts.get_filter k
                (fun r => negb (isStale (nowMs - INACTIVITY_WINDOW) r)) Hm).
  destruct (JsMap.size (liveAgents (nowMs - INACTIVITY_WINDOW) m) =? 0) eqn:S.
  - apply size_zero_nil in S. rewrite S in F. simpl in F.
    destruct (JsMap.get m k) as [r|]; [|reflexivity].
    destruct (isStale (nowMs - INACTIVITY_WINDOW) r); [reflexivity | discriminate].
  - rewrite F. destruct (JsMap.get m k) as [r|]; [|reflexivity].
    now destruct (isStale (nowMs - INACTIVITY_WINDOW) r).
Qed.

Lemma isStale_lt (oneHourAgo : Z) (r : AgentState) :
  isStale oneHourAgo r = true <->
  exists t, getTime (lastSeen r) = Num t /\ t < oneHourAgo.
Proof.
  unfold isStale. destruct (getTime (lastSeen r)) as [t|]; simpl.
  - rewrite Z.ltb_lt. split.
    + intros H. now exists t.
    + intros (t' & [= <-] & H). exact H.
  - split; [discriminate | intros (t & E & _); discriminate].
Qed.

(** An application whose records are all stale is dropped by the sweep. *)
Lemma get_cleanup_all_stale (nowMs : Z) (reg : Registry) (a : string) :
  wfRegistry reg ->
  (forall k r, findAgent reg a k = Some r ->
               isStale (nowMs - INACTIVITY_WINDOW) r = true) ->
  JsMap.get (cleanupInactiveAgents nowMs reg) a = None.
Proof.
  intros Hwf H. pose proof Hwf as [Hout _].
  rewrite cleanup_swept, get_swept by assumption.
  destruct (JsMap.get reg a) as [m|] eqn:G; [|reflexivity].
  pose proof (wfRegistry_inner _ Hwf G) as Hm.
  rewrite sweepAgents_live by assumption.
  assert (E : liveAgents (nowMs - INACTIVITY_WINDOW) m = []).
  { unfold liveAgents.
    destruct (filter _ m) as [|[k r] l] eqn:F; [reflexivity|]. exfalso.
    assert (I : In (k, r)
                  (filter (fun e => negb (isStale (nowMs - INACTIVITY_WINDOW) (snd e))) m))
      by (rewrite F; now left).
    apply filter_In in I as [I N]. simpl in N.
    rewrite (H k r) in N; [discriminate|].
    unfold findAgent. rewrite G. now apply JsMapFacts.in_get. }
  now rewrite E.
Qed.

Lemma values_filter (V : Type) (p : V -> bool) (m : JsMap.t V) :
  JsMap.values (filter (fun e => p (snd e)) m) = filter p (JsMap.values m).
Proof.
  unfold JsMap.values. induction m as [|[k v] m IH]; simpl; [reflexivity|].
  destruct (p v); simpl; now rewrite IH.
Qed.

(** The agent list of an application after a sweep: the former list without
    its stale records, in the same order. *)
Lemma listAgents_cleanup (nowMs : Z) (reg : Registry) (a : string) :
  wfRegistry reg ->
  listAgents (cleanupInactiveAgents nowMs reg) a
  = filter (fun r => negb (isStale (nowMs - INACTIVITY_WINDOW) r)) (listAgents reg a).
Proof.
  intros Hwf. pose proof Hwf as [Hout _].
  unfold listAgents. rewrite cleanup_swept, get_swept by assumption.
  destruct (JsMap.get reg a) as [m|] eqn:G; [|reflexivity].
  rewrite sweepAgents_live by exact (wfRegistry_inner _ Hwf G).
  unfold liveAgents. rewrite <- values_filter.
  destruct (JsMap.size _ =? 0) eqn:S; [|reflexivity].
  apply size_zero_nil in S. now rewrite S.
Qed.

(** ** Recording a request *)

Section Record.
Variables (nowMs : Z) (appName : string) (req : Request) (action : string)
  (version : option string) (reg : Registry).

Let agentId := resolveAgentId req.
Let fresh :=
  newAgent agentId (or_else (x_local_version req) "") (getClientIP req)
    (toISOString nowMs) action (or_else (user_agent req) "unknown").
Let touch :=
  touchAgent req (getClientIP req) (or_else (x_local_version req) "")
    (toISOString nowMs) action version.

(** The call written as two nested [set]s. *)
Lemma recordAgentStatus_sets :
  recordAgentStatus nowMs appName req action version reg =
  let reg1 :=
    match JsMap.get reg appName with
    | Some _ => reg
    | None => JsMap.set reg appName (JsMap.empty AgentState)
    end in
  let m := match JsMap.get reg appName with Some m => m | None => [] end in
  let m1 := match JsMap.get m agentId with Some _ => m | None => JsMap.set m agentId fresh end in
  let agent := match JsMap.get m agentId with Some r => r | None => fresh end in
  JsMap.set reg1 appName (JsMap.set m1 agentId (touch agent)).
Proof.
  unfold recordAgentStatus, JsMap.has. fold agentId.
  change (or_else (x_agent_id req) (getClientIP req)) with agentId.
  destruct (JsMap.get reg appName) as [m|] eqn:G; simpl.
  - rewrite G. destruct (JsMap.get m agentId) as [r|] eqn:A; simpl.
    + now rewrite A.
    + now rewrite JsMapFacts.get_set_eq.
  - rewrite JsMapFacts.get_set_eq. simpl. now rewrite String.eqb_refl.
Qed.

Lemma findAgent_record_same :
  findAgent (recordAgentStatus nowMs appName req action version reg) appName agentId
  = Some (touch (match findAgent reg appName agentId with
                 | Some r => r
                 | None => fresh
                 end)).
Proof.
  rewrite recordAgentStatus_sets. cbv zeta. unfold findAgent.
  rewrite !JsMapFacts.get_set_eq.
  destruct (JsMap.get reg appName) as [m|]; reflexivity.
Qed.

Lemma findAgent_record_other (a k : string) :
  (a, k) <> (appName, agentId) ->
  findAgent (recordAgentStatus nowMs appName req action version reg) a k
  = findAgent reg a k.
Proof.
  intros Hne. rewrite recordAgentStatus_sets. cbv zeta. unfold findAgent.
  destruct (string_dec appName a) as [<-|Ha].
  - rewrite JsMapFacts.get_set_eq.
    assert (Hk : agentId <> k) by congruence.
    rewrite JsMapFacts.get_set_ne by assumption.
    destruct (JsMap.get reg appName) as [m|]; simpl.
    + destruct (JsMap.get m agentId); [reflexivity|].
      now rewrite JsMapFacts.get_set_ne.
    + destruct (String.eqb_spec k agentId); [congruence | reflexivity].
  - rewrite JsMapFacts.get_set_ne by assumption.
    destruct (JsMap.get reg appName) as [m|]; [reflexivity|].
    now rewrite JsMapFacts.get_set_ne.
Qed.

Lemma countAgent_record :
  (countAgent reg appName agentId <= 1)%nat ->
  countAgent (recordAgentStatus nowMs appName req action version reg) appName agentId
  = 1%nat.
Proof.
  intros Hc. rewrite recordAgentStatus_sets. cbv zeta. unfold countAgent in *.
  rewrite JsMapFacts.get_set_eq.
  apply JsMapFacts.count_set.
  destruct (JsMap.get reg appName) as [m|]; simpl.
  - destruct (JsMap.get m agentId); [assumption|].
    rewrite JsMapFacts.count_set; [lia | assumption].
  - unfold JsMap.count. simpl. rewrite String.eqb_refl. simpl. lia.
Qed.

(** Where the application maps of the new registry come from. *)
Lemma in_record (a : string) (m' : JsMap.t AgentState) :
  In (a, m') (recordAgentStatus nowMs appName req action version reg) ->
  In (a, m') reg \/ m' = []
  \/ exists m, (In (appName, m) reg \/ m = [])
       /\ m' = JsMap.set
                 (match JsMap.get m agentId with
                  | Some _ => m
                  | None => JsMap.set m agentId fresh
                  end)
                 agentId
                 (touch (match JsMap.get m agentId with Some r => r | None => fresh end)).
Proof.
  rewrite recordAgentStatus_sets. cbv zeta. intros H.
  apply JsMapFacts.in_set in H as [E|I].
  - right. right. injection E as -> ->.
    destruct (JsMap.get reg appName) as [m|] eqn:G.
    + exists m. split; [left; now apply JsMapFacts.get_in | reflexivity].
    + exists []. split; [now right | reflexivity].
  - destruct (JsMap.get reg appName) as [m|] eqn:G; [now left|].
    apply JsMapFacts.in_set in I as [E|I]; [|now left].
    right. left. now injection E.
Qed.
End Record.

(** ** Invariants of the registry *)

Lemma in_swept (oneHourAgo : Z) (reg : Registry) (a : string) (m' : JsMap.t AgentState) :
  In (a, m') (sweptRegistry oneHourAgo reg) ->
  exists m, In (a, m) reg /\ m' = sweepAgents oneHourAgo m.
Proof.
  unfold sweptRegistry. intros H. apply filter_In in H as [H _].
  apply in_map_iff in H as [[a0 m0] [E H]]. simpl in E. injection E as -> <-.
  now exists m0.
Qed.

Lemma wf_record (nowMs : Z) (appName : string) (req : Request) (action : string)
    (version : option string) (reg : Registry) :
  wfRegistry reg -> wfRegistry (recordAgentStatus nowMs appName req action version reg).
Proof.
  intros [Hout Hin]. split.
  - rewrite recordAgentStatus_sets. cbv zeta. apply JsMapFacts.wf_set.
    destruct (JsMap.get reg appName); [assumption | now apply JsMapFacts.wf_set].
  - intros a m' H. apply in_record in H as [H|[->|(m & Hm & ->)]].
    + exact (Hin _ _ H).
    + constructor.
    + assert (Wm : JsMap.wf m) by (destruct Hm as [I| ->]; [exact (Hin _ _ I) | constructor]).
      apply JsMapFacts.wf_set.
      destruct (JsMap.get m (resolveAgentId req)); [assumption | now apply JsMapFacts.wf_set].
Qed.

Lemma wf_cleanup (nowMs : Z) (reg : Registry) :
  wfRegistry reg -> wfRegistry (cleanupInactiveAgents nowMs reg).
Proof.
  intros [Hout Hin]. rewrite cleanup_swept by assumption. split.
  - unfold sweptRegistry. apply JsMapFacts.wf_filter.
    unfold JsMap.wf, JsMap.keys. rewrite map_map. simpl. exact Hout.
  - intros a m' H. apply in_swept in H as (m & I & ->).
    rewrite sweepAgents_live by exact (Hin _ _ I).
    apply JsMapFacts.wf_filter. exact (Hin _ _ I).
Qed.

Lemma idKey_record (nowMs : Z) (appName : string) (req : Request) (action : string)
    (version : option string) (reg : Registry) :
  idMatchesKey reg -> idMatchesKey (recordAgentStatus nowMs appName req action version reg).
Proof.
  intros Hid a m' k r Ha Hk.
  apply in_record in Ha as [Ha|[->|(m & Hm & ->)]].
  - exact (Hid _ _ _ _ Ha Hk).
  - destruct Hk.
  - assert (Im : forall k0 r0, In (k0, r0) m -> id r0 = k0).
    { destruct Hm as [I| ->]; [intros k0 r0; exact (Hid _ _ _ _ I) | intros ? ? []]. }
    apply JsMapFacts.in_set in Hk as [E|I].
    + injection E as -> ->. simpl.
      destruct (JsMap.get m (resolveAgentId req)) as [r0|] eqn:G; [|reflexivity].
      apply Im. now apply JsMapFacts.get_in.
    + destruct (JsMap.get m (resolveAgentId req)) as [r0|] eqn:G; [now apply Im|].
      apply JsMapFacts.in_set in I as [E|I]; [|now apply Im].
      now injection E as -> ->.
Qed.

Lemma idKey_cleanup (nowMs : Z) (reg : Registry) :
  wfRegistry reg -> idMatchesKey reg -> idMatchesKey (cleanupInactiveAgents nowMs reg).
Proof.
  intros [Hout Hin] Hid a m' k r Ha Hk.
  rewrite cleanup_swept in Ha by assumption.
  apply in_swept in Ha as (m & I & ->).
  rewrite sweepAgents_live in Hk by exact (Hin _ _ I).
  apply filter_In in Hk as [Hk _]. exact (Hid _ _ _ _ I Hk).
Qed.

Lemma reachable_wf (reg : Registry) : reachable reg -> wfRegistry reg.
Proof.
  induction 1 as [|reg a _ IH|reg nowMs _ IH].
  - split; [constructor | intros ? ? []].
  - now apply wf_record.
  - now apply wf_cleanup.
Qed.

Lemma reachable_idKey (reg : Registry) : reachable reg -> idMatchesKey reg.
Proof.
  induction 1 as [|reg a _ IH|reg nowMs H IH].
  - intros ? ? ? ? [].
  - now apply idKey_record.
  - apply idKey_cleanup; [now apply reachable_wf | assumption].
Qed.

(** ** The sweep over records the server did not write *)

Section AnyRecordFacts.
Variable A : Type.
Variable lastSeenTime : A -> Thrown + JsNumber.








End AnyRecordFacts.


(** On the records the server writes, whose reading never throws, the
    sweep is the one of the registry. *)
Lemma sweepAgents_agrees (oneHourAgo : Z) (entries appAgents : JsMap.t AgentState) :
  AnyRecord.sweepAgents (fun agent => inr (getTime (lastSeen agent)))
    oneHourAgo entries appAgents
  = (Normal,
     fold_left
       (fun (live : JsMap.t AgentState) (entry : string * AgentState) =>
          let (agentId, agent) := entry in
          let lastSeenTime := getTime (lastSeen agent) in
          if js_lt lastSeenTime (Num oneHourAgo)
          then JsMap.delete live agentId
          else live)
       entries appAgents).
Proof.
  revert appAgents. induction entries as [|[k r] rest IH]; intros appAgents; simpl.
  - reflexivity.
  - apply IH.
Qed.

Lemma cleanup_agrees (nowMs : Z) (agentStatus : Registry) :
  AnyRecord.cleanupInactiveAgents (fun agent => inr (getTime (lastSeen agent)))
    nowMs agentStatus
  = (Normal, cleanupInactiveAgents nowMs agentStatus).
Proof.
  unfold AnyRecord.cleanupInactiveAgents, cleanupInactiveAgents.
  generalize (JsMap.entries agentStatus). intros entries. revert agentStatus.
  induction entries as [|[a m] rest IH]; intros reg; simpl.
  - reflexivity.
  - rewrite sweepAgents_agrees. fold (sweepAgents (nowMs - 60 * 60 * 1000) m).
    apply IH.
Qed.

(** ** Eviction *)

(** C1. One sweep at clock reading [nowMs] removes exactly the records
    whose [lastSeen] is strictly older than [nowMs - INACTIVITY_WINDOW]: a
    record at that instant or newer is kept unchanged, no record appears,
    and the agent list of each application is the former list without its
    stale records.  No application is left with an empty agent map: when every
    record of an application is stale the application itself is gone, and
    [listAgents] then answers the empty list. *)
Theorem C1_sweep_removes_exactly_stale (nowMs : Z) (reg : Registry) :
  wfRegistry reg ->
  let swept := cleanupInactiveAgents nowMs reg in
  (forall a k r t,
      findAgent reg a k = Some r -> getTime (lastSeen r) = Num t ->
      t < nowMs - INACTIVITY_WINDOW -> findAgent swept a k = None)
  /\ (forall a k r,
      findAgent reg a k = Some r ->
      (forall t, getTime (lastSeen r) = Num t -> nowMs - INACTIVITY_WINDOW <= t) ->
      findAgent swept a k = Some r)
  /\ (forall a k, findAgent reg a k = None -> findAgent swept a k = None)
  /\ (forall a,
      listAgents swept a
      = filter (fun r => negb (isStale (nowMs - INACTIVITY_WINDOW) r)) (listAgents reg a))
  /\ (forall a m, JsMap.get swept a = Some m -> m <> [])
  /\ (forall a,
      (forall k r, findAgent reg a k = Some r ->
                   exists t, getTime (lastSeen r) = Num t
                             /\ t < nowMs - INACTIVITY_WINDOW) ->
      JsMap.get swept a = None /\ listAgents swept a = []).
Proof.
  intros Hwf swept. subst swept.
  split; [|split; [|split; [|split; [|split]]]].
  - intros a k r t F T Hlt. rewrite findAgent_cleanup, F by assumption.
    replace (isStale (nowMs - INACTIVITY_WINDOW) r) with true; [reflexivity|].
    symmetry. apply isStale_lt. now exists t.
  - intros a k r F T. rewrite findAgent_cleanup, F by assumption.
    destruct (isStale (nowMs - INACTIVITY_WINDOW) r) eqn:S; [|reflexivity].
    apply isStale_lt in S as (t & E & Hlt). specialize (T t E). lia.
  - intros a k F. now rewrite findAgent_cleanup, F.
  - intros a. now apply listAgents_cleanup.
  - intros a m G. destruct Hwf as [Hout _].
    rewrite cleanup_swept, get_swept in G by assumption.
    destruct (JsMap.get reg a) as [m0|]; [|discriminate].
    destruct (JsMap.size (sweepAgents (nowMs - INACTIVITY_WINDOW) m0) =? 0) eqn:S;
      [discriminate|].
    injection G as <-. intros E. rewrite E in S. discriminate.
  - intros a H.
    assert (G : JsMap.get (cleanupInactiveAgents nowMs reg) a = None).
    { apply get_cleanup_all_stale; [assumption|].
      intros k r F. apply isStale_lt. exact (H k r F). }
    split; [exact G | unfold listAgents; now rewrite G].
Qed.

Lemma sampleRegistry_reachable : reachable sampleRegistry.
Proof.
  unfold sampleRegistry.
  apply (reach_record (mkActivity _ _ _ _ _)).
  apply (reach_record (mkActivity _ _ _ _ _)).
  apply reach_init.
Qed.

Lemma C1_sweep_witness :
  wfRegistry sampleRegistry
  /\ findAgent (cleanupInactiveAgents sampleNow sampleRegistry) "robo" "agent-1" = None
  /\ (exists r, findAgent (cleanupInactiveAgents sampleNow sampleRegistry) "robo" "10.0.0.2"
                = Some r).
Proof.
  assert (W : wfRegistry sampleRegistry) by exact (reachable_wf sampleRegistry_reachable).
  destruct (C1_sweep_removes_exactly_stale sampleNow W) as (Hold & Hnew & _).
  split; [exact W | split].
  - eapply (Hold "robo" "agent-1"); [reflexivity | reflexivity |].
    vm_compute. reflexivity.
  - eexists. eapply (Hnew "robo" "10.0.0.2"); [reflexivity|].
    intros t [= <-]. vm_compute. discriminate.
Defined.




(** ** Identity of the stored records *)

(** C10. In every registry reachable from the empty one by requests and
    sweeps, each record is stored under its own [id]; hence every entry of
    [listAgents] is the record found under its [id]. *)
Theorem C10_id_is_registry_key (reg : Registry) :
  reachable reg ->
  idMatchesKey reg
  /\ forall appName agent,
       In agent (listAgents reg appName) ->
       findAgent reg appName (id agent) = Some agent.
Proof.
  intros Hr. pose proof (reachable_idKey Hr) as Hid.
  pose proof (reachable_wf Hr) as Hwf.
  split; [exact Hid|].
  intros a r. unfold listAgents, findAgent.
  destruct (JsMap.get reg a) as [m|] eqn:G; [|intros []].
  unfold JsMap.values. intros I.
  apply in_map_iff in I as [[k r'] [E I]]. simpl in E. subst r'.
  rewrite (Hid a m k r (JsMapFacts.get_in _ _ G) I).
  apply JsMapFacts.in_get; [exact (wfRegistry_inner _ Hwf G) | exact I].
Qed.

Lemma C10_id_witness :
  reachable sampleRegistry
  /\ map id (listAgents sampleRegistry "robo") = ["agent-1"; "10.0.0.2"]
  /\ idMatchesKey sampleRegistry.
Proof.
  split; [exact sampleRegistry_reachable | split; [reflexivity|]].
  exact (proj1 (C10_id_is_registry_key sampleRegistry_reachable)).
Defined.

(** ** First contact *)

(** C2. When the registry holds no record for the pair a request resolves
    to, one call creates the record [newAgent ..], whose [currentVersion]
    is null and whose [requestCount] is 0, and updates it at once: after
    the call the pair has exactly one record, its [requestCount] is 1, its
    [currentVersion] is the version served with the request if there was
    one and null otherwise, and no other pair has changed. *)
Theorem C2_first_contact_creates_one_record (nowMs : Z) (appName : string)
    (req : Request) (action : string) (version : option string) (reg : Registry) :
  findAgent reg appName (resolveAgentId req) = None ->
  let created :=
    newAgent (resolveAgentId req) (or_else (x_local_version req) "")
      (getClientIP req) (toISOString nowMs) action
      (or_else (user_agent req) "unknown") in
  let reg' := recordAgentStatus nowMs appName req action version reg in
  currentVersion created = None
  /\ requestCount created = 0
  /\ (exists agent,
        findAgent reg' appName (resolveAgentId req) = Some agent
        /\ agent = touchAgent req (getClientIP req) (or_else (x_local_version req) "")
                     (toISOString nowMs) action version created
        /\ requestCount agent = 1
        /\ currentVersion agent = asTruthy version
        /\ id agent = resolveAgentId req)
  /\ countAgent reg' appName (resolveAgentId req) = 1%nat
  /\ (forall a k, (a, k) <> (appName, resolveAgentId req) ->
                  findAgent reg' a k = findAgent reg a k).
Proof.
  intros Hnone created reg'. subst reg'.
  split; [reflexivity | split; [reflexivity | split; [|split]]].
  - eexists. split; [|split; [reflexivity | split; [reflexivity | split]]].
    + rewrite findAgent_record_same, Hnone. reflexivity.
    + simpl. unfold asTruthy. now destruct (truthy version).
    + reflexivity.
  - apply countAgent_record. unfold countAgent, findAgent in *.
    destruct (JsMap.get reg appName) as [m|]; [|lia].
    rewrite JsMapFacts.count_zero by assumption. lia.
  - intros a k Hne. now apply findAgent_record_other.
Qed.

Lemma C2_first_contact_witness :
  findAgent (JsMap.empty (JsMap.t AgentState)) "robo" (resolveAgentId namedRequest) = None
  /\ (exists agent,
        findAgent (recordAgentStatus 100 "robo" namedRequest "config_check" (Some "2.0.0") [])
          "robo" "agent-1" = Some agent
        /\ requestCount agent = 1)
  /\ countAgent (recordAgentStatus 100 "robo" namedRequest "config_check" (Some "2.0.0") [])
       "robo" "agent-1" = 1%nat.
Proof.
  destruct (@C2_first_contact_creates_one_record 100 "robo" namedRequest "config_check"
              (Some "2.0.0") [] eq_refl) as (_ & _ & (agent & F & _ & C & _) & N & _).
  split; [reflexivity | split; [|exact N]].
  exists agent. split; [exact F | exact C].
Defined.

(** ** Repeated contact *)

Lemma applyActivity_same (reg : Registry) (a : Activity) :
  findAgent (applyActivity reg a) (act_app a) (resolveAgentId (act_req a)) =
  Some (touchAgent (act_req a) (getClientIP (act_req a))
          (or_else (x_local_version (act_req a)) "")
          (toISOString (act_now a)) (act_action a) (act_version a)
          (match findAgent reg (act_app a) (resolveAgentId (act_req a)) with
           | Some r => r
           | None =>
               newAgent (resolveAgentId (act_req a))
                 (or_else (x_local_version (act_req a)) "")
                 (getClientIP (act_req a)) (toISOString (act_now a))
                 (act_action a) (or_else (user_agent (act_req a)) "unknown")
           end)).
Proof. unfold applyActivity. now rewrite findAgent_record_same. Qed.

(** A run of calls on one pair keeps the pair's record single and its
    [lastSeen] within the latest clock reading. *)
Lemma runActivities_bounded (appName agentId : string) (bound : Z)
    (calls : list Activity) (reg : Registry) :
  Forall (targets appName agentId) calls ->
  (countAgent reg appName agentId <= 1)%nat ->
  (forall r t, findAgent reg appName agentId = Some r ->
               getTime (lastSeen r) = Num t -> t <= bound) ->
  (forall a, In a calls -> act_now a <= bound) ->
  (countAgent (runActivities reg calls) appName agentId <= 1)%nat
  /\ (forall r t, findAgent (runActivities reg calls) appName agentId = Some r ->
                  getTime (lastSeen r) = Num t -> t <= bound).
Proof.
  revert reg. induction calls as [|a calls IH]; intros reg Ht Hc Hb Hn; simpl.
  - split; assumption.
  - inversion Ht as [|? ? [Ea Ek] Ht']; subst.
    apply IH; [assumption | | | intros a' I; apply Hn; now right].
    + unfold applyActivity. rewrite countAgent_record; [lia | assumption].
    + intros r t F T. rewrite applyActivity_same in F. injection F as <-.
      simpl in T. injection T as <-. apply Hn. now left.
Qed.

Lemma StronglySorted_before (l1 l2 : list Z) (x : Z) :
  StronglySorted Z.le (l1 ++ x :: l2)%list -> forall y, In y l1 -> y <= x.
Proof.
  induction l1 as [|z l1 IH]; simpl; intros Hs y I; [destruct I|].
  inversion Hs as [|? ? Hs' Hall]; subst.
  destruct I as [<-|I]; [|now apply IH].
  rewrite Forall_forall in Hall. apply Hall. apply in_or_app. right. now left.
Qed.

(** C3. Take any sequence of calls that all resolve to one (application,
    agent) pair, made under a clock that never runs backwards: the
    readings of the calls are non-decreasing, and none is earlier than the
    [lastSeen] already stored for the pair.  Then at every call of the
    sequence the pair has exactly one record afterwards, whose [lastSeen]
    is the call's clock reading; against the record found just before the
    call, [requestCount] has grown (by one) and [lastSeen] has not moved
    back; on first contact [requestCount] is 1. *)
Theorem C3_count_grows_lastSeen_advances (reg : Registry) (appName agentId : string)
    (calls : list Activity) :
  (countAgent reg appName agentId <= 1)%nat ->
  Forall (targets appName agentId) calls ->
  StronglySorted Z.le (map act_now calls) ->
  (forall r t a, findAgent reg appName agentId = Some r ->
                 getTime (lastSeen r) = Num t -> In a calls -> t <= act_now a) ->
  forall pre a post,
    calls = (pre ++ a :: post)%list ->
    let before := runActivities reg pre in
    let after := applyActivity before a in
    (countAgent before appName agentId <= 1)%nat
    /\ countAgent after appName agentId = 1%nat
    /\ exists agent',
         findAgent after appName agentId = Some agent'
         /\ lastSeen agent' = toISOString (act_now a)
         /\ match findAgent before appName agentId with
            | Some agent =>
                requestCount agent < requestCount agent'
                /\ requestCount agent' = requestCount agent + 1
                /\ forall t, getTime (lastSeen agent) = Num t -> t <= act_now a
            | None => requestCount agent' = 1
            end.
Proof.
  intros Hc Ht Hs Hclock pre a post ->.
  apply Forall_app in Ht as [Hpre Hrest].
  inversion Hrest as [|? ? [Ea Ek] _]; subst.
  rewrite map_app in Hs. simpl in Hs.
  pose proof (StronglySorted_before _ _ _ Hs) as Hle.
  destruct (@runActivities_bounded (act_app a) (resolveAgentId (act_req a))
              (act_now a) pre reg Hpre Hc) as [Hc' Hb'].
  { intros r t F T. apply (Hclock r t a F T). apply in_or_app. right. now left. }
  { intros a' I. apply Hle. now apply in_map. }
  cbv zeta. split; [exact Hc' | split].
  - unfold applyActivity. now apply countAgent_record.
  - eexists. split; [apply applyActivity_same | split; [reflexivity|]].
    destruct (findAgent (runActivities reg pre) (act_app a) (resolveAgentId (act_req a)))
      as [agent|] eqn:F; simpl.
    + split; [lia | split; [reflexivity|]]. intros t T. exact (Hb' agent t eq_refl T).
    + reflexivity.
Qed.

Lemma C3_monotone_witness :
  Forall (targets "robo" "agent-1") sampleCalls
  /\ StronglySorted Z.le (map act_now sampleCalls)
  /\ exists agent agent',
       findAgent (runActivities [] (firstn 2 sampleCalls)) "robo" "agent-1" = Some agent
       /\ findAgent (runActivities [] sampleCalls) "robo" "agent-1" = Some agent'
       /\ requestCount agent < requestCount agent'.
Proof.
  assert (T : Forall (targets "robo" "agent-1") sampleCalls)
    by (repeat constructor).
  assert (S : StronglySorted Z.le (map act_now sampleCalls))
    by (repeat constructor; simpl; lia).
  split; [exact T | split; [exact S|]].
  assert (K : forall r t a,
             findAgent (JsMap.empty (JsMap.t AgentState)) "robo" "agent-1" = Some r ->
             getTime (lastSeen r) = Num t -> In a sampleCalls -> t <= act_now a)
    by (intros r t a F; discriminate F).
  destruct (@C3_count_grows_lastSeen_advances [] "robo" "agent-1" sampleCalls
              (Nat.le_0_l 1) T S K
              (firstn 2 sampleCalls)
              (mkActivity 250 "robo" namedRequest "config_check" (Some "2.0.1"))
              [] eq_refl) as (_ & _ & agent' & F' & _ & M).
  revert M.
  destruct (findAgent (runActivities [] (firstn 2 sampleCalls)) "robo" "agent-1")
    as [agent|] eqn:F; [|discriminate F].
  intros (Hlt & _). exists agent, agent'. split; [reflexivity | split; [exact F' | exact Hlt]].
Defined.

(** ** Client identity *)

Lemma truthy_sent (header : option string) (value : string) :
  sent header value -> asTruthy header = Some value.
Proof.
  intros [-> Hne]. unfold asTruthy, truthy.
  destruct (String.eqb_spec value ""); [contradiction | reflexivity].
Qed.

Lemma truthy_unsent (header : option string) : unsent header -> asTruthy header = None.
Proof. intros [->| ->]; reflexivity. Qed.

Lemma or_else_sent (header : option string) (value fallback : string) :
  sent header value -> or_else header fallback = value.
Proof.
  intros [-> Hne]. simpl. destruct (String.eqb_spec value ""); [contradiction | reflexivity].
Qed.

Lemma or_else_unsent (header : option string) (fallback : string) :
  unsent header -> or_else header fallback = fallback.
Proof. intros [->| ->]; reflexivity. Qed.

(** C7, as worded: the forwarding header decides the address whenever it
    is present.  A forwarding header that is sent empty is present, yet
    the address is taken from the real-address header. *)
Lemma C7_present_but_empty_header :
  x_forwarded_for emptyForwardedRequest = Some ""
  /\ addressWhenPresent emptyForwardedRequest = ""
  /\ getClientIP emptyForwardedRequest = "203.0.113.7"
  /\ getClientIP emptyForwardedRequest <> addressWhenPresent emptyForwardedRequest
  /\ resolveAgentId emptyForwardedRequest <> identityWhenPresent emptyForwardedRequest.
Proof. repeat split; discriminate. Qed.

(** C7, amended.  A header counts when it was sent with a non-empty value.
    The address is the trimmed first comma-separated entry of the
    forwarding header when that counts; else the real-address header when
    that counts; else the peer address of the connection, or of the socket,
    when not empty; else ["unknown"].  The agent identifier is the identity
    header when that counts, else exactly the address. *)
Theorem C7_address_and_identity_resolution (req : Request) :
  (forall forwarded,
      sent (x_forwarded_for req) forwarded ->
      getClientIP req = trim (splitFirst "," forwarded))
  /\ (forall realIP,
      unsent (x_forwarded_for req) -> sent (x_real_ip req) realIP ->
      getClientIP req = realIP)
  /\ (forall peer,
      unsent (x_forwarded_for req) -> unsent (x_real_ip req) ->
      sent (connection_remoteAddress req) peer \/
      (unsent (connection_remoteAddress req) /\ sent (socket_remoteAddress req) peer) ->
      getClientIP req = peer)
  /\ (unsent (x_forwarded_for req) -> unsent (x_real_ip req) ->
      unsent (connection_remoteAddress req) -> unsent (socket_remoteAddress req) ->
      getClientIP req = "unknown")
  /\ (forall agentId, sent (x_agent_id req) agentId -> resolveAgentId req = agentId)
  /\ (unsent (x_agent_id req) -> resolveAgentId req = getClientIP req).
Proof.
  unfold getClientIP, resolveAgentId.
  split; [|split; [|split; [|split; [|split]]]].
  - intros f Hf. now rewrite (truthy_sent Hf).
  - intros r Hf Hr. now rewrite (truthy_unsent Hf), (truthy_sent Hr).
  - intros p Hf Hr Hp. rewrite (truthy_unsent Hf), (truthy_unsent Hr).
    destruct Hp as [Hc|[Hc Hs]].
    + unfold or_opt. destruct Hc as [Hc Hne]. rewrite Hc. simpl.
      destruct (String.eqb_spec p ""); [contradiction|]. simpl.
      destruct (String.eqb_spec p ""); [contradiction | reflexivity].
    + unfold or_opt. replace (truthy (connection_remoteAddress req)) with false
        by (destruct Hc as [->| ->]; reflexivity).
      now apply or_else_sent.
  - intros Hf Hr Hc Hs. rewrite (truthy_unsent Hf), (truthy_unsent Hr).
    unfold or_opt. replace (truthy (connection_remoteAddress req)) with false
      by (destruct Hc as [->| ->]; reflexivity).
    now apply or_else_unsent.
  - intros i Hi. now apply or_else_sent.
  - intros Hi. now apply or_else_unsent.
Qed.

Lemma C7_resolution_witness :
  sent (x_forwarded_for proxiedRequest) " 198.51.100.4 , 10.0.0.1"
  /\ getClientIP proxiedRequest = "198.51.100.4"
  /\ sent (x_agent_id proxiedRequest) "agent-1"
  /\ resolveAgentId proxiedRequest = "agent-1"
  /\ unsent (x_forwarded_for emptyForwardedRequest)
  /\ sent (x_real_ip emptyForwardedRequest) "203.0.113.7"
  /\ getClientIP emptyForwardedRequest = "203.0.113.7".
Proof.
  assert (F : sent (x_forwarded_for proxiedRequest) " 198.51.100.4 , 10.0.0.1")
    by (split; [reflexivity | discriminate]).
  assert (I : sent (x_agent_id proxiedRequest) "agent-1")
    by (split; [reflexivity | discriminate]).
  assert (U : unsent (x_forwarded_for emptyForwardedRequest)) by (right; reflexivity).
  assert (R : sent (x_real_ip emptyForwardedRequest) "203.0.113.7")
    by (split; [reflexivity | discriminate]).
  destruct (C7_address_and_identity_resolution proxiedRequest) as (A1 & _ & _ & _ & A5 & _).
  destruct (C7_address_and_identity_resolution emptyForwardedRequest) as (_ & B2 & _).
  split; [exact F | split; [exact (A1 _ F) | split; [exact I | split; [exact (A5 _ I) |]]]].
  split; [exact U | split; [exact R | exact (B2 _ U R)]].
Defined.

(** ** Address update policy *)

(** C8. On a call that finds the record of its pair, the stored [ip] is
    overwritten with the address just resolved when the request carried an
    identity of its own (a non-empty identity header, which is then the
    agent identifier); when the identifier fell back to the address, the
    stored [ip] is left as it was. *)
Theorem C8_ip_overwritten_iff_explicit_identity (nowMs : Z) (appName : string)
    (req : Request) (action : string) (version : option string) (reg : Registry)
    (agent : AgentState) :
  findAgent reg appName (resolveAgentId req) = Some agent ->
  exists agent',
    findAgent (recordAgentStatus nowMs appName req action version reg)
      appName (resolveAgentId req) = Some agent'
    /\ (forall agentId, sent (x_agent_id req) agentId ->
          resolveAgentId req = agentId /\ ip agent' = getClientIP req)
    /\ (unsent (x_agent_id req) ->
          resolveAgentId req = getClientIP req /\ ip agent' = ip agent).
Proof.
  intros F. eexists. split; [|split].
  - rewrite findAgent_record_same, F. reflexivity.
  - intros i Hi. split; [now apply or_else_sent|].
    simpl. destruct Hi as [-> Hne]. simpl.
    destruct (String.eqb_spec i ""); [contradiction | reflexivity].
  - intros Hu. split; [now apply or_else_unsent|].
    simpl. now destruct Hu as [->| ->].
Qed.

Lemma C8_ip_witness :
  (exists agent, findAgent sampleRegistry "robo" (resolveAgentId movedRequest) = Some agent
                 /\ ip agent = "10.0.0.1")
  /\ sent (x_agent_id movedRequest) "agent-1"
  /\ exists agent',
       findAgent (recordAgentStatus sampleNow "robo" movedRequest "config_check" None
                    sampleRegistry) "robo" "agent-1" = Some agent'
       /\ ip agent' = "10.0.0.5".
Proof.
  assert (S : sent (x_agent_id movedRequest) "agent-1")
    by (split; [reflexivity | discriminate]).
  destruct (@C8_ip_overwritten_iff_explicit_identity sampleNow "robo" movedRequest
              "config_check" None sampleRegistry _ eq_refl) as (agent' & F & Hsent & _).
  split; [eexists; split; reflexivity | split; [exact S|]].
  exists agent'. split; [exact F | exact (proj2 (Hsent _ S))].
Defined.

(** ** Manifest validation *)

(** What the loop body does with one file, case by case. *)
Lemma buildEntry_cases (h : Host) (base version appName : string)
    (file : FileSpec) (log : list FsCall) :
  (unsent (f_path file)
   /\ buildEntry h base version appName file log
      = (inl (Error "Binary file not found: unknown"), log))
  \/ (exists p, sent (f_path file) p /\ existsSync h p = false
      /\ buildEntry h base version appName file log
         = (inl (Error ("Binary file not found: " ++ p)), (log ++ [CallExists p])%list))
  \/ (exists p, unreadable h file p
      /\ buildEntry h base version appName file log
         = (inl (ReadError p), (log ++ [CallExists p; CallRead p])%list))
  \/ (available h file
      /\ buildEntry h base version appName file log
         = (inr (entryFor h base version appName file), (log ++ callsFor file)%list)).
Proof.
  unfold buildEntry, entryFor, callsFor, pathOf.
  destruct (f_path file) as [p|] eqn:P.
  - destruct (String.eqb_spec p "") as [->|Hne].
    + left. split; [now right | reflexivity].
    + assert (S : sent (Some p) p) by (split; [reflexivity | exact Hne]).
      rewrite (truthy_sent S), (or_else_sent _ S).
      unfold bind, fsExists, calculateSHA256, bind, fsRead, ret, throw.
      destruct (existsSync h p) eqn:Ex; simpl.
      * destruct (readFileSync h p) as [content|] eqn:Rd; rewrite <- app_assoc; simpl.
        -- right. right. right. split; [|reflexivity].
           exists p, content. rewrite ?P. now repeat split.
        -- right. right. left. exists p. unfold unreadable. rewrite ?P. now repeat split.
      * right. left. exists p. rewrite ?P. now repeat split.
  - left. split; [now left | reflexivity].
Qed.

Lemma available_not_unsent (h : Host) (file : FileSpec) :
  available h file -> unsent (f_path file) -> False.
Proof.
  intros (p & c & [E Hne] & _) [U|U]; rewrite E in U; [discriminate|].
  injection U as ->. now apply Hne.
Qed.

Lemma sent_unique (header : option string) (v w : string) :
  sent header v -> sent header w -> v = w.
Proof. intros [E _] [E' _]. congruence. Qed.

Lemma buildEntry_available (h : Host) (base version appName : string)
    (file : FileSpec) (log : list FsCall) :
  available h file ->
  exists e, buildEntry h base version appName file log = (inr e, (log ++ callsFor file)%list).
Proof.
  intros (p & content & Hp & Hex & Hrd).
  unfold buildEntry, callsFor. rewrite (truthy_sent Hp).
  destruct Hp as [Hp _]. rewrite Hp.
  unfold bind, fsExists, calculateSHA256, bind, fsRead, ret.
  rewrite Hex. simpl. rewrite Hrd. rewrite <- app_assoc. simpl.
  eexists. reflexivity.
Qed.

Lemma buildEntry_missing (h : Host) (base version appName : string)
    (file : FileSpec) (p : string) (log : list FsCall) :
  sent (f_path file) p -> existsSync h p = false ->
  buildEntry h base version appName file log
  = (inl (Error ("Binary file not found: " ++ p)), (log ++ [CallExists p])%list).
Proof.
  intros Hp Hex. unfold buildEntry. rewrite (truthy_sent Hp), (or_else_sent _ Hp).
  unfold bind, fsExists, throw. now rewrite Hex.
Qed.

Lemma buildFileList_missing (h : Host) (base version appName : string)
    (pre : list FileSpec) (file : FileSpec) (post : list FileSpec) (p : string)
    (log : list FsCall) :
  Forall (available h) pre ->
  sent (f_path file) p -> existsSync h p = false ->
  buildFileList h base version appName (pre ++ file :: post)%list log
  = (inl (Error ("Binary file not found: " ++ p)),
     (log ++ flat_map callsFor pre ++ [CallExists p])%list).
Proof.
  intros Hpre Hp Hex. revert log.
  induction Hpre as [|g pre Hg _ IH]; intros log; simpl.
  - unfold bind. now rewrite (@buildEntry_missing h base version appName file p log Hp Hex).
  - unfold bind at 1.
    destruct (@buildEntry_available h base version appName g log Hg) as [e ->].
    unfold bind at 1. rewrite IH. now rewrite <- !app_assoc.
Qed.

(** The loop stops at the first file that fails, after the calls made for
    the files before it. *)
Lemma buildFileList_stops (h : Host) (base version appName : string)
    (pre : list FileSpec) (file : FileSpec) (post : list FileSpec)
    (e : Exception) (calls : list FsCall) :
  Forall (available h) pre ->
  (forall log, buildEntry h base version appName file log = (inl e, (log ++ calls)%list)) ->
  forall log,
    buildFileList h base version appName (pre ++ file :: post)%list log
    = (inl e, (log ++ flat_map callsFor pre ++ calls)%list).
Proof.
  intros Hpre Hfile.
  induction Hpre as [|g pre Hg _ IH]; intros log; simpl.
  - unfold bind. now rewrite Hfile.
  - unfold bind at 1.
    destruct (@buildEntry_available h base version appName g log Hg) as [x ->].
    unfold bind at 1. rewrite IH. now rewrite <- !app_assoc.
Qed.

(** Every list of files is usable throughout or has a first file that is
    not. *)
Lemma first_unavailable (h : Host) (files : list FileSpec) :
  Forall (available h) files
  \/ exists pre file post,
       files = (pre ++ file :: post)%list
       /\ Forall (available h) pre /\ ~ available h file.
Proof.
  induction files as [|f files [Hall|(pre & file & post & -> & Hpre & Hbad)]].
  - left. constructor.
  - destruct (buildEntry_cases h "" "" "" f [])
      as [[U _]|[(p & S & Ex & _)|[(p & (S & _ & Rd) & _)|[Ha _]]]].
    + right. exists [], f, files. repeat split; [constructor|].
      intros Ha. exact (available_not_unsent Ha U).
    + right. exists [], f, files. repeat split; [constructor|].
      intros (q & c & Sq & Exq & _). rewrite (sent_unique Sq S) in Exq. congruence.
    + right. exists [], f, files. repeat split; [constructor|].
      intros (q & c & Sq & _ & Rdq). rewrite (sent_unique Sq S) in Rdq. congruence.
    + left. now constructor.
  - destruct (buildEntry_cases h "" "" "" f [])
      as [[U _]|[(p & S & Ex & _)|[(p & (S & _ & Rd) & _)|[Ha _]]]].
    + right. exists [], f, (pre ++ file :: post)%list. repeat split; [constructor|].
      intros Ha. exact (available_not_unsent Ha U).
    + right. exists [], f, (pre ++ file :: post)%list. repeat split; [constructor|].
      intros (q & c & Sq & Exq & _). rewrite (sent_unique Sq S) in Exq. congruence.
    + right. exists [], f, (pre ++ file :: post)%list. repeat split; [constructor|].
      intros (q & c & Sq & _ & Rdq). rewrite (sent_unique Sq S) in Rdq. congruence.
    + right. exists (f :: pre), file, post. repeat split; [now constructor | exact Hbad].
Qed.

(** C4, as worded: nothing is read or hashed until every check has
    passed.  With one binary on disk and a second one missing, the first is
    checked, read and hashed before the second is found missing. *)
Lemma C4_first_file_read_before_second_checked :
  run (generateConfig sampleHost [roboBinary; missingBinary] "2.0.0" "robo" noOptions)
  = (inl (Error "Binary file not found: /srv/apps/robo/files/arm.bin"),
     [ CallExists "/srv/apps/robo/files/robo.bin";
       CallRead "/srv/apps/robo/files/robo.bin";
       CallExists "/srv/apps/robo/files/arm.bin" ]).
Proof. reflexivity. Qed.

(** C4, amended.  An empty [files] fails first, then an empty [appName],
    each before any file-system call.  After that the files are taken in
    order, each one checked for existence and then read and hashed before
    the next is looked at, and the build stops at the first file that
    cannot be taken, when the files before it have been read and hashed
    and before any later file is touched.  What is thrown depends on that
    file alone: without a path, or with an empty one, the message says
    [unknown] and no call is made for it; with a path that does not exist
    the message ends in that path, after the one existence check; with a
    path that exists and cannot be read, it is the error of the read.
    Every list of files is either usable throughout or has such a first
    file. *)
Theorem C4_validation_order (h : Host) (version appName : string) (options : Options) :
  run (generateConfig h [] version appName options)
  = (inl (Error "Files array cannot be empty"), [])
  /\ (forall files,
        files <> [] -> appName = "" ->
        run (generateConfig h files version appName options)
        = (inl (Error "App name is required"), []))
  /\ (forall pre file post,
        appName <> "" ->
        Forall (available h) pre ->
        ~ available h file ->
        exists e calls,
          run (generateConfig h (pre ++ file :: post)%list version appName options)
          = (inl e, (flat_map callsFor pre ++ calls)%list)
          /\ ((unsent (f_path file)
               /\ e = Error "Binary file not found: unknown" /\ calls = [])
              \/ (exists p,
                    sent (f_path file) p /\ existsSync h p = false
                    /\ e = Error ("Binary file not found: " ++ p)
                    /\ calls = [CallExists p])
              \/ (exists p,
                    unreadable h file p
                    /\ e = ReadError p /\ calls = [CallExists p; CallRead p])))
  /\ (forall files,
        Forall (available h) files
        \/ exists pre file post,
             files = (pre ++ file :: post)%list
             /\ Forall (available h) pre /\ ~ available h file).
Proof.
  split; [reflexivity | split; [|split]].
  - intros files Hne ->. unfold run, generateConfig.
    destruct files as [|f files]; [contradiction | reflexivity].
  - intros pre file post Hname Hpre Hbad.
    assert (Hrun : forall e calls,
      (forall base log,
          buildEntry h base version appName file log = (inl e, (log ++ calls)%list)) ->
      run (generateConfig h (pre ++ file :: post)%list version appName options)
      = (inl e, (flat_map callsFor pre ++ calls)%list)).
    { intros e calls Hfile. unfold run, generateConfig.
      replace ((List.length (pre ++ file :: post) =? 0)%nat) with false
        by (now destruct pre).
      destruct (String.eqb_spec appName ""); [contradiction|].
      unfold bind.
      now rewrite (@buildFileList_stops h _ version appName pre file post e calls
                     Hpre (Hfile _) []). }
    destruct (buildEntry_cases h "" version appName file [])
      as [[U _]|[(p & S & Ex & _)|[(p & Hp & _)|[Ha _]]]].
    + exists (Error "Binary file not found: unknown"), []. split.
      * apply Hrun. intros base log.
        destruct (buildEntry_cases h base version appName file log)
          as [[_ ->]|[(q & Sq & _)|[(q & (Sq & _) & _)|[Ha _]]]].
        -- now rewrite app_nil_r.
        -- destruct Sq as [E Hq]. destruct U as [U|U]; rewrite E in U;
             [discriminate | injection U as ->; now destruct Hq].
        -- destruct Sq as [E Hq]. destruct U as [U|U]; rewrite E in U;
             [discriminate | injection U as ->; now destruct Hq].
        -- destruct (available_not_unsent Ha U).
      * left. split; [exact U | split; reflexivity].
    + exists (Error ("Binary file not found: " ++ p)), [CallExists p]. split.
      * apply Hrun. intros base log.
        now apply buildEntry_missing.
      * right. left. exists p.
        split; [exact S | split; [exact Ex | split; reflexivity]].
    + exists (ReadError p), [CallExists p; CallRead p]. split.
      * apply Hrun. intros base log.
        destruct (buildEntry_cases h base version appName file log)
          as [[U _]|[(q & Sq & Exq & _)|[(q & (Sq & _) & ->)|[Ha _]]]].
        -- destruct Hp as ([E Hq] & _). destruct U as [U|U]; rewrite E in U;
             [discriminate | injection U as ->; now destruct Hq].
        -- destruct Hp as (S & Ex & _). rewrite (sent_unique Sq S) in Exq. congruence.
        -- destruct Hp as (S & _). now rewrite (sent_unique Sq S).
        -- destruct Ha as (q & c & Sq & _ & Rd). destruct Hp as (S & _ & Rdp).
           rewrite (sent_unique Sq S) in Rd. congruence.
      * right. right. exists p. split; [exact Hp | split; reflexivity].
    + contradiction.
  - apply first_unavailable.
Qed.

Lemma C4_validation_witness :
  Forall (available sampleHost) [roboBinary]
  /\ ~ available sampleHost missingBinary
  /\ run (generateConfig sampleHost [roboBinary; missingBinary] "2.0.0" "robo" noOptions)
     = (inl (Error "Binary file not found: /srv/apps/robo/files/arm.bin"),
        (callsFor roboBinary ++ [CallExists "/srv/apps/robo/files/arm.bin"])%list)
  /\ fst (run (generateConfig sampleHost [missingBinary] "2.0.0" "" noOptions))
     = inl (Error "App name is required").
Proof.
  assert (A : Forall (available sampleHost) [roboBinary]).
  { constructor; [|constructor].
    exists "/srv/apps/robo/files/robo.bin", "0123456789".
    split; [split; [reflexivity | discriminate] | split; reflexivity]. }
  assert (B : ~ available sampleHost missingBinary).
  { intros (p & c & [E _] & Ex & _). injection E as <-. discriminate Ex. }
  destruct (C4_validation_order sampleHost "2.0.0" "robo" noOptions) as (_ & _ & Hstop & _).
  destruct (C4_validation_order sampleHost "2.0.0" "" noOptions) as (_ & Hname & _).
  split; [exact A | split; [exact B | split]].
  - destruct (Hstop [roboBinary] missingBinary [] ltac:(discriminate) A B)
      as (e & calls & _ & _).
    reflexivity.
  - rewrite (Hname [missingBinary] ltac:(discriminate) eq_refl). reflexivity.
Defined.

(** ** Manifest rendering *)

Lemma append_assoc (a b c : string) : ((a ++ b) ++ c = a ++ b ++ c)%string.
Proof. induction a as [|x a IH]; simpl; [reflexivity | now rewrite IH]. Qed.

Lemma append_empty_r (a : string) : (a ++ "")%string = a.
Proof. induction a as [|x a IH]; simpl; [reflexivity | now rewrite IH]. Qed.

Lemma concatAll_app (l1 l2 : list string) :
  concatAll (l1 ++ l2)%list = (concatAll l1 ++ concatAll l2)%string.
Proof.
  induction l1 as [|x l1 IH]; simpl; [reflexivity|].
  now rewrite IH, append_assoc.
Qed.

(** One round of the loop appends the pieces of its file.  The entries
    the builder makes never have an empty version next to a non-empty
    manifest version. *)
Lemma appendEntry_lines (version yaml : string) (e : ManifestEntry) :
  (e_version e = "" -> version = "") ->
  appendEntry version yaml e = (yaml ++ concatAll (entryLines version e))%string.
Proof.
  intros Hinv. unfold appendEntry, entryLines.
  fold (fileLines e). fold (versionLine (e_version e)). fold restartLine.
  destruct (String.eqb_spec (e_version e) version) as [E|N].
  - rewrite andb_false_r.
    destruct (e_restart e); cbn [app concatAll fold_right];
      now rewrite ?append_empty_r, ?append_assoc.
  - destruct (String.eqb_spec (e_version e) "") as [E0|N0].
    + exfalso. apply N. rewrite E0. symmetry. now apply Hinv.
    + destruct (e_restart e); cbn [app concatAll fold_right negb andb];
        now rewrite ?append_empty_r, ?append_assoc.
Qed.

Lemma fold_appendEntry (version : string) (entries : list ManifestEntry) (yaml : string) :
  Forall (fun e => e_version e = "" -> version = "") entries ->
  fold_left (appendEntry version) entries yaml
  = (yaml ++ concatAll (flat_map (entryLines version) entries))%string.
Proof.
  intros H. revert yaml.
  induction H as [|e entries He _ IH]; intros yaml; cbn [fold_left flat_map].
  - cbn. now rewrite append_empty_r.
  - rewrite IH, appendEntry_lines by assumption.
    now rewrite concatAll_app, append_assoc.
Qed.

Lemma effectiveVersion_or_else (version : string) (file : FileSpec) :
  or_else (f_version file) version = effectiveVersion version file.
Proof. reflexivity. Qed.

Lemma effectiveVersion_empty (version : string) (file : FileSpec) :
  effectiveVersion version file = "" -> version = "".
Proof.
  unfold effectiveVersion. destruct (f_version file) as [v|]; [|trivial].
  destruct (String.eqb_spec v ""); [trivial | intros ->; contradiction].
Qed.

(** The entries of a successful build carry the effective versions of the
    files, in order. *)
Lemma buildFileList_versions (h : Host) (base version appName : string)
    (files : list FileSpec) (log log' : list FsCall) (entries : list ManifestEntry) :
  buildFileList h base version appName files log = (inr entries, log') ->
  map e_version entries = map (effectiveVersion version) files.
Proof.
  revert log log' entries.
  induction files as [|f files IH]; intros log log' entries; simpl.
  - unfold ret. now intros [= <- _].
  - unfold bind at 1.
    destruct (buildEntry h base version appName f log) as [[x|e] log1] eqn:B;
      [discriminate|].
    unfold bind at 1.
    destruct (buildFileList h base version appName files log1) as [[x|es] log2] eqn:L;
      [discriminate|].
    unfold ret. intros [= <- _]. simpl. rewrite (IH _ _ _ L). f_equal.
    unfold buildEntry in B.
    destruct (asTruthy (f_path f)) as [p|]; [|discriminate].
    unfold bind, fsExists in B.
    destruct (negb (existsSync h p)); [discriminate|].
    unfold calculateSHA256, bind, fsRead in B.
    destruct (readFileSync h p); [|discriminate].
    unfold ret in B. now injection B as <- _.
Qed.

Lemma versionLine_not_fileLines (v : string) (e : ManifestEntry) :
  versionLine v <> fileLines e.
Proof. discriminate. Qed.

Lemma versionLine_not_restartLine (v : string) : versionLine v <> restartLine.
Proof. discriminate. Qed.

(** C5. In the text of every manifest that is built, the pieces written for
    a file are its four field lines, then its version line, then its
    restart line; the version line is there exactly when the file's
    effective version (its own, else the manifest's) differs from the
    manifest's version. *)
Theorem C5_version_line_iff_differs (h : Host) (files : list FileSpec)
    (version appName : string) (options : Options)
    (yaml : string) (config : Config) (log : list FsCall) :
  run (generateConfig h files version appName options) = (inr (yaml, config), log) ->
  map e_version (c_files config) = map (effectiveVersion version) files
  /\ yaml = concatAll ([manifestHeader version]
                       ++ flat_map (entryLines version) (c_files config)
                       ++ trailerLines config)%list
  /\ forall e, In e (c_files config) ->
       (In (versionLine (e_version e)) (entryLines version e) <-> e_version e <> version).
Proof.
  unfold run, generateConfig.
  destruct (List.length files =? 0)%nat; [discriminate|].
  destruct (String.eqb appName ""); [discriminate|].
  unfold bind.
  destruct (buildFileList h (or_else (baseUrl options) (BASE_URL h)) version appName files [])
    as [[x|entries] log1] eqn:L; [discriminate|].
  unfold ret. intros [= <- <- _]. cbn [c_files c_version c_restart_cmd].
  pose proof (buildFileList_versions _ _ _ _ _ _ L) as Hv.
  split; [exact Hv | split].
  - assert (Hinv : Forall (fun e => e_version e = "" -> version = "") entries).
    { apply Forall_forall. intros e I.
      apply (in_map e_version) in I. rewrite Hv in I.
      apply in_map_iff in I as (f & <- & _). apply effectiveVersion_empty. }
    rewrite (fold_appendEntry _ Hinv).
    fold (manifestHeader version).
    unfold trailerLines. cbn [c_restart_cmd].
    destruct (asTruthy _) as [cmd|];
      rewrite !concatAll_app; cbn [concatAll fold_right];
      rewrite ?append_empty_r; [rewrite append_assoc|]; reflexivity.
  - intros e _. unfold entryLines.
    destruct (String.eqb_spec (e_version e) version) as [E|N]; simpl.
    + split; [|contradiction].
      intros [F|I]; [symmetry in F; now apply versionLine_not_fileLines in F|].
      destruct (e_restart e); simpl in I; [|contradiction].
      destruct I as [R|[]]. symmetry in R. now apply versionLine_not_restartLine in R.
    + split; [trivial|]. intros _. right. now left.
Qed.

Lemma C5_version_line_witness :
  exists yaml config log e1 e2,
    run (generateConfig sampleHost [roboBinary; plainBinary] "2.0.0" "robo" noOptions)
    = (inr (yaml, config), log)
    /\ c_files config = [e1; e2]
    /\ In (versionLine "2.0.1") (entryLines "2.0.0" e1)
    /\ ~ In (versionLine "2.0.0") (entryLines "2.0.0" e2).
Proof.
  do 5 eexists.
  split; [reflexivity | split; [reflexivity|]].
  destruct (@C5_version_line_iff_differs sampleHost [roboBinary; plainBinary]
              "2.0.0" "robo" noOptions _ _ _ eq_refl) as (_ & _ & Hiff).
  split.
  - apply (Hiff _ (or_introl eq_refl)). discriminate.
  - intros I. apply (Hiff _ (or_intror (or_introl eq_refl))) in I. now apply I.
Defined.

(** ** Record query *)

Lemma in_insertDesc (x r : GameRecord) (l : list GameRecord) :
  In r (insertDesc x l) <-> r = x \/ In r l.
Proof.
  induction l as [|y l IH]; simpl.
  - intuition.
  - destruct (rec_timestamp y <? rec_timestamp x); simpl; [intuition|].
    rewrite IH. intuition.
Qed.

Lemma in_orderDesc (r : GameRecord) (l : list GameRecord) :
  In r (orderDesc l) <-> In r l.
Proof.
  unfold orderDesc. induction l as [|x l IH]; simpl; [tauto|].
  rewrite in_insertDesc, IH. intuition.
Qed.

(** The rows a query returns are the stored rows that satisfy its clauses. *)
Lemma in_query (parseDate parseInt : string -> JsNumber)
    (table : list GameRecord) (date type duration : option string) (r : GameRecord) :
  In r (queryGameRecords parseDate parseInt table date type duration) <->
  In r table
  /\ rowMatches (fst (buildQuery parseDate parseInt date type duration))
       (snd (buildQuery parseDate parseInt date type duration)) r = true.
Proof.
  unfold queryGameRecords.
  destruct (buildQuery parseDate parseInt date type duration) as [clauses params].
  rewrite in_orderDesc, filter_In. reflexivity.
Qed.

(** The date clause comes first and the other clauses are those of the
    query without a date. *)
Lemma rowMatches_date (parseDate parseInt : string -> JsNumber)
    (date : string) (type duration : option string) (r : GameRecord) :
  date <> "" ->
  rowMatches (fst (buildQuery parseDate parseInt (Some date) type duration))
    (snd (buildQuery parseDate parseInt (Some date) type duration)) r
  = (sql_ge (rec_timestamp r) (startOfDayLocal parseDate date)
     && sql_lt (rec_timestamp r) (js_add (startOfDayLocal parseDate date) 86400)
     && rowMatches (fst (buildQuery parseDate parseInt None type duration))
          (snd (buildQuery parseDate parseInt None type duration)) r)%bool.
Proof.
  intros Hne. unfold buildQuery.
  replace (asTruthy (Some date)) with (Some date)
    by (unfold asTruthy, truthy; now destruct (String.eqb_spec date "")).
  change (asTruthy None) with (@None string). cbv iota beta.
  fold (startOfDayLocal parseDate date).
  destruct (asTruthy type) as [t|], (asTruthy duration) as [d|]; reflexivity.
Qed.

(** C6.  The claim holds the query to the local day: a row stamped at
    local midnight of the day after D is not a row of D.  The source says
    the same of itself (its comment gives the range as the local day from
    00:00:00 to 23:59:59) and then takes the end of the day to be 86 400
    seconds after its start.  On a host on US Eastern time 2024-03-10 has
    23 hours: the query for that date binds 1 710 046 800 and
    1 710 133 200, local midnight of 2024-03-11 is 1 710 129 600, inside
    that range, and the row stamped there is returned for 2024-03-10. *)
Theorem C6_next_midnight_inside_short_day :
  snd (buildQuery (dateGetTime usEastern2024) parseDigits (Some "2024-03-10") None None)
  = [PNumber (Num 1710046800); PNumber (Num 1710133200)]
  /\ startOfDayLocal (dateGetTime usEastern2024) "2024-03-10" = Num 1710046800
  /\ startOfDayLocal (dateGetTime usEastern2024) "2024-03-11" = Num (rec_timestamp midnightRow)
  /\ In midnightRow
       (queryGameRecords (dateGetTime usEastern2024) parseDigits [midnightRow]
          (Some "2024-03-10") None None).
Proof. split; [reflexivity | split; [reflexivity | split; [reflexivity | now left]]]. Qed.

(** The model at work on a host on UTC, where every day has 86 400
    seconds: of the rows at midnight of 2024-03-10 and of 2024-03-11 the
    query for 2024-03-10 returns the first. *)
Example utcTable_query :
  map rec_id (queryGameRecords (dateGetTime utc) parseDigits utcTable
                (Some "2024-03-10") None None)
  = [1].
Proof. reflexivity. Qed.

(** * Further properties *)

(** ** Requests and the registry *)

Lemma get_record (nowMs : Z) (appName : string) (req : Request) (action : string)
    (version : option string) (reg : Registry) (a : string) :
  a <> appName ->
  JsMap.get (recordAgentStatus nowMs appName req action version reg) a = JsMap.get reg a.
Proof.
  intros Hne. rewrite recordAgentStatus_sets. cbv zeta.
  rewrite JsMapFacts.get_set_ne by congruence.
  destruct (JsMap.get reg appName); [reflexivity|].
  now rewrite JsMapFacts.get_set_ne by congruence.
Qed.

Lemma keys_set (V : Type) (m : JsMap.t V) (k : string) (v : V) :
  JsMap.keys (JsMap.set m k v)
  = match JsMap.get m k with
    | Some _ => JsMap.keys m
    | None => (JsMap.keys m ++ [k])%list
    end.
Proof.
  destruct (JsMap.get m k) as [v0|] eqn:G.
  - apply JsMapFacts.keys_set_present.
    apply JsMapFacts.get_in in G. change k with (fst (k, v0)). now apply in_map.
  - apply JsMapFacts.keys_set_absent. now apply JsMapFacts.get_none_keys.
Qed.

(** X1. A request changes the record of the pair it resolves to and no
    other: every other (application, agent) pair keeps its record, and the
    agent list of every other application is the same list. *)
Theorem X1_request_touches_one_pair (nowMs : Z) (appName : string) (req : Request)
    (action : string) (version : option string) (reg : Registry) :
  let reg' := recordAgentStatus nowMs appName req action version reg in
  (forall a k, (a, k) <> (appName, resolveAgentId req) ->
               findAgent reg' a k = findAgent reg a k)
  /\ (forall a, a <> appName -> listAgents reg' a = listAgents reg a).
Proof.
  split.
  - intros a k Hne. now apply findAgent_record_other.
  - intros a Hne. unfold listAgents. now rewrite get_record.
Qed.

(** X2. The agent list keeps arrival order: a request from an agent that
    has a record leaves the order of the application's agents as it was,
    and a request from a new agent puts it last. *)
Theorem X2_listing_keeps_arrival_order (nowMs : Z) (appName : string) (req : Request)
    (action : string) (version : option string) (reg : Registry) :
  agentIds (recordAgentStatus nowMs appName req action version reg) appName
  = match findAgent reg appName (resolveAgentId req) with
    | Some _ => agentIds reg appName
    | None => (agentIds reg appName ++ [resolveAgentId req])%list
    end.
Proof.
  rewrite recordAgentStatus_sets. cbv zeta. unfold agentIds, findAgent.
  rewrite JsMapFacts.get_set_eq.
  destruct (JsMap.get reg appName) as [m|]; simpl.
  - rewrite keys_set.
    destruct (JsMap.get m (resolveAgentId req)) as [r|] eqn:G.
    + now rewrite G.
    + rewrite JsMapFacts.get_set_eq. now rewrite keys_set, G.
  - now rewrite String.eqb_refl.
Qed.

Lemma set_set (V : Type) (m : JsMap.t V) (k : string) (v v' : V) :
  JsMap.set (JsMap.set m k v) k v' = JsMap.set m k v'.
Proof.
  induction m as [|[k0 v0] m IH]; simpl.
  - now rewrite String.eqb_refl.
  - destruct (String.eqb_spec k k0) as [->|Hne]; simpl.
    + now rewrite String.eqb_refl.
    + destruct (String.eqb_spec k k0); [contradiction | now rewrite IH].
Qed.

(** The call as one write of the application's map, itself one write of
    the agent's record. *)
Lemma recordAgentStatus_set (nowMs : Z) (appName : string) (req : Request)
    (action : string) (version : option string) (reg : Registry) :
  recordAgentStatus nowMs appName req action version reg
  = JsMap.set reg appName
      (JsMap.set (match JsMap.get reg appName with Some m => m | None => [] end)
         (resolveAgentId req)
         (touchAgent req (getClientIP req) (or_else (x_local_version req) "")
            (toISOString nowMs) action version
            (match findAgent reg appName (resolveAgentId req) with
             | Some r => r
             | None =>
                 newAgent (resolveAgentId req) (or_else (x_local_version req) "")
                   (getClientIP req) (toISOString nowMs) action
                   (or_else (user_agent req) "unknown")
             end))).
Proof.
  rewrite recordAgentStatus_sets. cbv zeta. unfold findAgent.
  destruct (JsMap.get reg appName) as [m|].
  - destruct (JsMap.get m (resolveAgentId req)); [reflexivity | now rewrite set_set].
  - simpl JsMap.get. now rewrite !set_set.
Qed.

Lemma recordSound_touch (req : Request) (clientIp reported : string) (nowMs : Z)
    (action : string) (version : option string) (agent : AgentState) :
  0 <= requestCount agent -> currentVersion agent <> Some "" ->
  recordSound (touchAgent req clientIp reported (toISOString nowMs) action version agent).
Proof.
  intros Hc Hv. unfold recordSound. simpl. split; [lia | split].
  - now exists nowMs.
  - destruct version as [v|]; simpl; [|exact Hv].
    destruct (String.eqb_spec v ""); simpl; [exact Hv | congruence].
Qed.

Lemma allSound_record (nowMs : Z) (appName : string) (req : Request) (action : string)
    (version : option string) (reg : Registry) :
  (forall a m k r, In (a, m) reg -> In (k, r) m -> recordSound r) ->
  forall a m k r,
    In (a, m) (recordAgentStatus nowMs appName req action version reg) ->
    In (k, r) m -> recordSound r.
Proof.
  intros Hs a m' k r Ha Hk. rewrite recordAgentStatus_set in Ha.
  apply JsMapFacts.in_set in Ha as [E|I]; [|exact (Hs _ _ _ _ I Hk)].
  injection E as -> ->.
  assert (Hm : forall k0 r0,
             In (k0, r0) (match JsMap.get reg appName with Some m => m | None => [] end) ->
             recordSound r0).
  { destruct (JsMap.get reg appName) as [m|] eqn:G; [|intros ? ? []].
    intros k0 r0. apply (Hs appName m). now apply JsMapFacts.get_in. }
  apply JsMapFacts.in_set in Hk as [E|I]; [|exact (Hm _ _ I)].
  injection E as -> ->. unfold findAgent.
  destruct (JsMap.get reg appName) as [m|] eqn:G.
  - destruct (JsMap.get m (resolveAgentId req)) as [r0|] eqn:A.
    + destruct (Hm _ _ (JsMapFacts.get_in _ _ A)) as (Hc & _ & Hv).
      apply recordSound_touch; [lia | exact Hv].
    + apply recordSound_touch; simpl; [lia | discriminate].
  - apply recordSound_touch; simpl; [lia | discriminate].
Qed.

Lemma allSound_cleanup (nowMs : Z) (reg : Registry) :
  wfRegistry reg ->
  (forall a m k r, In (a, m) reg -> In (k, r) m -> recordSound r) ->
  forall a m k r,
    In (a, m) (cleanupInactiveAgents nowMs reg) -> In (k, r) m -> recordSound r.
Proof.
  intros [Hout Hin] Hs a m' k r Ha Hk.
  rewrite cleanup_swept in Ha by assumption.
  apply in_swept in Ha as (m & I & ->).
  rewrite sweepAgents_live in Hk by exact (Hin _ _ I).
  apply filter_In in Hk as [Hk _]. exact (Hs _ _ _ _ I Hk).
Qed.

Lemma reachable_sound (reg : Registry) :
  reachable reg -> forall a m k r, In (a, m) reg -> In (k, r) m -> recordSound r.
Proof.
  induction 1 as [|reg act _ IH|reg nowMs H IH].
  - intros ? ? ? ? [].
  - now apply allSound_record.
  - apply allSound_cleanup; [now apply reachable_wf | assumption].
Qed.

Lemma in_listAgents (reg : Registry) (a : string) (r : AgentState) :
  In r (listAgents reg a) ->
  exists m k, In (a, m) reg /\ In (k, r) m.
Proof.
  unfold listAgents. destruct (JsMap.get reg a) as [m|] eqn:G; [|intros []].
  unfold JsMap.values. intros I. apply in_map_iff in I as [[k r'] [E I]].
  simpl in E. subst r'. exists m, k. split; [now apply JsMapFacts.get_in | exact I].
Qed.

(** X3. Whatever requests and sweeps have happened, every agent that is
    listed has been counted at least once, has a [lastSeen] written by
    [toISOString] (so its time is a number, never NaN), and has a
    [currentVersion] that is null or a non-empty text. *)
Theorem X3_listed_agents_are_sound (reg : Registry) :
  reachable reg ->
  forall appName agent,
    In agent (listAgents reg appName) ->
    1 <= requestCount agent
    /\ (exists t, getTime (lastSeen agent) = Num t)
    /\ currentVersion agent <> Some "".
Proof.
  intros Hr a r I. apply in_listAgents in I as (m & k & Ha & Hk).
  destruct (reachable_sound Hr _ _ _ _ Ha Hk) as (Hc & (t & Ht) & Hv).
  split; [exact Hc | split; [|exact Hv]].
  exists t. now rewrite Ht.
Qed.

Lemma X3_sound_witness :
  reachable sampleRegistry
  /\ map requestCount (listAgents sampleRegistry "robo") = [1; 1]
  /\ Forall (fun agent => 1 <= requestCount agent) (listAgents sampleRegistry "robo").
Proof.
  split; [exact sampleRegistry_reachable | split; [reflexivity|]].
  apply Forall_forall. intros agent I.
  exact (proj1 (X3_listed_agents_are_sound sampleRegistry_reachable "robo" agent I)).
Defined.

Lemma set_not_nil (V : Type) (m : JsMap.t V) (k : string) (v : V) : JsMap.set m k v <> [].
Proof.
  destruct m as [|[k0 v0] m]; simpl; [discriminate|].
  destruct (String.eqb k k0); discriminate.
Qed.

Lemma noEmpty_record (nowMs : Z) (appName : string) (req : Request) (action : string)
    (version : option string) (reg : Registry) :
  (forall a m, In (a, m) reg -> m <> []) ->
  forall a m, In (a, m) (recordAgentStatus nowMs appName req action version reg) -> m <> [].
Proof.
  intros Hn a m' Ha. rewrite recordAgentStatus_set in Ha.
  apply JsMapFacts.in_set in Ha as [E|I]; [|exact (Hn _ _ I)].
  injection E as -> ->. apply set_not_nil.
Qed.

Lemma noEmpty_swept (oneHourAgo : Z) (reg : Registry) :
  forall a m, In (a, m) (sweptRegistry oneHourAgo reg) -> m <> [].
Proof.
  intros a m I. unfold sweptRegistry in I. apply filter_In in I as [_ S].
  simpl in S. intros ->. discriminate.
Qed.

Lemma reachable_noEmpty (reg : Registry) :
  reachable reg -> forall a m, In (a, m) reg -> m <> [].
Proof.
  induction 1 as [|reg act _ IH|reg nowMs H IH].
  - intros ? ? [].
  - now apply noEmpty_record.
  - pose proof (reachable_wf H) as [Hout _].
    rewrite cleanup_swept by assumption. apply noEmpty_swept.
Qed.

(** X4. The registry never holds an application without agents: in every
    state reached by requests and sweeps, an application that is present
    has a non-empty agent list. *)
Theorem X4_no_application_without_agents (reg : Registry) :
  reachable reg ->
  forall appName,
    In appName (JsMap.keys reg) -> listAgents reg appName <> [].
Proof.
  intros Hr a I. unfold listAgents.
  destruct (JsMap.get reg a) as [m|] eqn:G.
  - pose proof (@reachable_noEmpty reg Hr a m (JsMapFacts.get_in _ _ G)) as Hm.
    destruct m; [contradiction | discriminate].
  - apply JsMapFacts.get_none_keys in G. contradiction.
Qed.

Lemma X4_no_empty_witness :
  reachable (cleanupInactiveAgents sampleNow sampleRegistry)
  /\ JsMap.keys (cleanupInactiveAgents sampleNow sampleRegistry) = ["robo"]
  /\ listAgents (cleanupInactiveAgents sampleNow sampleRegistry) "robo" <> [].
Proof.
  assert (R : reachable (cleanupInactiveAgents sampleNow sampleRegistry))
    by (apply reach_cleanup; exact sampleRegistry_reachable).
  split; [exact R | split; [reflexivity|]].
  apply (X4_no_application_without_agents R). now left.
Defined.

(** ** Sweeps *)

Lemma swept_nil (oneHourAgo : Z) (reg : Registry) :
  (forall a m, In (a, m) reg -> sweepAgents oneHourAgo m = []) ->
  sweptRegistry oneHourAgo reg = [].
Proof.
  unfold sweptRegistry. induction reg as [|[a m] reg IH]; intros H; [reflexivity|].
  simpl. rewrite (H a m) by now left. simpl. apply IH.
  intros a' m' I. apply (H a'). now right.
Qed.

Lemma liveAgents_nil (oneHourAgo : Z) (m : JsMap.t AgentState) :
  (forall k r, In (k, r) m -> isStale oneHourAgo r = true) ->
  liveAgents oneHourAgo m = [].
Proof.
  unfold liveAgents. induction m as [|[k r] m IH]; intros H; [reflexivity|].
  simpl. rewrite (H k r) by now left. simpl. apply IH.
  intros k' r' I. apply (H k'). now right.
Qed.

(** X5. No record lingers for ever: in any state reached by requests and
    sweeps, one sweep at a clock reading more than the inactivity window
    after every stored [lastSeen] leaves the registry empty. *)
Theorem X5_late_sweep_empties_registry (reg : Registry) (nowMs : Z) :
  reachable reg ->
  (forall appName agent t,
      In agent (listAgents reg appName) -> getTime (lastSeen agent) = Num t ->
      t < nowMs - INACTIVITY_WINDOW) ->
  cleanupInactiveAgents nowMs reg = [].
Proof.
  intros Hr Hold. pose proof (reachable_wf Hr) as Hwf. pose proof Hwf as [Hout Hin].
  rewrite cleanup_swept by assumption. apply swept_nil. intros a m I.
  rewrite sweepAgents_live by exact (Hin _ _ I).
  apply liveAgents_nil. intros k r Ik.
  destruct (reachable_sound Hr _ _ _ _ I Ik) as (_ & (t & Ht) & _).
  apply isStale_lt. exists t. split; [now rewrite Ht|].
  apply (Hold a r t); [|now rewrite Ht].
  unfold listAgents. rewrite (JsMapFacts.in_get _ _ Hout I).
  unfold JsMap.values. change r with (snd (k, r)). now apply in_map.
Qed.

Lemma X5_late_sweep_witness :
  reachable sampleRegistry
  /\ cleanupInactiveAgents (sampleNow + INACTIVITY_WINDOW) sampleRegistry = [].
Proof.
  split; [exact sampleRegistry_reachable|].
  apply (@X5_late_sweep_empties_registry sampleRegistry _ sampleRegistry_reachable).
  intros a agent t I T.
  assert (L : listAgents sampleRegistry a = listAgents sampleRegistry "robo"
              \/ listAgents sampleRegistry a = []).
  { unfold listAgents. simpl. destruct (String.eqb a "robo"); [now left | now right]. }
  destruct L as [L|L]; rewrite L in I; [|destruct I].
  destruct I as [<-|[<-|[]]]; injection T as <-; vm_compute; reflexivity.
Defined.

Lemma swept_live (oneHourAgo : Z) (reg : Registry) :
  (forall a m, In (a, m) reg -> JsMap.wf m) ->
  sweptRegistry oneHourAgo reg = liveRegistry oneHourAgo reg.
Proof.
  unfold sweptRegistry, liveRegistry.
  induction reg as [|[a m] reg IH]; intros Hin; [reflexivity|].
  simpl. rewrite sweepAgents_live by (apply (Hin a); now left).
  rewrite IH by (intros a' m' I; apply (Hin a'); now right).
  now destruct (liveAgents oneHourAgo m).
Qed.

Lemma isStale_mono (c c' : Z) (r : AgentState) :
  c <= c' -> isStale c r = true -> isStale c' r = true.
Proof.
  intros Hle H. apply isStale_lt in H as (t & E & Hlt).
  apply isStale_lt. exists t. split; [exact E | lia].
Qed.

Lemma liveAgents_twice (c c' : Z) (m : JsMap.t AgentState) :
  c <= c' -> liveAgents c' (liveAgents c m) = liveAgents c' m.
Proof.
  intros Hle. unfold liveAgents.
  induction m as [|[k r] m IH]; [reflexivity|]. simpl.
  destruct (isStale c r) eqn:S; simpl.
  - now rewrite (isStale_mono _ Hle S).
  - now rewrite IH.
Qed.

Lemma liveRegistry_twice (c c' : Z) (reg : Registry) :
  c <= c' -> liveRegistry c' (liveRegistry c reg) = liveRegistry c' reg.
Proof.
  intros Hle. unfold liveRegistry.
  induction reg as [|[a m] reg IH]; [reflexivity|].
  cbn [map filter fst snd].
  destruct (liveAgents c m) as [|e l] eqn:L.
  - rewrite IH. rewrite <- (liveAgents_twice m Hle), L. reflexivity.
  - cbn [map filter fst snd]. rewrite <- L, (liveAgents_twice m Hle), IH. reflexivity.
Qed.

(** X6. Sweeps compose: a sweep followed by a sweep at the same or a later
    clock reading leaves what the later sweep alone would leave.  In
    particular a sweep repeated at once changes nothing. *)
Theorem X6_later_sweep_subsumes_earlier (nowMs laterMs : Z) (reg : Registry) :
  wfRegistry reg ->
  nowMs <= laterMs ->
  cleanupInactiveAgents laterMs (cleanupInactiveAgents nowMs reg)
  = cleanupInactiveAgents laterMs reg.
Proof.
  intros Hwf Hle.
  pose proof (wf_cleanup nowMs Hwf) as [Hout' Hin'].
  pose proof Hwf as [Hout Hin].
  rewrite (cleanup_swept laterMs Hout'), swept_live by exact Hin'.
  rewrite !cleanup_swept, !swept_live by assumption.
  apply liveRegistry_twice. lia.
Qed.

Lemma sampleRegistry_wf : wfRegistry sampleRegistry.
Proof. exact (reachable_wf sampleRegistry_reachable). Qed.

Lemma X6_sweep_twice_witness :
  wfRegistry sampleRegistry
  /\ cleanupInactiveAgents sampleNow (cleanupInactiveAgents sampleNow sampleRegistry)
     = cleanupInactiveAgents sampleNow sampleRegistry.
Proof.
  split; [exact sampleRegistry_wf|].
  exact (@X6_later_sweep_subsumes_earlier sampleNow sampleNow sampleRegistry
           sampleRegistry_wf (Z.le_refl _)).
Defined.

(** ** A request followed by a sweep *)

(** X7. An agent whose request was recorded at clock reading [seenMs] is
    still in the registry, with the record that request left, after a sweep
    at any reading up to [seenMs] plus the inactivity window; a sweep later
    than that removes it. *)
Theorem X7_recent_agent_survives_sweep (seenMs nowMs : Z) (appName : string)
    (req : Request) (action : string) (version : option string) (reg : Registry) :
  wfRegistry reg ->
  let reg' := recordAgentStatus seenMs appName req action version reg in
  (exists agent, findAgent reg' appName (resolveAgentId req) = Some agent
                 /\ lastSeen agent = toISOString seenMs)
  /\ (nowMs <= seenMs + INACTIVITY_WINDOW ->
      findAgent (cleanupInactiveAgents nowMs reg') appName (resolveAgentId req)
      = findAgent reg' appName (resolveAgentId req))
  /\ (seenMs + INACTIVITY_WINDOW < nowMs ->
      findAgent (cleanupInactiveAgents nowMs reg') appName (resolveAgentId req) = None).
Proof.
  intros Hwf reg'.
  pose proof (wf_record seenMs appName req action version Hwf) as Hwf'.
  fold reg' in Hwf'.
  assert (F : exists agent, findAgent reg' appName (resolveAgentId req) = Some agent
                            /\ lastSeen agent = toISOString seenMs).
  { eexists. split; [apply findAgent_record_same | reflexivity]. }
  split; [exact F | split]; intros Hcmp; destruct F as (agent & F & L);
    rewrite findAgent_cleanup, F by assumption; unfold isStale; rewrite L; simpl.
  - destruct (Z.ltb_spec seenMs (nowMs - INACTIVITY_WINDOW)); [lia | reflexivity].
  - destruct (Z.ltb_spec seenMs (nowMs - INACTIVITY_WINDOW)); [reflexivity | lia].
Qed.

Lemma X7_recent_agent_witness :
  wfRegistry sampleRegistry
  /\ (exists agent,
        findAgent (cleanupInactiveAgents (sampleNow + INACTIVITY_WINDOW)
                     (recordAgentStatus sampleNow "robo" movedRequest "config_check" None
                        sampleRegistry)) "robo" "agent-1" = Some agent
        /\ requestCount agent = 2).
Proof.
  split; [exact sampleRegistry_wf|].
  destruct (@X7_recent_agent_survives_sweep sampleNow (sampleNow + INACTIVITY_WINDOW)
              "robo" movedRequest "config_check" None sampleRegistry sampleRegistry_wf)
    as (_ & Hkeep & _).
  eexists. split; [etransitivity; [exact (Hkeep (Z.le_refl _)) | reflexivity] | reflexivity].
Defined.

(** ** What a repeated request keeps and what it changes *)

(** X8. A request from an agent that has a record keeps the record's [id]
    and its [userAgent] (the client label is the one of the first contact),
    adds one to [requestCount], and replaces [lastAction].  The
    [currentVersion] is replaced only when a version was served with the
    request, and [localVersion] only when the request reports a non-empty
    one. *)
Theorem X8_repeat_request_update (nowMs : Z) (appName : string) (req : Request)
    (action : string) (version : option string) (reg : Registry) (agent : AgentState) :
  findAgent reg appName (resolveAgentId req) = Some agent ->
  exists agent',
    findAgent (recordAgentStatus nowMs appName req action version reg)
      appName (resolveAgentId req) = Some agent'
    /\ id agent' = id agent
    /\ userAgent agent' = userAgent agent
    /\ requestCount agent' = requestCount agent + 1
    /\ lastAction agent' = action
    /\ (forall v, sent version v -> currentVersion agent' = Some v)
    /\ (unsent version -> currentVersion agent' = currentVersion agent)
    /\ (forall v, sent (x_local_version req) v -> localVersion agent' = v)
    /\ (unsent (x_local_version req) -> localVersion agent' = localVersion agent).
Proof.
  intros F. eexists. split; [rewrite findAgent_record_same, F; reflexivity|].
  simpl. repeat split.
  - intros v [-> Hne]. simpl. destruct (String.eqb_spec v ""); [contradiction | reflexivity].
  - now intros [->| ->].
  - intros v Hs. rewrite (or_else_sent _ Hs). destruct Hs as [_ Hne].
    destruct (String.eqb_spec v ""); [contradiction | reflexivity].
  - intros Hu. now rewrite (or_else_unsent _ Hu).
Qed.

Lemma X8_repeat_request_witness :
  findAgent sampleRegistry "robo" (resolveAgentId movedRequest) <> None
  /\ exists agent',
       findAgent (recordAgentStatus sampleNow "robo" movedRequest "file_download" None
                    sampleRegistry) "robo" "agent-1" = Some agent'
       /\ userAgent agent' = "ota-agent/1.0"
       /\ currentVersion agent' = Some "2.0.0"
       /\ localVersion agent' = "1.9.0".
Proof.
  split; [discriminate|].
  destruct (@X8_repeat_request_update sampleNow "robo" movedRequest "file_download" None
              sampleRegistry _ eq_refl)
    as (agent' & F & _ & Hua & _ & _ & _ & Hcv & _ & Hlv).
  exists agent'. split; [exact F | split; [exact Hua | split]].
  - rewrite Hcv by (now left). reflexivity.
  - rewrite Hlv by (now left). reflexivity.
Defined.

(** ** Building a manifest *)

(** A run of the loop that ends well took every file. *)
Lemma buildFileList_success (h : Host) (base version appName : string)
    (files : list FileSpec) (log log' : list FsCall) (entries : list ManifestEntry) :
  buildFileList h base version appName files log = (inr entries, log') ->
  Forall (available h) files
  /\ entries = map (entryFor h base version appName) files
  /\ log' = (log ++ flat_map callsFor files)%list.
Proof.
  revert log log' entries.
  induction files as [|f files IH]; intros log log' entries; simpl.
  - unfold ret. intros [= <- <-]. rewrite app_nil_r. now repeat split.
  - unfold bind at 1.
    destruct (buildEntry_cases h base version appName f log)
      as [[_ ->]|[(p & _ & _ & ->)|[(p & _ & ->)|[Ha ->]]]]; try discriminate.
    unfold bind at 1.
    destruct (buildFileList h base version appName files (log ++ callsFor f)%list)
      as [[x|es] log2] eqn:L; [discriminate|].
    unfold ret. intros [= <- <-].
    destruct (IH _ _ _ L) as (Hall & -> & ->).
    split; [now constructor | split; [reflexivity | now rewrite app_assoc]].
Qed.

Lemma buildFileList_available (h : Host) (base version appName : string)
    (files : list FileSpec) (log : list FsCall) :
  Forall (available h) files ->
  buildFileList h base version appName files log
  = (inr (map (entryFor h base version appName) files),
     (log ++ flat_map callsFor files)%list).
Proof.
  intros Hall. revert log.
  induction Hall as [|f files Hf _ IH]; intros log; simpl.
  - unfold ret. now rewrite app_nil_r.
  - unfold bind at 1.
    destruct (buildEntry_cases h base version appName f log)
      as [[U _]|[(p & S & Ex & _)|[(p & (S & _ & Rd) & _)|[_ ->]]]].
    + destruct (available_not_unsent Hf U).
    + destruct Hf as (q & c & Sq & Exq & _). rewrite (sent_unique S Sq) in Ex. congruence.
    + destruct Hf as (q & c & Sq & _ & Rdq). rewrite (sent_unique S Sq) in Rd. congruence.
    + unfold bind at 1. rewrite IH. unfold ret. now rewrite app_assoc.
Qed.

(** X9. The builder succeeds exactly when [files] is not empty, [appName]
    is not empty, and every file has a non-empty path that exists and can
    be read. *)
Theorem X9_build_succeeds_iff_inputs_usable (h : Host) (files : list FileSpec)
    (version appName : string) (options : Options) :
  (exists result log,
      run (generateConfig h files version appName options) = (inr result, log))
  <-> files <> [] /\ appName <> "" /\ Forall (available h) files.
Proof.
  unfold run, generateConfig. split.
  - intros (result & log & H).
    destruct files as [|f files]; [discriminate|].
    cbn [List.length Nat.eqb] in H.
    destruct (String.eqb_spec appName ""); [discriminate|].
    unfold bind in H.
    destruct (buildFileList h (or_else (baseUrl options) (BASE_URL h)) version appName
                (f :: files) []) as [[x|entries] log1] eqn:L; [discriminate|].
    destruct (buildFileList_success _ _ _ _ _ _ L) as (Hall & _).
    split; [discriminate | split; assumption].
  - intros (Hne & Hname & Hall).
    destruct files as [|f files]; [contradiction|].
    cbn [List.length Nat.eqb].
    destruct (String.eqb_spec appName ""); [contradiction|].
    unfold bind. rewrite (buildFileList_available _ _ _ _ Hall). unfold ret.
    eexists. eexists. reflexivity.
Qed.

Lemma built_entries (h : Host) (files : list FileSpec)
    (version appName : string) (options : Options)
    (yaml : string) (config : Config) (log : list FsCall) :
  run (generateConfig h files version appName options) = (inr (yaml, config), log) ->
  c_files config
  = map (entryFor h (or_else (baseUrl options) (BASE_URL h)) version appName) files.
Proof.
  unfold run, generateConfig.
  destruct (List.length files =? 0)%nat; [discriminate|].
  destruct (String.eqb appName ""); [discriminate|].
  unfold bind.
  destruct (buildFileList h (or_else (baseUrl options) (BASE_URL h)) version appName files [])
    as [[x|entries] log1] eqn:L; [discriminate|].
  unfold ret. intros [= _ <- _]. cbn [c_files].
  now destruct (buildFileList_success _ _ _ _ _ _ L) as (_ & -> & _).
Qed.

(** X10. When the builder succeeds, the manifest has one entry per file, in
    the order of [files]: the entry's name is the file's name or else the
    base name of its path, its URL is the base URL followed by
    [/ota/<appName>/files/<base name>], and its digest is the digest of the
    file's content.  Each file was checked for existence and read once, in
    order, and nothing else was touched. *)
Theorem X10_build_result (h : Host) (files : list FileSpec)
    (version appName : string) (options : Options)
    (yaml : string) (config : Config) (log : list FsCall) :
  run (generateConfig h files version appName options) = (inr (yaml, config), log) ->
  c_version config = version
  /\ c_files config
     = map (entryFor h (or_else (baseUrl options) (BASE_URL h)) version appName) files
  /\ log = flat_map callsFor files.
Proof.
  unfold run, generateConfig.
  destruct (List.length files =? 0)%nat; [discriminate|].
  destruct (String.eqb appName ""); [discriminate|].
  unfold bind.
  destruct (buildFileList h (or_else (baseUrl options) (BASE_URL h)) version appName files [])
    as [[x|entries] log1] eqn:L; [discriminate|].
  unfold ret. intros [= _ <- <-]. cbn [c_files c_version].
  destruct (buildFileList_success _ _ _ _ _ _ L) as (_ & -> & ->).
  now repeat split.
Qed.

Lemma X10_build_result_witness :
  exists yaml config,
    run (generateConfig sampleHost [roboBinary; plainBinary] "2.0.0" "robo" noOptions)
    = (inr (yaml, config),
       [ CallExists "/srv/apps/robo/files/robo.bin"; CallRead "/srv/apps/robo/files/robo.bin";
         CallExists "/srv/apps/robo/files/robo.bin"; CallRead "/srv/apps/robo/files/robo.bin" ])
    /\ map e_url (c_files config)
       = [ "http://localhost:3000/ota/robo/files/robo.bin";
           "http://localhost:3000/ota/robo/files/robo.bin" ]
    /\ map e_name (c_files config) = ["robo.bin"; "robo-tools"].
Proof.
  do 2 eexists. split; [reflexivity|].
  destruct (@X10_build_result sampleHost [roboBinary; plainBinary] "2.0.0" "robo" noOptions
              _ _ _ eq_refl) as (_ & E & _).
  rewrite E. split; reflexivity.
Defined.

(** X11. A file that exists but cannot be read stops the build with the
    error of the read itself, passed on as it is: the files before it have
    been checked and read, the file has been checked and the read tried,
    and no later file is touched. *)
Theorem X11_read_failure_propagates (h : Host) (version appName : string)
    (options : Options) (pre : list FileSpec) (file : FileSpec) (post : list FileSpec)
    (p : string) :
  appName <> "" ->
  Forall (available h) pre ->
  unreadable h file p ->
  run (generateConfig h (pre ++ file :: post)%list version appName options)
  = (inl (ReadError p), (flat_map callsFor pre ++ [CallExists p; CallRead p])%list).
Proof.
  intros Hname Hpre Hbad. unfold run, generateConfig.
  replace ((List.length (pre ++ file :: post) =? 0)%nat) with false by (now destruct pre).
  destruct (String.eqb_spec appName ""); [contradiction|].
  unfold bind at 1.
  assert (L : forall base log,
    buildFileList h base version appName (pre ++ file :: post)%list log
    = (inl (ReadError p), (log ++ flat_map callsFor pre ++ [CallExists p; CallRead p])%list)).
  { intros base. induction Hpre as [|g pre Hg _ IH]; intros log; simpl.
    - unfold bind.
      destruct (buildEntry_cases h base version appName file log)
        as [[U _]|[(q & S & Ex & _)|[(q & (S & _ & _) & ->)|[Ha _]]]].
      + destruct Hbad as ([E Hne] & _). destruct U as [U|U]; rewrite E in U;
          [discriminate | injection U as ->; now destruct Hne].
      + destruct Hbad as (Sp & Exp & _). rewrite (sent_unique S Sp) in Ex. congruence.
      + destruct Hbad as (Sp & _). now rewrite (sent_unique S Sp).
      + destruct Ha as (q & c & Sq & _ & Rd). destruct Hbad as (Sp & _ & Rdp).
        rewrite (sent_unique Sq Sp) in Rd. congruence.
    - unfold bind at 1.
      destruct (buildEntry_cases h base version appName g log)
        as [[U _]|[(q & S & Ex & _)|[(q & (S & _ & Rd) & _)|[_ ->]]]].
      + destruct (available_not_unsent Hg U).
      + destruct Hg as (q' & c & Sq & Exq & _). rewrite (sent_unique S Sq) in Ex. congruence.
      + destruct Hg as (q' & c & Sq & _ & Rdq). rewrite (sent_unique S Sq) in Rd. congruence.
      + unfold bind at 1. rewrite IH. now rewrite <- !app_assoc. }
  now rewrite L.
Qed.

Lemma X11_read_failure_witness :
  unreadable hostWithDirectory directoryEntry "/srv/apps/robo/files/old"
  /\ run (generateConfig hostWithDirectory [roboBinary; directoryEntry; missingBinary]
            "2.0.0" "robo" noOptions)
     = (inl (ReadError "/srv/apps/robo/files/old"),
        [ CallExists "/srv/apps/robo/files/robo.bin"; CallRead "/srv/apps/robo/files/robo.bin";
          CallExists "/srv/apps/robo/files/old"; CallRead "/srv/apps/robo/files/old" ]).
Proof.
  assert (U : unreadable hostWithDirectory directoryEntry "/srv/apps/robo/files/old")
    by (split; [split; [reflexivity | discriminate] | split; reflexivity]).
  assert (A : Forall (available hostWithDirectory) [roboBinary]).
  { constructor; [|constructor].
    exists "/srv/apps/robo/files/robo.bin", "0123456789".
    split; [split; [reflexivity | discriminate] | split; reflexivity]. }
  split; [exact U|].
  exact (@X11_read_failure_propagates hostWithDirectory "2.0.0" "robo" noOptions
           [roboBinary] directoryEntry [missingBinary] _ ltac:(discriminate) A U).
Defined.

(** The text and the settings of a manifest that was built. *)
Lemma generateConfig_success (h : Host) (files : list FileSpec)
    (version appName : string) (options : Options)
    (yaml : string) (config : Config) (log : list FsCall) :
  run (generateConfig h files version appName options) = (inr (yaml, config), log) ->
  c_restart_cmd config
  = asTruthy (Some (match restartCmd options with
                    | Some cmd => cmd
                    | None => RESTART_CMD h
                    end))
  /\ yaml = concatAll ([manifestHeader version]
                       ++ flat_map (entryLines version) (c_files config)
                       ++ trailerLines config)%list.
Proof.
  unfold run, generateConfig.
  destruct (List.length files =? 0)%nat; [discriminate|].
  destruct (String.eqb appName ""); [discriminate|].
  unfold bind.
  destruct (buildFileList h (or_else (baseUrl options) (BASE_URL h)) version appName files [])
    as [[x|entries] log1] eqn:L; [discriminate|].
  unfold ret. intros [= <- <- _]. cbn [c_files c_version c_restart_cmd].
  split; [reflexivity|].
  assert (Hinv : Forall (fun e => e_version e = "" -> version = "") entries).
  { destruct (buildFileList_success _ _ _ _ _ _ L) as (_ & -> & _).
    apply Forall_forall. intros e I. apply in_map_iff in I as (f & <- & _).
    apply effectiveVersion_empty. }
  rewrite (fold_appendEntry _ Hinv).
  fold (manifestHeader version).
  unfold trailerLines. cbn [c_restart_cmd].
  destruct (asTruthy _) as [cmd|];
    rewrite !concatAll_app; cbn [concatAll fold_right];
    rewrite ?append_empty_r; [rewrite append_assoc|]; reflexivity.
Qed.

(** X12. The restart command of a manifest is the [restartCmd] option when
    one is given, even an empty one, and the [RESTART_CMD] setting
    otherwise; the text ends with a [restart_cmd] line exactly when that
    command is not empty.  The base URL, unlike it, falls back to the
    [BASE_URL] setting also when the option is given empty. *)
Theorem X12_restart_command_resolution (h : Host) (files : list FileSpec)
    (version appName : string) (options : Options)
    (yaml : string) (config : Config) (log : list FsCall) :
  run (generateConfig h files version appName options) = (inr (yaml, config), log) ->
  (restartCmd options = Some "" -> c_restart_cmd config = None)
  /\ (forall cmd, sent (restartCmd options) cmd -> c_restart_cmd config = Some cmd)
  /\ (restartCmd options = None ->
      (forall cmd, RESTART_CMD h = cmd -> cmd <> "" -> c_restart_cmd config = Some cmd)
      /\ (RESTART_CMD h = "" -> c_restart_cmd config = None))
  /\ yaml = (concatAll (manifestHeader version
                        :: flat_map (entryLines version) (c_files config))
             ++ match c_restart_cmd config with
                | Some cmd => "restart_cmd: '" ++ cmd ++ "'" ++ nl
                | None => ""
                end)%string
  /\ (unsent (baseUrl options) ->
      c_files config = map (entryFor h (BASE_URL h) version appName) files).
Proof.
  intros H.
  destruct (generateConfig_success _ _ _ _ _ H) as (Hcmd & Hyaml).
  pose proof (built_entries _ _ _ _ _ H) as Hfiles.
  split; [|split; [|split; [|split]]].
  - intros E. now rewrite Hcmd, E.
  - intros cmd [E Hne]. rewrite Hcmd, E. unfold asTruthy, truthy.
    destruct (String.eqb_spec cmd ""); [contradiction | reflexivity].
  - intros E. rewrite Hcmd, E. split.
    + intros cmd <- Hne. unfold asTruthy, truthy.
      destruct (String.eqb_spec (RESTART_CMD h) ""); [contradiction | reflexivity].
    + now intros ->.
  - rewrite Hyaml. change ([manifestHeader version] ++ ?l)%list with (manifestHeader version :: l).
    rewrite app_comm_cons, concatAll_app. f_equal.
    unfold trailerLines. destruct (c_restart_cmd config); cbn; now rewrite ?append_empty_r.
  - intros U. now rewrite Hfiles, (or_else_unsent _ U).
Qed.

Lemma X12_restart_command_witness :
  exists yaml config log,
    run (generateConfig hostWithDirectory [roboBinary] "2.0.0" "robo" quietOptions)
    = (inr (yaml, config), log)
    /\ RESTART_CMD hostWithDirectory = "systemctl restart robo"
    /\ c_restart_cmd config = None
    /\ map e_url (c_files config) = ["http://localhost:3000/ota/robo/files/robo.bin"].
Proof.
  do 3 eexists. split; [reflexivity | split; [reflexivity|]].
  destruct (@X12_restart_command_resolution hostWithDirectory [roboBinary] "2.0.0" "robo"
              quietOptions _ _ _ eq_refl) as (Hquiet & _ & _ & _ & Hbase).
  split; [exact (Hquiet eq_refl)|].
  rewrite Hbase by (right; reflexivity). reflexivity.
Defined.

Lemma restartLine_not_fileLines (e : ManifestEntry) : restartLine <> fileLines e.
Proof. discriminate. Qed.

(** X13. In the text of every manifest that is built, a file's pieces end
    with the line [restart: true] exactly when the file was given with its
    restart flag set. *)
Theorem X13_restart_line_iff_flag (h : Host) (files : list FileSpec)
    (version appName : string) (options : Options)
    (yaml : string) (config : Config) (log : list FsCall) :
  run (generateConfig h files version appName options) = (inr (yaml, config), log) ->
  map e_restart (c_files config) = map f_restart files
  /\ yaml = concatAll ([manifestHeader version]
                       ++ flat_map (entryLines version) (c_files config)
                       ++ trailerLines config)%list
  /\ forall e, In e (c_files config) ->
       (In restartLine (entryLines version e) <-> e_restart e = true)
       /\ (e_restart e = true -> last (entryLines version e) "" = restartLine).
Proof.
  intros H.
  destruct (generateConfig_success _ _ _ _ _ H) as (_ & Hyaml).
  pose proof (built_entries _ _ _ _ _ H) as Hfiles.
  split; [|split; [exact Hyaml|]].
  - rewrite Hfiles, map_map. reflexivity.
  - intros e _. unfold entryLines. split.
    + destruct (e_restart e); split.
      * reflexivity.
      * intros _. apply in_or_app. right. apply in_or_app. right. now left.
      * cbn [app]. rewrite app_nil_r. intros [F|I].
        -- symmetry in F. now apply restartLine_not_fileLines in F.
        -- destruct (String.eqb (e_version e) version); simpl in I; [destruct I|].
           destruct I as [V|I]; [|destruct I]. now apply versionLine_not_restartLine in V.
      * discriminate.
    + intros ->. now destruct (String.eqb (e_version e) version).
Qed.

Lemma X13_restart_line_witness :
  exists yaml config log e1 e2,
    run (generateConfig sampleHost [roboBinary; plainBinary] "2.0.0" "robo" noOptions)
    = (inr (yaml, config), log)
    /\ c_files config = [e1; e2]
    /\ In restartLine (entryLines "2.0.0" e1)
    /\ ~ In restartLine (entryLines "2.0.0" e2).
Proof.
  do 5 eexists. split; [reflexivity | split; [reflexivity|]].
  destruct (@X13_restart_line_iff_flag sampleHost [roboBinary; plainBinary]
              "2.0.0" "robo" noOptions _ _ _ eq_refl) as (_ & _ & Hiff).
  split.
  - apply (proj1 (Hiff _ (or_introl eq_refl))). reflexivity.
  - intros I. apply (proj1 (Hiff _ (or_intror (or_introl eq_refl)))) in I. discriminate I.
Defined.

(** ** The resolved address *)

Lemma occurs_splitFirst (sep : ascii) (s : string) : occurs sep (splitFirst sep s) = false.
Proof.
  induction s as [|c s IH]; simpl; [reflexivity|].
  destruct (Ascii.eqb_spec c sep) as [->|Hne]; simpl; [reflexivity|].
  rewrite IH. destruct (Ascii.eqb_spec sep c); [congruence | reflexivity].
Qed.

Lemma occurs_trimStart (c : ascii) (s : string) :
  occurs c s = false -> occurs c (trimStart s) = false.
Proof.
  induction s as [|x s IH]; simpl; [trivial|].
  intros H. apply orb_false_iff in H as [Hx Hs].
  destruct (isWhiteSpace x); [now apply IH|]. simpl. now rewrite Hx, Hs.
Qed.

Lemma occurs_trimEnd (c : ascii) (s : string) :
  occurs c s = false -> occurs c (trimEnd s) = false.
Proof.
  induction s as [|x s IH]; simpl; [trivial|].
  intros H. apply orb_false_iff in H as [Hx Hs]. specialize (IH Hs).
  destruct (trimEnd s) as [|y r].
  - destruct (isWhiteSpace x); simpl; [reflexivity | now rewrite Hx].
  - cbn [occurs] in *. now rewrite Hx, IH.
Qed.

Lemma firstChar_trimStart (s : string) (c : ascii) :
  firstChar (trimStart s) = Some c -> isWhiteSpace c = false.
Proof.
  induction s as [|x s IH]; simpl; [discriminate|].
  destruct (isWhiteSpace x) eqn:W; [exact IH|]. simpl. now intros [= <-].
Qed.

Lemma firstChar_trimEnd (s : string) (c : ascii) :
  firstChar (trimEnd s) = Some c -> firstChar s = Some c.
Proof.
  destruct s as [|x s]; simpl; [trivial|].
  destruct (trimEnd s); [destruct (isWhiteSpace x)|]; simpl; trivial; discriminate.
Qed.

Lemma lastChar_trimEnd (s : string) (c : ascii) :
  lastChar (trimEnd s) = Some c -> isWhiteSpace c = false.
Proof.
  induction s as [|x s IH]; simpl; [discriminate|].
  destruct (trimEnd s) as [|y r].
  - destruct (isWhiteSpace x) eqn:W; simpl; [discriminate | now intros [= <-]].
  - exact IH.
Qed.

Lemma trim_trimmed (s : string) : trimmed (trim s).
Proof.
  unfold trim. split.
  - intros c H. apply firstChar_trimEnd in H. now apply firstChar_trimStart in H.
  - intros c. apply lastChar_trimEnd.
Qed.

(** What [trim] and [split] leave out: white space before and after, and
    the text from the first separator on. *)
Lemma trimStart_padding (s : string) :
  exists lead, blank lead = true /\ s = lead ++ trimStart s.
Proof.
  induction s as [|c s (lead & B & E)]; cbn [trimStart].
  - now exists "".
  - destruct (isWhiteSpace c) eqn:W.
    + exists (String c lead). cbn [blank append]. rewrite W, B. split; [reflexivity|].
      now rewrite <- E.
    + now exists "".
Qed.

Lemma trimEnd_padding (s : string) :
  exists trail, blank trail = true /\ s = trimEnd s ++ trail.
Proof.
  induction s as [|c s (trail & B & E)]; cbn [trimEnd].
  - now exists "".
  - destruct (trimEnd s) as [|y r].
    + cbn [append] in E. subst s. destruct (isWhiteSpace c) eqn:W.
      * exists (String c trail). cbn [blank append]. now rewrite W, B.
      * exists trail. split; [exact B | reflexivity].
    + exists trail. split; [exact B|]. cbn [append]. f_equal. exact E.
Qed.

Lemma splitFirst_rest (sep : ascii) (s : string) :
  s = splitFirst sep s \/ exists rest, s = splitFirst sep s ++ String sep rest.
Proof.
  induction s as [|c s [E|(rest & E)]]; cbn [splitFirst].
  - now left.
  - destruct (Ascii.eqb_spec c sep) as [->|_].
    + right. now exists s.
    + left. now rewrite <- E.
  - destruct (Ascii.eqb_spec c sep) as [->|_].
    + right. now exists s.
    + right. exists rest. cbn [append]. now rewrite <- E.
Qed.

(** X14. When the forwarding header counts, the address taken from it is
    the first entry of the list without its padding: the header is some
    white space, the address, some white space again and then either
    nothing or a comma and the rest; there is no comma before that one;
    and the address neither starts nor ends with white space (the
    no-break space included). *)
Theorem X14_forwarded_address_is_one_trimmed_entry (req : Request) (forwarded : string) :
  sent (x_forwarded_for req) forwarded ->
  exists lead trail rest,
    blank lead = true /\ blank trail = true
    /\ (forwarded = lead ++ getClientIP req ++ trail
        \/ forwarded = (lead ++ getClientIP req ++ trail) ++ "," ++ rest)
    /\ occurs "," (lead ++ getClientIP req ++ trail) = false
    /\ trimmed (getClientIP req).
Proof.
  intros Hf. unfold getClientIP. rewrite (truthy_sent Hf).
  destruct (trimStart_padding (splitFirst "," forwarded)) as (lead & Bl & El).
  destruct (trimEnd_padding (trimStart (splitFirst "," forwarded))) as (trail & Bt & Et).
  assert (E : splitFirst "," forwarded
              = lead ++ trim (splitFirst "," forwarded) ++ trail).
  { unfold trim. now rewrite <- Et. }
  exists lead, trail.
  destruct (splitFirst_rest "," forwarded) as [S|(rest & S)].
  - exists "". rewrite <- E. repeat split; trivial.
    + now left.
    + apply occurs_splitFirst.
    + apply (trim_trimmed (splitFirst "," forwarded)).
    + apply (trim_trimmed (splitFirst "," forwarded)).
  - exists rest. rewrite <- E. repeat split; trivial.
    + right. exact S.
    + apply occurs_splitFirst.
    + apply (trim_trimmed (splitFirst "," forwarded)).
    + apply (trim_trimmed (splitFirst "," forwarded)).
Qed.

Lemma X14_forwarded_address_witness :
  sent (x_forwarded_for paddedRequest) (nbsp ++ "1.2.3.4" ++ nbsp ++ ", 10.0.0.1")
  /\ getClientIP paddedRequest = "1.2.3.4"
  /\ trimmed (getClientIP paddedRequest).
Proof.
  assert (F : sent (x_forwarded_for paddedRequest)
                (nbsp ++ "1.2.3.4" ++ nbsp ++ ", 10.0.0.1"))
    by (split; [reflexivity | discriminate]).
  split; [exact F | split; [reflexivity|]].
  destruct (@X14_forwarded_address_is_one_trimmed_entry paddedRequest _ F)
    as (_ & _ & _ & _ & _ & _ & _ & T).
  exact T.
Defined.

(** ** Base names *)

Lemma splitPath_not_nil (s : string) : splitPath s <> [].
Proof.
  induction s as [|c s IH]; cbn [splitPath]; [discriminate|].
  destruct (Ascii.eqb c "/"); [discriminate|].
  destruct (splitPath s); [contradiction | discriminate].
Qed.

Lemma splitPath_no_slash (s : string) :
  occurs "/" s = false -> splitPath s = [s].
Proof.
  induction s as [|c s IH]; cbn [occurs splitPath]; [reflexivity|].
  intros H. apply orb_false_iff in H as [Hc Hs].
  rewrite Ascii.eqb_sym in Hc. rewrite Hc, (IH Hs). reflexivity.
Qed.

Lemma splitPath_pieces (s seg : string) :
  In seg (splitPath s) -> occurs "/" seg = false.
Proof.
  revert seg. induction s as [|c s IH]; cbn [splitPath]; intros seg.
  - intros [<-|[]]. reflexivity.
  - destruct (Ascii.eqb_spec c "/") as [->|Hne].
    + intros [<-|I]; [reflexivity | now apply IH].
    + pose proof (splitPath_not_nil s) as Hnn.
      destruct (splitPath s) as [|seg0 segs]; [contradiction|].
      intros [<-|I]; [|apply IH; now right].
      cbn [occurs]. destruct (Ascii.eqb_spec "/"%char c); [congruence|].
      apply IH. now left.
Qed.

Lemma splitPath_join (dir name : string) :
  splitPath (dir ++ "/" ++ name) = (splitPath dir ++ splitPath name)%list.
Proof.
  induction dir as [|c dir IH]; [reflexivity|].
  change (String c dir ++ "/" ++ name)%string with (String c (dir ++ "/" ++ name)).
  cbn [splitPath].
  destruct (Ascii.eqb c "/"); [now rewrite IH|].
  rewrite IH. pose proof (splitPath_not_nil dir) as Hnn.
  destruct (splitPath dir); [contradiction | reflexivity].
Qed.

Lemma last_app_singleton (A : Type) (l : list A) (x d : A) : last (l ++ [x]) d = x.
Proof.
  induction l as [|y l IH]; [reflexivity|].
  simpl. destruct (l ++ [x])%list eqn:E; [now destruct l | exact IH].
Qed.

(** X15. A base name never contains a slash, and the base name of a file
    name appended to a directory with a slash is that file name (when it is
    not empty and has no slash of its own).  In every manifest that is
    built, the URL of an entry is the base URL, [/ota/<appName>/files/]
    and the base name of the path of one of the files: it ends in one path
    segment. *)
Theorem X15_basename_is_last_segment (p dir name : string) :
  occurs "/" (basename p) = false
  /\ (name <> "" -> occurs "/" name = false -> basename (dir ++ "/" ++ name) = name)
  /\ (forall h files version appName options yaml config log e,
        run (generateConfig h files version appName options) = (inr (yaml, config), log) ->
        In e (c_files config) ->
        exists file,
          In file files
          /\ e_url e = or_else (baseUrl options) (BASE_URL h) ++ "/ota/" ++ appName
                       ++ "/files/" ++ basename (pathOf file)
          /\ occurs "/" (basename (pathOf file)) = false).
Proof.
  assert (Hbase : forall q, occurs "/" (basename q) = false).
  { intros q. unfold basename.
    assert (H : forall l, (forall seg, In seg l -> occurs "/" seg = false) ->
                          occurs "/" (last l "") = false).
    { induction l as [|x l IH]; intros Hl; [reflexivity|].
      destruct l as [|y l]; [apply Hl; now left|].
      change (last (x :: y :: l) "") with (last (y :: l) "").
      apply IH. intros seg I. apply Hl. now right. }
    apply H. intros seg I. apply filter_In in I as [I _].
    exact (splitPath_pieces _ _ I). }
  split; [apply Hbase | split].
  2:{ intros h files version appName options yaml config log e Hrun I.
      rewrite (built_entries _ _ _ _ _ Hrun) in I.
      apply in_map_iff in I as (file & <- & I).
      exists file. split; [exact I | split; [reflexivity | apply Hbase]]. }
  - intros Hne Hslash. unfold basename.
    rewrite splitPath_join, filter_app, (splitPath_no_slash _ Hslash). simpl.
    destruct (String.eqb_spec name ""); [contradiction|]. simpl.
    apply last_app_singleton.
Qed.

(** ** Filters of the record query *)

Lemma asTruthy_cases (v : option string) :
  (unsent v /\ asTruthy v = None) \/ (exists s, sent v s /\ asTruthy v = Some s).
Proof.
  destruct v as [s|]; [|left; split; [now left | reflexivity]].
  destruct (String.eqb_spec s "") as [->|Hne].
  - left. split; [now right | reflexivity].
  - right. exists s. split; [now split|]. unfold asTruthy, truthy.
    now destruct (String.eqb_spec s "").
Qed.

Lemma sent_not_unsent (v : option string) (s : string) : sent v s -> unsent v -> False.
Proof.
  intros [-> Hne] [U|U]; [discriminate | injection U as ->; now apply Hne].
Qed.

Lemma rowMatches_type (params : list SqlParam) (cs : list Clause) (t : string)
    (r : GameRecord) :
  rowMatches (TypeEquals :: cs) (PText t :: params) r
  = (sql_eq_text (rec_type r) t && rowMatches cs params r)%bool.
Proof. reflexivity. Qed.

Lemma sql_eq_text_iff (x : option string) (t : string) :
  sql_eq_text x t = true <-> x = Some t.
Proof.
  destruct x as [a|]; simpl; [|split; discriminate].
  rewrite String.eqb_eq. split; [now intros -> | now intros [= ->]].
Qed.

Lemma sql_eq_num_iff (x : option Z) (p : JsNumber) :
  sql_eq_num x p = true <-> exists n, p = Num n /\ x = Some n.
Proof.
  destruct x as [a|], p as [z|]; simpl; try (split; [discriminate | intros (n & E & E'); discriminate]).
  rewrite Z.eqb_eq. split.
  - intros ->. now exists z.
  - intros (n & [= ->] & [= ->]). reflexivity.
Qed.

(** The clauses of a query without a date. *)
Lemma rowMatches_no_date (parseDate parseInt : string -> JsNumber)
    (type duration : option string) (r : GameRecord) :
  rowMatches (fst (buildQuery parseDate parseInt None type duration))
    (snd (buildQuery parseDate parseInt None type duration)) r = true
  <-> typeAdmits type r /\ durationAdmits parseInt duration r.
Proof.
  unfold buildQuery, typeAdmits, durationAdmits.
  change (asTruthy None) with (@None string). cbv iota beta.
  destruct (asTruthy_cases type) as [[Ut ->]|(t & St & ->)];
    destruct (asTruthy_cases duration) as [[Ud ->]|(d & Sd & ->)];
    cbn [fst snd app rowMatches]; rewrite ?andb_true_r, ?andb_true_iff.
  - split; [intros _; split; now left | reflexivity].
  - rewrite sql_eq_num_iff. split.
    + intros (n & E & E'). split; [now left | right; now exists d, n].
    + intros [_ [U|(d' & n & Sd' & E & E')]]; [destruct (sent_not_unsent Sd U)|].
      rewrite (sent_unique Sd Sd'). now exists n.
  - rewrite sql_eq_text_iff. split.
    + intros E. split; [right; now exists t | now left].
    + intros [[U|(t' & St' & E)] _]; [destruct (sent_not_unsent St U)|].
      now rewrite (sent_unique St St').
  - rewrite sql_eq_text_iff, sql_eq_num_iff. split.
    + intros [E (n & En & E')]. split; right; [now exists t | now exists d, n].
    + intros [[U|(t' & St' & E)] [U'|(d' & n & Sd' & En & E')]];
        try (destruct (sent_not_unsent St U)); try (destruct (sent_not_unsent Sd U')).
      rewrite (sent_unique St St'), (sent_unique Sd Sd'). split; [exact E | now exists n].
Qed.

Lemma rowMatches_with_date (parseDate parseInt : string -> JsNumber)
    (date type duration : option string) (r : GameRecord) :
  rowMatches (fst (buildQuery parseDate parseInt date type duration))
    (snd (buildQuery parseDate parseInt date type duration)) r = true
  <-> dateAdmits parseDate date r
      /\ rowMatches (fst (buildQuery parseDate parseInt None type duration))
           (snd (buildQuery parseDate parseInt None type duration)) r = true.
Proof.
  destruct (asTruthy_cases date) as [[U E]|(d & S & E)].
  - assert (Q : buildQuery parseDate parseInt date type duration
                = buildQuery parseDate parseInt None type duration).
    { unfold buildQuery. rewrite E. reflexivity. }
    rewrite Q. split; [intros H; split; [now left | exact H] | now intros [_ H]].
  - assert (Q : buildQuery parseDate parseInt date type duration
                = buildQuery parseDate parseInt (Some d) type duration).
    { unfold buildQuery. rewrite E.
      replace (asTruthy (Some d)) with (Some d); [reflexivity|].
      destruct S as [_ Hne]. unfold asTruthy, truthy.
      now destruct (String.eqb_spec d ""). }
    rewrite Q, rowMatches_date by (now destruct S).
    rewrite !andb_true_iff. unfold dateAdmits. split.
    + intros [[Hge Hlt] H]. split; [|exact H]. right.
      destruct (startOfDayLocal parseDate d) as [start|] eqn:Es; [|discriminate].
      exists d, start. simpl in Hge, Hlt. apply Z.leb_le in Hge. apply Z.ltb_lt in Hlt.
      repeat split; trivial; now destruct S.
    + intros [[U|(d' & start & S' & Es & Hge & Hlt)] H]; [destruct (sent_not_unsent S U)|].
      rewrite (sent_unique S S'), Es. simpl.
      split; [split; [now apply Z.leb_le | now apply Z.ltb_lt] | exact H].
Qed.

(** X16. The three filters of the record query combine by conjunction: a
    stored row is returned exactly when it passes the date filter, the
    type filter and the duration filter.  A filter that is absent or empty
    passes every row; a type filter passes the rows whose type is that
    text, a duration filter the rows whose duration is the number
    [parseInt] reads from the text, so that rows without a type or
    duration pass neither; a date filter passes the rows stamped within
    86 400 seconds from the instant the date parser of the engine gives
    for midnight of the date, whatever text the date is, and no row when
    the parser reads no date in it. *)
Theorem X16_filters_combine (parseDate parseInt : string -> JsNumber)
    (table : list GameRecord) (date type duration : option string) (r : GameRecord) :
  In r (queryGameRecords parseDate parseInt table date type duration)
  <-> In r table
      /\ dateAdmits parseDate date r
      /\ typeAdmits type r
      /\ durationAdmits parseInt duration r.
Proof.
  rewrite in_query, rowMatches_with_date, rowMatches_no_date. tauto.
Qed.

(** ** Order of the rows returned *)

Lemma insertDesc_same_rows (row : GameRecord) (sorted : list GameRecord) :
  Permutation (row :: sorted) (insertDesc row sorted).
Proof.
  induction sorted as [|r rest IH]; simpl; [apply Permutation_refl|].
  destruct (rec_timestamp r <? rec_timestamp row); [apply Permutation_refl|].
  eapply perm_trans; [apply perm_swap | now apply perm_skip].
Qed.

Lemma orderDesc_same_rows (rows : list GameRecord) : Permutation rows (orderDesc rows).
Proof.
  unfold orderDesc. induction rows as [|row rows IH]; simpl; [constructor|].
  eapply perm_trans; [apply perm_skip, IH | apply insertDesc_same_rows].
Qed.

Lemma insertDesc_newestFirst (row : GameRecord) (sorted : list GameRecord) :
  newestFirst sorted -> newestFirst (insertDesc row sorted).
Proof.
  unfold newestFirst. induction 1 as [|r rest Hrest IH Hall]; simpl.
  - repeat constructor.
  - destruct (Z.ltb_spec (rec_timestamp r) (rec_timestamp row)) as [Hlt|Hge].
    + constructor; [now constructor|].
      constructor; [lia|].
      eapply Forall_impl; [|exact Hall]. simpl. intros b Hb. lia.
    + constructor; [exact IH|].
      apply Forall_forall. intros b Ib.
      apply in_insertDesc in Ib as [->|Ib]; [exact Hge|].
      rewrite Forall_forall in Hall. now apply Hall.
Qed.

Lemma orderDesc_newestFirst (rows : list GameRecord) : newestFirst (orderDesc rows).
Proof.
  unfold orderDesc. induction rows as [|row rows IH]; simpl.
  - constructor.
  - now apply insertDesc_newestFirst.
Qed.

(** X17. The rows of a query come newest first: no row is followed by one
    with a later timestamp.  They are the stored rows that satisfy the
    clauses of the query, each as often as it is stored. *)
Theorem X17_rows_newest_first (parseDate parseInt : string -> JsNumber)
    (table : list GameRecord) (date type duration : option string) :
  newestFirst (queryGameRecords parseDate parseInt table date type duration)
  /\ Permutation
       (filter (rowMatches (fst (buildQuery parseDate parseInt date type duration))
                  (snd (buildQuery parseDate parseInt date type duration))) table)
       (queryGameRecords parseDate parseInt table date type duration)
  /\ (List.length (queryGameRecords parseDate parseInt table date type duration)
      <= List.length table)%nat.
Proof.
  unfold queryGameRecords.
  destruct (buildQuery parseDate parseInt date type duration) as [clauses params].
  cbn [fst snd].
  split; [apply orderDesc_newestFirst | split; [apply orderDesc_same_rows|]].
  rewrite <- (Permutation_length (orderDesc_same_rows _)). apply filter_length_le.
Qed.

(** The model at work: the day, type and duration filters together, on a
    table with a row at each end of the day and rows without type or
    duration. *)
Example arcadeTable_query :
  map rec_id (queryGameRecords (dateGetTime utc) parseDigits arcadeTable
                (Some "2024-03-10") (Some "arcade") (Some "90"))
  = [4; 1].
Proof. vm_compute. reflexivity. Qed.

(** ** Reading the version back from a manifest *)

Lemma backtrack_first (R : Type) (k lo : nat) (attempt : nat -> option R) (r : R) :
  attempt k = Some r -> backtrack k lo attempt = Some r.
Proof. intros H. destruct k; simpl; now rewrite H. Qed.

Lemma backtrack_exact (R : Type) (k : nat) (attempt : nat -> option R) :
  backtrack k k attempt = attempt k.
Proof.
  destruct k as [|k]; cbn [backtrack].
  - now destruct (attempt 0%nat).
  - destruct (attempt (S k)); [reflexivity|].
    assert (E : (S k <=? k)%nat = false) by (apply Nat.leb_gt; lia).
    now rewrite E.
Qed.

Lemma span_stops (cls : ascii -> bool) (v : string) (c : ascii) (rest : string) :
  allChars cls v = true -> cls c = false ->
  span cls (v ++ String c rest) = String.length v.
Proof.
  intros Hv Hc. induction v as [|x v IH]; simpl.
  - now rewrite Hc.
  - simpl in Hv. apply andb_prop in Hv as [Hx Hv]. now rewrite Hx, IH.
Qed.

Lemma takeChars_length (v rest : string) : takeChars (String.length v) (v ++ rest) = v.
Proof. induction v as [|x v IH]; simpl; [now destruct rest | now rewrite IH]. Qed.

Lemma dropChars_length (v rest : string) : dropChars (String.length v) (v ++ rest) = rest.
Proof. induction v as [|x v IH]; simpl; [now destruct rest | exact IH]. Qed.

(** A literal at the start of the pattern consumes itself. *)
Lemma matchItems_literal (atEnd : bool) (lit : string) (items : list Item)
    (s : string) (caps : Captures) :
  matchItems atEnd (literal lit ++ items)%list (lit ++ s) caps
  = matchItems atEnd items s caps.
Proof.
  induction lit as [|c lit IH]; [reflexivity|].
  cbn [literal app append matchItems itemQuant itemClass itemGroup span bounds].
  rewrite Ascii.eqb_refl. cbn [Nat.min Nat.ltb Nat.leb].
  rewrite backtrack_exact. cbn [dropChars takeChars capture]. exact IH.
Qed.

(** The pattern reads a plain version between double quotes. *)
Lemma matchItems_quoted_version (version rest : string) :
  plainVersion version ->
  exists left,
    matchItems false versionPattern ("version: " ++ dq ++ version ++ dq ++ rest) []
    = Some ([(1%nat, version)], left).
Proof.
  intros [Hne Hplain]. unfold versionPattern.
  change ("version: " ++ dq ++ version ++ dq ++ rest)
    with ("version:" ++ String " " (String (ascii_of_nat 34) (version ++ dq ++ rest))).
  rewrite matchItems_literal.
  cbn [matchItems itemQuant itemClass itemGroup bounds].
  change (span isWhiteSpace (String " " (String (ascii_of_nat 34) (version ++ dq ++ rest))))
    with 1%nat.
  cbn [Nat.ltb Nat.leb].
  eexists. apply backtrack_first.
  cbn [dropChars takeChars capture span].
  change (isQuote (ascii_of_nat 34)) with true. cbv iota. cbn [Nat.min Nat.ltb Nat.leb].
  apply backtrack_first. cbn [dropChars takeChars capture].
  change (version ++ dq ++ rest) with (version ++ String (ascii_of_nat 34) rest).
  rewrite (@span_stops _ version (ascii_of_nat 34) rest Hplain) by reflexivity.
  replace ((String.length version <=? 0)%nat) with false
    by (destruct version; [contradiction | reflexivity]).
  apply backtrack_first. cbv beta.
  rewrite takeChars_length, dropChars_length.
  cbn [span]. change (isQuote (ascii_of_nat 34)) with true. cbv iota.
  apply backtrack_first. reflexivity.
Qed.

Lemma extractVersion_quoted (version rest : string) :
  plainVersion version ->
  extractVersion ("version: " ++ dq ++ version ++ dq ++ rest) = Some version.
Proof.
  intros Hv. unfold extractVersion.
  destruct (matchItems_quoted_version rest Hv) as (left & M).
  destruct ("version: " ++ dq ++ version ++ dq ++ rest) eqn:E; [discriminate|].
  cbn [searchVersion]. rewrite M. reflexivity.
Qed.

Lemma yaml_starts_with_version (h : Host) (files : list FileSpec)
    (version appName : string) (options : Options)
    (yaml : string) (config : Config) (log : list FsCall) :
  run (generateConfig h files version appName options) = (inr (yaml, config), log) ->
  exists rest, yaml = "version: " ++ dq ++ version ++ dq ++ rest.
Proof.
  intros H. destruct (generateConfig_success _ _ _ _ _ H) as (_ & ->).
  cbn [app concatAll fold_right]. unfold manifestHeader.
  eexists. rewrite !append_assoc. reflexivity.
Qed.

Lemma built_version_read_back (h : Host) (files : list FileSpec)
    (version appName : string) (options : Options)
    (yaml : string) (config : Config) (log : list FsCall) :
  run (generateConfig h files version appName options) = (inr (yaml, config), log) ->
  plainVersion version ->
  extractVersion yaml = Some version.
Proof.
  intros H Hv. destruct (yaml_starts_with_version _ _ _ _ _ H) as (rest & ->).
  now apply extractVersion_quoted.
Qed.

(** X18. The version is read back from a manifest the builder rendered:
    on the text of any manifest that was built for a version that is not
    empty and has no quote and no line feed in it, the pattern of the
    [version.yaml] route finds exactly that version. *)
Theorem X18_version_round_trip (h : Host) (files : list FileSpec)
    (version appName : string) (options : Options)
    (yaml : string) (config : Config) (log : list FsCall) :
  run (generateConfig h files version appName options) = (inr (yaml, config), log) ->
  plainVersion version ->
  extractVersion yaml = Some version.
Proof.
  intros H Hv. exact (@built_version_read_back h files version appName options yaml config log H Hv).
Qed.

Lemma X18_version_round_trip_witness :
  plainVersion "2.0.0"
  /\ exists yaml config log,
       run (generateConfig sampleHost [roboBinary] "2.0.0" "robo" noOptions)
       = (inr (yaml, config), log)
       /\ extractVersion yaml = Some "2.0.0".
Proof.
  assert (P : plainVersion "2.0.0") by (split; [discriminate | reflexivity]).
  split; [exact P|]. do 3 eexists. split; [reflexivity|].
  exact (@X18_version_round_trip sampleHost [roboBinary] "2.0.0" "robo" noOptions
           _ _ _ eq_refl P).
Defined.

(** ** The routes and the registry *)

(** X19. Only a request that is served is recorded.  The manifest route
    answers 200 exactly when the manifest exists and can be read, and
    with any other answer (404 for a missing manifest, 500 for a failed
    read) the registry is as it was.  The download route answers 404
    exactly when the file does not exist, and then the registry is as it
    was; once the file exists the request is recorded as a
    [file_download], whatever the answer. *)
Theorem X19_only_served_requests_are_recorded (site : Site) (nowMs : Z)
    (appName fileName : string) (req : Request) (reg : Registry) :
  let config := serveConfig site nowMs appName req reg in
  let download := serveFile site nowMs appName fileName req reg in
  (status (fst config) = 200 <->
   existsSync (host site) (getAppConfigFile site appName) = true
   /\ readFileSync (host site) (getAppConfigFile site appName) <> None)
  /\ (status (fst config) <> 200 -> snd config = reg)
  /\ (status (fst download) = 404 <->
      existsSync (host site) (binaryPath site appName fileName) = false)
  /\ (status (fst download) = 404 -> snd download = reg)
  /\ (status (fst download) <> 404 ->
      snd download = recordAgentStatus nowMs appName req "file_download" None reg).
Proof.
  cbv zeta. unfold serveConfig, serveFile.
  destruct (existsSync (host site) (getAppConfigFile site appName));
    destruct (readFileSync (host site) (getAppConfigFile site appName)) as [content|];
    destruct (existsSync (host site) (binaryPath site appName fileName));
    destruct (statSize site (binaryPath site appName fileName));
    cbn [negb fst snd status];
    repeat match goal with
           | |- _ /\ _ => split
           | |- _ <-> _ => split
           end;
    intros; try reflexivity;
    repeat match goal with
           | H : _ /\ _ |- _ => destruct H
           end;
    try discriminate; try congruence;
    (split; [reflexivity | discriminate]).
Qed.

(** X20. From the builder to the registry: when the manifest a site serves
    for an application is the text the builder rendered for a version that
    is not empty and has no quote and no line feed in it, a request for it
    is answered 200 with that text, and the agent that asked is then in the
    registry with that version as its [currentVersion], [config_check] as
    its last action and the clock reading as its [lastSeen]. *)
Theorem X20_served_manifest_sets_current_version (site : Site) (nowMs : Z)
    (appName : string) (req : Request) (reg : Registry)
    (h : Host) (files : list FileSpec) (version builtFor : string) (options : Options)
    (yaml : string) (config : Config) (log : list FsCall) :
  run (generateConfig h files version builtFor options) = (inr (yaml, config), log) ->
  plainVersion version ->
  existsSync (host site) (getAppConfigFile site appName) = true ->
  readFileSync (host site) (getAppConfigFile site appName) = Some yaml ->
  fst (serveConfig site nowMs appName req reg) = mkResponse 200 (Text yaml)
  /\ exists agent,
       findAgent (snd (serveConfig site nowMs appName req reg)) appName (resolveAgentId req)
       = Some agent
       /\ currentVersion agent = Some version
       /\ lastAction agent = "config_check"
       /\ lastSeen agent = toISOString nowMs.
Proof.
  intros Hbuild Hv Hex Hrd. unfold serveConfig. rewrite Hex, Hrd. cbn [negb fst snd].
  split; [reflexivity|].
  rewrite (@built_version_read_back h files version builtFor options yaml config log Hbuild Hv).
  eexists. split; [apply findAgent_record_same|].
  cbn [currentVersion lastAction lastSeen touchAgent].
  split; [|split; reflexivity].
  destruct Hv as [Hne _]. cbn [truthy].
  destruct (String.eqb_spec version ""); [contradiction | reflexivity].
Qed.

Lemma X20_served_manifest_witness :
  plainVersion "2.0.0"
  /\ readFileSync (host sampleSite) (getAppConfigFile sampleSite "robo") = Some roboManifest
  /\ exists agent,
       findAgent (snd (serveConfig sampleSite sampleNow "robo" namedRequest []))
         "robo" "agent-1" = Some agent
       /\ currentVersion agent = Some "2.0.0".
Proof.
  assert (P : plainVersion "2.0.0") by (split; [discriminate | reflexivity]).
  split; [exact P | split; [reflexivity|]].
  destruct (@X20_served_manifest_sets_current_version sampleSite sampleNow "robo"
              namedRequest [] sampleHost [roboBinary] "2.0.0" "robo" noOptions
              roboManifest _ _ eq_refl P eq_refl eq_refl) as (_ & agent & F & V & _).
  exists agent. split; [exact F | exact V].
Defined.

(** ** The log formatter *)

Section Log.
Variable A : Type.
Variable P : Printer A.

Lemma formatArgs_plain (message : string) (args : list A) :
  occurs "%" message = false -> formatArgs P message args = (message, args).
Proof.
  induction message as [|x tail IH]; [reflexivity|].
  cbn [occurs formatArgs]. intros H. apply orb_false_iff in H as [Hx Ht].
  rewrite Ascii.eqb_sym in Hx. rewrite Hx, (IH Ht). reflexivity.
Qed.


Lemma concat_spaces (x : string) (l : list string) :
  String.concat " " (x :: l) = x ++ concatAll (map (fun y => " " ++ y) l).
Proof.
  revert x. induction l as [|y l IH]; intros x.
  - cbn. now rewrite append_empty_r.
  - change (String.concat " " (x :: y :: l)) with (x ++ " " ++ String.concat " " (y :: l)).
    rewrite IH. cbn [map concatAll fold_right]. now rewrite !append_assoc.
Qed.

Lemma appended_join (a : A) (more : list A) :
  " " ++ String.concat " " (map (appended P) (a :: more)) = appendedAll P (a :: more).
Proof.
  cbn [map]. rewrite concat_spaces, map_map. unfold appendedAll.
  cbn [map concatAll fold_right]. now rewrite !append_assoc.
Qed.

Lemma formatMessage_left (message : string) (args : list A) :
  args <> [] ->
  formatMessage P message args
  = fst (formatArgs P message args) ++ appendedAll P (snd (formatArgs P message args)).
Proof.
  intros Hne. unfold formatMessage. destruct args as [|a args]; [contradiction|].
  destruct (formatArgs P message (a :: args)) as [out left]. cbn [fst snd].
  destruct left as [|b left].
  - unfold appendedAll. cbn. now rewrite append_empty_r.
  - now rewrite appended_join.
Qed.

(** X21. A log call without arguments writes its message as it is, percent
    signs included; a message without a percent sign is written as it is,
    followed by every argument of the call, each after one space. *)
Theorem X21_log_message_without_placeholders (message : string) (args : list A) :
  formatMessage P message [] = message
  /\ (occurs "%" message = false ->
      formatMessage P message args = message ++ appendedAll P args).
Proof.
  split; [reflexivity|]. intros H.
  destruct args as [|a args].
  - unfold appendedAll. cbn. now rewrite append_empty_r.
  - rewrite formatMessage_left by discriminate. now rewrite formatArgs_plain.
Qed.


(** X23. Placeholders take the arguments from left to right, one each: the
    arguments that are appended to the message are exactly those after the
    first [placeholderCount message] ones, so that no argument is lost and
    none is written twice. *)
Theorem X23_log_arguments_taken_in_order (message : string) (args : list A) :
  snd (formatArgs P message args) = skipn (placeholderCount message) args
  /\ (args <> [] ->
      formatMessage P message args
      = fst (formatArgs P message args)
        ++ appendedAll P (skipn (placeholderCount message) args)).
Proof.
  assert (H : forall message args,
             snd (formatArgs P message args) = skipn (placeholderCount message) args).
  { clear. intros message.
    induction message as [message IH] using (well_founded_induction
      (Wf_nat.well_founded_ltof _ String.length)).
    intros args. destruct message as [|x tail]; [reflexivity|].
    assert (IHt : forall args, snd (formatArgs P tail args)
                               = skipn (placeholderCount tail) args)
      by (intros; apply IH; unfold Wf_nat.ltof; simpl; lia).
    cbn [formatArgs placeholderCount].
    destruct (Ascii.eqb x "%").
    - destruct tail as [|c rest].
      + reflexivity.
      + assert (IHr : forall args, snd (formatArgs P rest args)
                                   = skipn (placeholderCount rest) args)
          by (intros; apply IH; unfold Wf_nat.ltof; simpl; lia).
        destruct (Ascii.eqb c "%").
        * specialize (IHr args). now destruct (formatArgs P rest args).
        * destruct (isPlaceholder c).
          -- destruct args as [|a args'].
             ++ specialize (IHr []). destruct (formatArgs P rest []).
                cbn [snd] in *. rewrite IHr. now rewrite !skipn_nil.
             ++ specialize (IHr args'). now destruct (formatArgs P rest args').
          -- specialize (IHt args). now destruct (formatArgs P (String c rest) args).
    - specialize (IHt args). now destruct (formatArgs P tail args). }
  split; [apply H|]. intros Hne. rewrite formatMessage_left by assumption. now rewrite H.
Qed.
End Log.


(** ** The newest binary *)

Lemma statAll_in (dir : BinaryDir) (names : list string)
    (stats : list (string * (bool * Z))) :
  statAll dir names = Some stats ->
  forall name st, In (name, st) stats <-> In name names /\ dirStat dir name = Some st.
Proof.
  revert stats. induction names as [|n names IH]; simpl; intros stats.
  - intros [= <-] name st. simpl. tauto.
  - destruct (dirStat dir n) as [s|] eqn:S; [|discriminate].
    destruct (statAll dir names) as [sts|]; [|discriminate].
    intros [= <-] name st. simpl. rewrite (IH sts eq_refl). split.
    + intros [[= <- <-]|[I E]]; [split; [now left | exact S] | split; [now right | exact E]].
    + intros [[<-|I] E]; [left; congruence | right; now split].
Qed.

Lemma statAll_none (dir : BinaryDir) (names : list string) :
  statAll dir names = None <-> exists name, In name names /\ dirStat dir name = None.
Proof.
  induction names as [|n names IH]; simpl.
  - split; [discriminate | intros (name & [] & _)].
  - destruct (dirStat dir n) as [s|] eqn:S.
    + destruct (statAll dir names) as [sts|].
      * split; [discriminate|]. intros (name & [<-|I] & E); [congruence|].
        assert (N : Some sts = None) by (apply IH; now exists name).
        discriminate N.
      * split; [|reflexivity]. intros _.
        destruct (proj1 IH eq_refl) as (name & I & E). exists name. split; [now right | exact E].
    + split; [|reflexivity]. intros _. exists n. split; [now left | exact S].
Qed.

Lemma in_insertNewest (f g : string * (bool * Z)) (sorted : list (string * (bool * Z))) :
  In g (insertNewest f sorted) <-> g = f \/ In g sorted.
Proof.
  induction sorted as [|x rest IH]; simpl; [intuition|].
  destruct (snd (snd f) <? snd (snd x)); simpl; [rewrite IH|]; intuition.
Qed.

Lemma in_sortNewest (g : string * (bool * Z)) (l : list (string * (bool * Z))) :
  In g (sortNewest l) <-> In g l.
Proof.
  unfold sortNewest. induction l as [|x l IH]; simpl; [tauto|].
  rewrite in_insertNewest, IH. intuition.
Qed.

(** The head of the sorted list is as new as any file. *)
Lemma head_insertNewest (f : string * (bool * Z)) (sorted : list (string * (bool * Z))) :
  (forall h t, sorted = h :: t -> forall g, In g sorted -> snd (snd g) <= snd (snd h)) ->
  forall h t, insertNewest f sorted = h :: t ->
  forall g, In g (insertNewest f sorted) -> snd (snd g) <= snd (snd h).
Proof.
  intros Hs h t E g I. destruct sorted as [|x rest]; simpl in *.
  - injection E as <- <-. destruct I as [<-|[]]. lia.
  - destruct (Z.ltb_spec (snd (snd f)) (snd (snd x))) as [Hlt|Hge].
    + injection E as <- <-. destruct I as [<-|I]; [lia|].
      apply in_insertNewest in I as [->|I]; [lia|].
      apply (Hs x rest eq_refl). now right.
    + injection E as <- <-. destruct I as [<-|I]; [lia|].
      pose proof (Hs x rest eq_refl g I). lia.
Qed.

Lemma head_sortNewest (l : list (string * (bool * Z))) :
  forall h t, sortNewest l = h :: t ->
  forall g, In g (sortNewest l) -> snd (snd g) <= snd (snd h).
Proof.
  unfold sortNewest. induction l as [|x l IH]; simpl; [discriminate|].
  now apply head_insertNewest.
Qed.

(** X24. The binary reported as the latest is a visible regular file of the
    binaries directory, and no visible regular file there is newer.  There
    is no answer exactly when the directory does not exist, or it cannot be
    listed, or the status of a visible name cannot be read, or no visible
    name is a regular file. *)
Theorem X24_latest_binary_is_newest_visible_file (dir : BinaryDir)
    (pathIn : string -> string) :
  (forall p, getLatestAppBinary dir pathIn = Some p ->
     exists name mtime,
       p = pathIn name /\ visibleFile dir name mtime
       /\ forall other mtime', visibleFile dir other mtime' -> mtime' <= mtime)
  /\ (getLatestAppBinary dir pathIn = None <->
      dirExists dir = false
      \/ dirNames dir = None
      \/ (exists names name,
            dirNames dir = Some names /\ In name names /\ isHidden name = false
            /\ dirStat dir name = None)
      \/ (forall name mtime, ~ visibleFile dir name mtime)).
Proof.
  unfold getLatestAppBinary, visibleFile.
  destruct (dirExists dir); cbn [negb].
  2:{ split; [discriminate | split; [now left | reflexivity]]. }
  destruct (dirNames dir) as [names|].
  2:{ split; [discriminate | split; [now right; left | reflexivity]]. }
  destruct (statAll dir (filter (fun f => negb (isHidden f)) names))
    as [stats|] eqn:S.
  - pose proof (statAll_in _ _ S) as Hin.
    assert (Hvis : forall name mtime,
               In (name, (true, mtime)) (sortNewest (filter (fun f => fst (snd f)) stats))
               <-> In name names /\ isHidden name = false
                   /\ dirStat dir name = Some (true, mtime)).
    { intros name mtime. rewrite in_sortNewest, filter_In, Hin, filter_In.
      cbn [fst snd]. rewrite negb_true_iff. tauto. }
    destruct (sortNewest (filter (fun f => fst (snd f)) stats)) as [|f sorted] eqn:E.
    + split; [discriminate|]. split; [|reflexivity]. intros _. right. right. right.
      intros name mtime (names' & [= <-] & H). apply Hvis in H. destruct H.
    + assert (Hf : exists name mtime, f = (name, (true, mtime))).
      { destruct f as [name [isFile mtime]].
        assert (If : In (name, (isFile, mtime))
                        (sortNewest (filter (fun f => fst (snd f)) stats)))
          by (rewrite E; now left).
        apply in_sortNewest, filter_In in If as [_ F]. cbn [fst snd] in F. subst isFile.
        now exists name, mtime. }
      destruct Hf as (name & mtime & ->). rewrite <- E in Hvis.
      assert (V : In name names /\ isHidden name = false
                  /\ dirStat dir name = Some (true, mtime))
        by (apply Hvis; rewrite E; now left).
      split.
      * intros p [= <-]. exists name, mtime. split; [reflexivity|].
        split; [now exists names|].
        intros other mtime' (names' & [= <-] & Ho). apply Hvis in Ho.
        exact (head_sortNewest _ E _ Ho).
      * split; [discriminate|].
        intros [H|[H|[(names' & other & [= <-] & I & Hh & N)|H]]];
          [discriminate | discriminate | |].
        -- exfalso.
           assert (Hs : statAll dir (filter (fun f => negb (isHidden f)) names) = None).
           { apply statAll_none. exists other. split; [|exact N].
             apply filter_In. split; [exact I | now rewrite Hh]. }
           congruence.
        -- exfalso. apply (H name mtime). now exists names.
  - split; [discriminate|]. split; [|reflexivity]. intros _. right. right. left.
    apply statAll_none in S as (name & I & N). apply filter_In in I as [I Hh].
    exists names, name. apply negb_true_iff in Hh. now repeat split.
Qed.

(** The model at work on a directory with a hidden file, a subdirectory and
    two binaries. *)
Example sampleDir_latest :
  getLatestAppBinary sampleDir (fun name => "/srv/robo/binaries/" ++ name)
  = Some "/srv/robo/binaries/robo-2.bin".
Proof. reflexivity. Qed.

(** ** The password gate *)

(** X25. The password gate accepts a password exactly when it is the
    configured one.  The configured password is never empty: when the
    [RECORDS_PASSWORD] variable is unset or empty it is the built-in
    default, which is then the password that is accepted; an empty or
    missing password is never accepted. *)
Theorem X25_password_gate (env password : option string) :
  (passwordAccepted env password = true <-> password = Some (RECORDS_PASSWORD env))
  /\ RECORDS_PASSWORD env <> ""
  /\ (unsent env -> RECORDS_PASSWORD env = "admin123456")
  /\ (unsent password -> passwordAccepted env password = false).
Proof.
  assert (Hne : RECORDS_PASSWORD env <> "").
  { unfold RECORDS_PASSWORD. destruct env as [e|]; simpl; [|discriminate].
    destruct (String.eqb_spec e ""); [discriminate | assumption]. }
  split; [|split; [exact Hne | split]].
  - unfold passwordAccepted.
    destruct (asTruthy_cases password) as [[U ->]|(p & [-> Hp] & ->)].
    + split; [discriminate|]. intros ->.
      destruct U as [U|U]; [discriminate | injection U as U; congruence].
    + rewrite String.eqb_eq. split; [now intros -> | now intros [= ->]].
  - intros U. unfold RECORDS_PASSWORD. now apply or_else_unsent.
  - intros U. unfold passwordAccepted. now rewrite (truthy_unsent U).
Qed.

(** ** The summary of an application *)

Lemma splitOn_not_nil (sep : ascii) (s : string) : splitOn sep s <> [].
Proof.
  induction s as [|c s IH]; cbn [splitOn]; [discriminate|].
  destruct (Ascii.eqb c sep); [discriminate|].
  destruct (splitOn sep s); [contradiction | discriminate].
Qed.

Lemma splitOn_line (sep : ascii) (line rest : string) :
  occurs sep line = false ->
  splitOn sep (line ++ String sep rest) = line :: splitOn sep rest.
Proof.
  induction line as [|c line IH]; intros H.
  - cbn [append splitOn]. now rewrite Ascii.eqb_refl.
  - cbn [occurs] in H. apply orb_false_iff in H as [Hc Hl].
    rewrite Ascii.eqb_sym in Hc.
    change (String c line ++ String sep rest) with (String c (line ++ String sep rest)).
    cbn [splitOn]. now rewrite Hc, (IH Hl).
Qed.

Lemma splitOn_unlines (lines : list string) :
  Forall oneLine lines ->
  splitOn (ascii_of_nat 10) (unlines lines) = (lines ++ [""])%list.
Proof.
  unfold unlines. induction 1 as [|l lines Hl _ IH]; [reflexivity|].
  cbn [map concatAll fold_right app]. rewrite append_assoc.
  change (nl ++ ?r) with (String (ascii_of_nat 10) r).
  rewrite splitOn_line by exact Hl. now rewrite <- IH.
Qed.

Lemma unlines_app (l1 l2 : list string) : unlines (l1 ++ l2) = unlines l1 ++ unlines l2.
Proof. unfold unlines. now rewrite map_app, concatAll_app. Qed.

Lemma fileLines_unlines (version : string) (e : ManifestEntry) :
  concatAll (entryLines version e) = unlines (entryTextLines version e).
Proof.
  unfold entryLines, entryTextLines, unlines, fileLines, versionLine, restartLine, fieldLine.
  destruct (String.eqb (e_version e) version), (e_restart e);
    cbn [app map concatAll fold_right]; now rewrite ?append_empty_r, ?append_assoc.
Qed.

Lemma blocks_unlines (version : string) (entries : list ManifestEntry) :
  concatAll (flat_map (entryLines version) entries)
  = unlines (flat_map (entryTextLines version) entries).
Proof.
  induction entries as [|e entries IH]; [reflexivity|].
  cbn [flat_map]. now rewrite concatAll_app, unlines_app, fileLines_unlines, IH.
Qed.

(** The text of a manifest, line by line. *)
Lemma yaml_unlines (h : Host) (files : list FileSpec)
    (version appName : string) (options : Options)
    (yaml : string) (config : Config) (log : list FsCall) :
  run (generateConfig h files version appName options) = (inr (yaml, config), log) ->
  yaml = unlines (headerTextLines version
                  ++ flat_map (entryTextLines version) (c_files config)
                  ++ trailerTextLines config)%list.
Proof.
  intros H. destruct (generateConfig_success _ _ _ _ _ H) as (_ & ->).
  rewrite !unlines_app, !concatAll_app, blocks_unlines. f_equal; [|f_equal].
  - unfold unlines, headerTextLines, manifestHeader, fieldLine.
    cbn [map concatAll fold_right]. now rewrite ?append_empty_r, ?append_assoc.
  - unfold trailerLines, trailerTextLines, unlines.
    destruct (c_restart_cmd config); cbn [map concatAll fold_right];
      now rewrite ?append_empty_r, ?append_assoc.
Qed.

Lemma backtrack_some (R : Type) (hi lo : nat) (attempt : nat -> option R) (r : R) :
  (lo <= hi)%nat ->
  backtrack hi lo attempt = Some r ->
  exists k, (lo <= k <= hi)%nat /\ attempt k = Some r.
Proof.
  induction hi as [|hi IH]; cbn [backtrack]; intros Hle H.
  - destruct (attempt 0%nat) eqn:E; [|discriminate].
    exists 0%nat. split; [lia | congruence].
  - destruct (attempt (S hi)) eqn:E.
    + exists (S hi). split; [lia | congruence].
    + destruct (Nat.leb_spec lo hi) as [Hlo|Hlo]; [|discriminate].
      destruct (IH Hlo H) as (k & Hk & A). exists k. split; [lia | exact A].
Qed.

(** A match only adds captures, after those it was given. *)
Lemma matchItems_captures (atEnd : bool) (items : list Item) (s : string)
    (caps caps' : Captures) (left : string) :
  matchItems atEnd items s caps = Some (caps', left) ->
  exists more, caps' = (caps ++ more)%list.
Proof.
  revert s caps. induction items as [|it rest IH]; intros s caps; cbn [matchItems].
  - destruct atEnd; [destruct s|]; intros [= <- _] || discriminate;
      exists []; now rewrite app_nil_r.
  - destruct (bounds (itemQuant it) (span (itemClass it) s)) as [lo hi].
    destruct (Nat.ltb_spec hi lo) as [Hlt|Hle]; [discriminate|].
    intros H. apply backtrack_some in H as (k & _ & H); [|exact Hle].
    apply IH in H as (more & ->).
    destruct (itemGroup it) as [g|]; cbn [capture].
    + exists ((g, takeChars k s) :: more). now rewrite <- app_assoc.
    + now exists more.
Qed.

Lemma takeChars_first (k : nat) (c : ascii) (s : string) :
  (1 <= k)%nat -> firstChar (takeChars k (String c s)) = Some c.
Proof. destruct k; [lia | reflexivity]. Qed.

(** The text captured by a first item that is repeated one or more times. *)
Lemma matchItems_first_group (atEnd : bool) (cls : ascii -> bool) (g : nat)
    (rest : list Item) (s : string) (caps : Captures) (left : string) :
  matchItems atEnd (mkItem cls OneOrMore (Some g) :: rest) s [] = Some (caps, left) ->
  exists k, (1 <= k <= span cls s)%nat /\ group g caps = Some (takeChars k s).
Proof.
  cbn [matchItems itemQuant itemClass itemGroup bounds].
  destruct (Nat.ltb_spec (span cls s) 1) as [Hlt|Hle]; [discriminate|].
  intros B. apply backtrack_some in B as (k & Hk & B); [|exact Hle].
  apply matchItems_captures in B as (more & ->).
  exists k. split; [lia|]. cbn [capture app group]. now rewrite Nat.eqb_refl.
Qed.

(** The key of a line starts where the line starts. *)
Lemma parseLine_key (line key value : string) :
  parseLine line = Some (key, value) ->
  exists c, firstChar line = Some c /\ firstChar key = Some c.
Proof.
  unfold parseLine, linePattern.
  destruct (matchItems true _ line []) as [[caps left]|] eqn:M; [|discriminate].
  apply matchItems_first_group in M as (k & Hk & G). rewrite G.
  destruct (group 2 caps); [|discriminate]. intros [= <- _].
  destruct line as [|c line].
  - simpl in Hk. lia.
  - exists c. split; [reflexivity | apply takeChars_first; lia].
Qed.

(** A line that does not start with [v] cannot set the key [version]. *)
Lemma parseLine_other_key (line key value : string) (c : ascii) :
  firstChar line = Some c -> c <> "v"%char ->
  parseLine line = Some (key, value) -> key <> "version".
Proof.
  intros Hc Hne H. apply parseLine_key in H as (c' & Hl & Hk).
  rewrite Hc in Hl. injection Hl as <-. intros ->. simpl in Hk. congruence.
Qed.

Lemma span_all (cls : ascii -> bool) (v : string) :
  allChars cls v = true -> span cls v = String.length v.
Proof.
  induction v as [|x v IH]; simpl; [reflexivity|].
  intros H. apply andb_prop in H as [Hx Hv]. now rewrite Hx, IH.
Qed.

(** One item that takes as much as it can, with the rest matching. *)
Lemma matchItems_greedy (atEnd : bool) (it : Item) (rest : list Item) (s : string)
    (caps : Captures) (lo hi : nat) (r : Captures * string) :
  bounds (itemQuant it) (span (itemClass it) s) = (lo, hi) ->
  (lo <= hi)%nat ->
  matchItems atEnd rest (dropChars hi s) (capture (itemGroup it) (takeChars hi s) caps)
  = Some r ->
  matchItems atEnd (it :: rest) s caps = Some r.
Proof.
  intros Hb Hle H. cbn [matchItems]. rewrite Hb.
  destruct (Nat.ltb_spec hi lo); [lia|]. now apply backtrack_first.
Qed.

Lemma matchItems_version_line (version : string) :
  version <> "" -> allChars (fun c => negb (isQuote c)) version = true ->
  matchItems true linePattern (fieldLine "version: " version) []
  = Some ([(1%nat, "version"); (2%nat, version)], "").
Proof.
  intros Hne Hplain. unfold linePattern, fieldLine.
  change ("version: " ++ dq ++ version ++ dq)
    with ("version" ++ String ":" (String " " (String (ascii_of_nat 34)
            (version ++ String (ascii_of_nat 34) "")))).
  apply (@matchItems_greedy _ _ _ _ _ 1 7); [reflexivity | lia |].
  cbn [itemGroup capture app append takeChars dropChars].
  apply (@matchItems_greedy _ _ _ _ _ 1 1); [reflexivity | lia |].
  cbn [itemGroup capture app append takeChars dropChars].
  apply (@matchItems_greedy _ _ _ _ _ 0 1); [reflexivity | lia |].
  cbn [itemGroup capture app append takeChars dropChars].
  apply (@matchItems_greedy _ _ _ _ _ 0 1); [reflexivity | lia |].
  cbn [itemGroup capture app append takeChars dropChars].
  apply (@matchItems_greedy _ _ _ _ _ 1 (String.length version)).
  - cbn [itemQuant itemClass bounds].
    now rewrite (@span_stops _ version (ascii_of_nat 34) "" Hplain eq_refl).
  - destruct version; [contradiction | simpl; lia].
  - rewrite takeChars_length, dropChars_length. cbn [itemGroup capture app].
    apply (@matchItems_greedy _ _ _ _ _ 0 1); [reflexivity | lia |]. reflexivity.
Qed.

(** The first line of a manifest gives the key [version] its value. *)
Lemma parseLine_version (version : string) :
  version <> "" -> allChars (fun c => negb (isQuote c)) version = true ->
  parseLine (fieldLine "version: " version) = Some ("version", version).
Proof.
  intros Hne Hplain. unfold parseLine.
  now rewrite (matchItems_version_line Hne Hplain).
Qed.

Lemma assign_other (config : JsMap.t string) (key value : string) :
  key <> "version" ->
  JsMap.get (assign config key value) "version" = JsMap.get config "version".
Proof.
  intros Hne. unfold assign. destruct (String.eqb key "__proto__"); [reflexivity|].
  now apply JsMapFacts.get_set_ne.
Qed.

(** Lines that do not start with [v] leave the key [version] as it is. *)
Lemma fold_other_lines (lines : list string) (config : JsMap.t string) :
  Forall (fun line => line = "" \/ exists c, firstChar line = Some c /\ c <> "v"%char) lines ->
  JsMap.get
    (fold_left
       (fun config line =>
          match parseLine line with
          | Some (key, value) => assign config key value
          | None => config
          end) lines config) "version"
  = JsMap.get config "version".
Proof.
  intros H. revert config. induction H as [|line lines Hl _ IH]; intros config; [reflexivity|].
  cbn [fold_left]. rewrite IH.
  destruct (parseLine line) as [[key value]|] eqn:E; [|reflexivity].
  apply assign_other. destruct Hl as [->|(c & Hc & Hne)].
  - apply parseLine_key in E as (c & Hc & _). discriminate.
  - exact (parseLine_other_key _ Hc Hne E).
Qed.

Lemma occurs_append (c : ascii) (a b : string) :
  occurs c (a ++ b) = (occurs c a || occurs c b)%bool.
Proof.
  induction a as [|x a IH]; [reflexivity|].
  change (String x a ++ b) with (String x (a ++ b)). cbn [occurs].
  now rewrite IH, orb_assoc.
Qed.

Lemma oneLine_fieldLine (label value : string) :
  oneLine label -> oneLine value -> oneLine (fieldLine label value).
Proof.
  unfold oneLine, fieldLine. intros Hl Hv.
  rewrite !occurs_append, Hl, Hv. reflexivity.
Qed.

Lemma plainVersion_fields (version : string) :
  plainVersion version ->
  version <> "" /\ allChars (fun c => negb (isQuote c)) version = true /\ oneLine version.
Proof.
  intros [Hne H]. split; [exact Hne|]. unfold oneLine.
  induction version as [|x v IH]; [now split|].
  cbn [allChars occurs] in *. apply andb_prop in H as [Hx Hv].
  apply negb_true_iff, orb_false_iff in Hx as [Hq Hn].
  assert (Hv' : v <> "" \/ v = "") by (destruct v; [now right | left; discriminate]).
  assert (R : allChars (fun c => negb (isQuote c)) v = true
              /\ occurs (ascii_of_nat 10) v = false).
  { destruct Hv' as [Hv'| ->]; [now apply IH | now split]. }
  destruct R as [R1 R2]. rewrite Hq, R1, R2. rewrite Ascii.eqb_sym, Hn. now split.
Qed.

Lemma entryTextLines_oneLine (version : string) (e : ManifestEntry) :
  entryOneLine e -> Forall oneLine (entryTextLines version e).
Proof.
  intros (Hn & Hu & Hs & Ht & Hv). unfold entryTextLines.
  apply Forall_app; split; [|apply Forall_app; split].
  - repeat (constructor; [now apply oneLine_fieldLine|]). constructor.
  - destruct (String.eqb (e_version e) version); [constructor|].
    constructor; [now apply oneLine_fieldLine | constructor].
  - destruct (e_restart e); [|constructor].
    constructor; [reflexivity | constructor].
Qed.

Lemma entryTextLines_indented (version : string) (e : ManifestEntry) :
  Forall (fun line => line = "" \/ exists c, firstChar line = Some c /\ c <> "v"%char)
    (entryTextLines version e).
Proof.
  unfold entryTextLines.
  assert (S : forall line, firstChar line = Some " "%char ->
                line = "" \/ exists c, firstChar line = Some c /\ c <> "v"%char)
    by (intros line H; right; exists " "%char; split; [exact H | discriminate]).
  apply Forall_app; split; [|apply Forall_app; split].
  - repeat (constructor; [now apply S|]). constructor.
  - destruct (String.eqb (e_version e) version); [constructor|].
    constructor; [now apply S | constructor].
  - destruct (e_restart e); [|constructor].
    constructor; [now apply S | constructor].
Qed.

(** X26. The summary of an application reads the version back from a
    manifest the builder rendered: when the manifest of the application
    is the text built for a version that is not empty and has no quote and
    no line feed in it, and no rendered field (name, URL, digest, target,
    file version, restart command) has a line feed in it, [readAppConfig]
    answers an object whose [version] is that version. *)
Theorem X26_summary_reads_version_back (site : Site) (appName : string)
    (h : Host) (files : list FileSpec) (version builtFor : string) (options : Options)
    (yaml : string) (config : Config) (log : list FsCall) :
  run (generateConfig h files version builtFor options) = (inr (yaml, config), log) ->
  plainVersion version ->
  Forall entryOneLine (c_files config) ->
  (forall cmd, c_restart_cmd config = Some cmd -> oneLine cmd) ->
  existsSync (host site) (getAppConfigFile site appName) = true ->
  readFileSync (host site) (getAppConfigFile site appName) = Some yaml ->
  exists summary,
    readAppConfig site appName = Some summary
    /\ JsMap.get summary "version" = Some version.
Proof.
  intros Hbuild Hv Hentries Hcmd Hex Hrd.
  destruct (plainVersion_fields Hv) as (Hne & Hq & Hl).
  unfold readAppConfig. rewrite Hex, Hrd. cbn [negb].
  eexists. split; [reflexivity|].
  unfold parseConfig. rewrite (yaml_unlines _ _ _ _ _ Hbuild).
  rewrite splitOn_unlines.
  - unfold headerTextLines. cbn [app].
    remember ("files:" :: (flat_map (entryTextLines version) (c_files config)
                           ++ trailerTextLines config) ++ [""])%list as others eqn:Eo.
    cbn [fold_left]. rewrite fold_other_lines.
    + rewrite (parseLine_version Hne Hq). reflexivity.
    + subst others.
      constructor; [right; exists "f"%char; split; [reflexivity | discriminate]|].
      apply Forall_app; split; [apply Forall_app; split|].
      * apply Forall_flat_map, Forall_forall. intros e _. apply entryTextLines_indented.
      * unfold trailerTextLines. destruct (c_restart_cmd config); [|constructor].
        constructor; [|constructor].
        right. exists "r"%char. split; [reflexivity | discriminate].
      * constructor; [now left | constructor].
  - apply Forall_app; split; [|apply Forall_app; split].
    + unfold headerTextLines.
      constructor; [apply oneLine_fieldLine; [reflexivity | exact Hl]|].
      constructor; [reflexivity | constructor].
    + apply Forall_flat_map. eapply Forall_impl; [|exact Hentries].
      intros e He. now apply entryTextLines_oneLine.
    + unfold trailerTextLines. destruct (c_restart_cmd config) as [cmd|] eqn:E;
        [|constructor].
      constructor; [|constructor].
      unfold oneLine. rewrite !occurs_append, (Hcmd cmd eq_refl). reflexivity.
Qed.

Lemma X26_summary_witness :
  plainVersion "2.0.0"
  /\ readFileSync (host sampleSite) (getAppConfigFile sampleSite "robo") = Some roboManifest
  /\ exists summary,
       readAppConfig sampleSite "robo" = Some summary
       /\ JsMap.get summary "version" = Some "2.0.0".
Proof.
  assert (P : plainVersion "2.0.0") by (split; [discriminate | reflexivity]).
  split; [exact P | split; [reflexivity|]].
  refine (@X26_summary_reads_version_back sampleSite "robo" sampleHost [roboBinary]
            "2.0.0" "robo" noOptions roboManifest _ _ eq_refl P _ _ eq_refl eq_refl).
  - constructor; [|constructor]. repeat split; reflexivity.
  - intros cmd E. discriminate E.
Defined.
